(** * Local DAG execution of compiled pipelines: a shallow embedding

    The development follows two modules of the SDK,
    [kfp/local/executor_output_utils.py] (the structured-value codec and
    the executor-output normalisation) and [kfp/local/dag_orchestrator.py]
    (the recursive DAG runner).  Python exceptions are results of type
    [result]; dictionaries keyed by strings are [gmap string _] except where
    the iteration order is observable, where they are association lists. *)

From Stdlib Require Import ZArith Floats.SpecFloat.
From stdpp Require Import base option list strings gmap fin_maps.

Set Warnings "-register-all".

Open Scope string_scope.
Open Scope list_scope.
Open Scope nat_scope.

(** ** Exceptions and fallible computations *)

(** The exceptions the modelled code raises, by Python class.  A
    [ValueError] carries the literal part of the message of the source. *)
Inductive PyError : Type :=
| ValueError (msg : string)
| KeyError (key : string)
| IndexError
| TypeError
| OverflowError
| FileNotFoundError
| IsADirectoryError
| RecursionError.

Inductive result (A : Type) : Type :=
| Ok (a : A)
| Raise (e : PyError).
Arguments Ok {A} a.
Arguments Raise {A} e.

Definition result_bind {A B} (f : A → result B) (c : result A) : result B :=
  match c with
  | Ok a => f a
  | Raise e => Raise e
  end.

#[global] Instance result_ret : MRet result := λ A, @Ok A.
#[global] Instance result_mbind : MBind result := λ A B, @result_bind A B.
#[global] Instance result_fmap : FMap result :=
  λ A B f, result_bind (λ a, Ok (f a)).

Definition is_Ok {A} (c : result A) : Prop := ∃ a, c = Ok a.

(** [d[key]] on a Python [dict]: a missing key raises [KeyError]. *)
Definition dict_getitem {V} (d : gmap string V) (key : string) : result V :=
  match d !! key with
  | Some v => Ok v
  | None => Raise (KeyError key)
  end.

(** A comprehension [[f(x) for x in l]] whose body may raise. *)
Definition list_comprehension {A B} (f : A → result B) : list A → result (list B) :=
  fix go (l : list A) : result (list B) :=
    match l with
    | [] => Ok []
    | x :: rest =>
        match f x with
        | Ok y => match go rest with
                  | Ok ys => Ok (y :: ys)
                  | Raise e => Raise e
                  end
        | Raise e => Raise e
        end
    end.

(** A comprehension [{k: f(v) for k, v in d.items()}] over an ordered
    mapping. *)
Definition dict_comprehension {A B} (f : A → result B)
  : list (string * A) → result (list (string * B)) :=
  list_comprehension (λ kv, match f kv.2 with
                            | Ok y => Ok (kv.1, y)
                            | Raise e => Raise e
                            end).

(** ** Values *)

(** Python's [float] is an IEEE 754 binary64 number. *)
Definition float : Type := spec_float.
Definition float_prec : Z := 53.
Definition float_emax : Z := 1024.

(** The binary64 number 3.0: mantissa [3 * 2^51], exponent [-51]. *)
Definition float_three : float := S754_finite false 6755399441055744 (-51).

(** [google.protobuf.struct_pb2.Value]: the [kind] oneof, [kind_not_set]
    when no member is set.  [Struct.fields] is a map with string keys, kept
    in the order [items()] yields it. *)
Inductive Value : Type :=
| null_value
| number_value (x : float)
| string_value (s : string)
| bool_value (b : bool)
| struct_value (fields : list (string * Value))
| list_value (values : list Value)
| kind_not_set.

(** [pipeline_spec_pb2.RuntimeArtifact]; [artifact_type] is the
    [schema_title] of its [type] field. *)
Record RuntimeArtifact : Type := {
  artifact_name : string;
  artifact_type : string;
  artifact_uri : string;
  artifact_metadata : list (string * Value);
}.

(** [dsl.Artifact] instances, as [executor.create_artifact_instance] builds
    them. *)
Record DslArtifact : Type := {
  dsl_schema_title : string;
  dsl_name : string;
  dsl_uri : string;
  dsl_metadata : list (string * Value);
}.

(** The native values that cross the I/O store. *)
Inductive PyValue : Type :=
| PyNone
| PyFloat (x : float)
| PyInt (z : Z)
| PyStr (s : string)
| PyBool (b : bool)
| PyDict (items : list (string * PyValue))
| PyList (elems : list PyValue)
| PyArtifact (a : DslArtifact).

(** ** Structured-value codec *)

Module Codec.

(** [pb2_value_to_python], with [pb2_struct_to_python] inlined in the
    [struct_value] branch (see [pb2_struct_to_python] below). *)
Fixpoint pb2_value_to_python (value : Value) : result PyValue :=
  match value with
  | null_value => Ok PyNone
  | number_value x => Ok (PyFloat x)
  | string_value s => Ok (PyStr s)
  | bool_value b => Ok (PyBool b)
  | struct_value fields =>
      match dict_comprehension pb2_value_to_python fields with
      | Ok items => Ok (PyDict items)
      | Raise e => Raise e
      end
  | list_value values =>
      match list_comprehension pb2_value_to_python values with
      | Ok elems => Ok (PyList elems)
      | Raise e => Raise e
      end
  | kind_not_set => Raise (ValueError "Unknown value type")
  end.

Definition pb2_struct_to_python (fields : list (string * Value)) : result PyValue :=
  match dict_comprehension pb2_value_to_python fields with
  | Ok items => Ok (PyDict items)
  | Raise e => Raise e
  end.

(** [float(z)] for a Python [int]: round to nearest even, [OverflowError]
    when the integer is too large for a binary64. *)
Definition float_of_int (z : Z) : result float :=
  match binary_normalize float_prec float_emax z 0 false with
  | S754_infinity _ => Raise OverflowError
  | x => Ok x
  end.

(** Modelled from the spec: [pipeline_spec_builder.to_protobuf_value] is not
    among the sources.  Section 4.1 gives [toWire] as the inverse of
    [toNative], with every number, integer or floating, under the single
    numeric tag; an artifact is not part of the wire union. *)
Fixpoint to_protobuf_value (value : PyValue) : result Value :=
  match value with
  | PyNone => Ok null_value
  | PyFloat x => Ok (number_value x)
  | PyInt z =>
      match float_of_int z with
      | Ok x => Ok (number_value x)
      | Raise e => Raise e
      end
  | PyStr s => Ok (string_value s)
  | PyBool b => Ok (bool_value b)
  | PyDict items =>
      match dict_comprehension to_protobuf_value items with
      | Ok fields => Ok (struct_value fields)
      | Raise e => Raise e
      end
  | PyList elems =>
      match list_comprehension to_protobuf_value elems with
      | Ok values => Ok (list_value values)
      | Raise e => Raise e
      end
  | PyArtifact _ => Raise (ValueError "Unsupported value type")
  end.

(** The wire values in which every nested [kind] oneof is set. *)
Fixpoint wire_tagged (value : Value) : bool :=
  match value with
  | struct_value fields => forallb (λ kv, wire_tagged kv.2) fields
  | list_value values => forallb wire_tagged values
  | kind_not_set => false
  | _ => true
  end.

(** The native values of kind null, number, string, boolean, list or
    structure that the wire union represents: numbers are floats, and
    there is no artifact. *)
Fixpoint wire_representable (value : PyValue) : bool :=
  match value with
  | PyInt _ | PyArtifact _ => false
  | PyDict items => forallb (λ kv, wire_representable kv.2) items
  | PyList elems => forallb wire_representable elems
  | _ => true
  end.

(** *** Induction over nested values *)

Lemma Value_nested_ind (P : Value → Prop) :
  P null_value →
  (∀ x, P (number_value x)) →
  (∀ s, P (string_value s)) →
  (∀ b, P (bool_value b)) →
  (∀ fields, Forall (λ kv, P kv.2) fields → P (struct_value fields)) →
  (∀ values, Forall P values → P (list_value values)) →
  P kind_not_set →
  ∀ value, P value.
Proof.
  intros Hnull Hnum Hstr Hbool Hstruct Hlist Hunset.
  fix IH 1. intros [ | x | s | b | fields | values | ].
  - exact Hnull.
  - apply Hnum.
  - apply Hstr.
  - apply Hbool.
  - apply Hstruct. induction fields as [ | [k v] rest IHrest ]; constructor.
    + apply IH.
    + exact IHrest.
  - apply Hlist. induction values as [ | v rest IHrest ]; constructor.
    + apply IH.
    + exact IHrest.
  - exact Hunset.
Qed.

Lemma PyValue_nested_ind (P : PyValue → Prop) :
  P PyNone →
  (∀ x, P (PyFloat x)) →
  (∀ z, P (PyInt z)) →
  (∀ s, P (PyStr s)) →
  (∀ b, P (PyBool b)) →
  (∀ items, Forall (λ kv, P kv.2) items → P (PyDict items)) →
  (∀ elems, Forall P elems → P (PyList elems)) →
  (∀ a, P (PyArtifact a)) →
  ∀ value, P value.
Proof.
  intros Hnone Hfloat Hint Hstr Hbool Hdict Hlist Hart.
  fix IH 1. intros [ | x | z | s | b | items | elems | a ].
  - exact Hnone.
  - apply Hfloat.
  - apply Hint.
  - apply Hstr.
  - apply Hbool.
  - apply Hdict. induction items as [ | [k v] rest IHrest ]; constructor.
    + apply IH.
    + exact IHrest.
  - apply Hlist. induction elems as [ | v rest IHrest ]; constructor.
    + apply IH.
    + exact IHrest.
  - apply Hart.
Qed.

(** *** Comprehensions that invert one another *)

Lemma list_comprehension_inverse {A B} (f : A → result B) (g : B → result A)
    (dom : A → bool) (l : list A) :
  Forall (λ x, dom x = true → ∃ y, f x = Ok y ∧ g y = Ok x) l →
  forallb dom l = true →
  ∃ l', list_comprehension f l = Ok l' ∧ list_comprehension g l' = Ok l.
Proof.
  induction 1 as [ | x rest Hx _ IH ]; simpl; intros Hdom.
  - by exists [].
  - apply andb_prop in Hdom as [Hdx Hdrest].
    destruct (Hx Hdx) as (y & Hf & Hg).
    destruct (IH Hdrest) as (ys & Hfs & Hgs).
    exists (y :: ys). simpl. by rewrite Hf, Hfs, Hg, Hgs.
Qed.

Lemma dict_comprehension_inverse {A B} (f : A → result B) (g : B → result A)
    (dom : A → bool) (l : list (string * A)) :
  Forall (λ kv, dom kv.2 = true → ∃ y, f kv.2 = Ok y ∧ g y = Ok kv.2) l →
  forallb (λ kv, dom kv.2) l = true →
  ∃ l', dict_comprehension f l = Ok l' ∧ dict_comprehension g l' = Ok l.
Proof.
  intros Hall Hdom. unfold dict_comprehension.
  eapply (list_comprehension_inverse _ _ (λ kv, dom kv.2)); [ | exact Hdom ].
  eapply Forall_impl; [ exact Hall | ].
  intros [k v] Hkv Hd. simpl in *. destruct (Hkv Hd) as (y & Hf & Hg).
  exists (k, y). simpl. by rewrite Hf, Hg.
Qed.

Lemma encode_then_decode (v : PyValue) :
  wire_representable v = true →
  ∃ w, to_protobuf_value v = Ok w ∧ pb2_value_to_python w = Ok v.
Proof.
  induction v as [ | x | z | s | b | items IH | elems IH | a ]
    using PyValue_nested_ind; simpl; intros Hrep; try discriminate; eauto.
  - destruct (dict_comprehension_inverse _ _ _ _ IH Hrep) as (fields & He & Hd).
    exists (struct_value fields). simpl. by rewrite He, Hd.
  - destruct (list_comprehension_inverse _ _ _ _ IH Hrep) as (values & He & Hd).
    exists (list_value values). simpl. by rewrite He, Hd.
Qed.

Lemma decode_then_encode (w : Value) :
  wire_tagged w = true →
  ∃ v, pb2_value_to_python w = Ok v ∧ to_protobuf_value v = Ok w.
Proof.
  induction w as [ | x | s | b | fields IH | values IH | ]
    using Value_nested_ind; simpl; intros Htag; try discriminate; eauto.
  - destruct (dict_comprehension_inverse _ _ _ _ IH Htag) as (items & Hd & He).
    exists (PyDict items). simpl. by rewrite Hd, He.
  - destruct (list_comprehension_inverse _ _ _ _ IH Htag) as (elems & Hd & He).
    exists (PyList elems). simpl. by rewrite Hd, He.
Qed.

(** Decoding succeeds on exactly the tagged wire values, so [wire_tagged]
    leaves out no value the decoder accepts. *)
Lemma list_comprehension_Ok_forallb {A B} (f : A → result B) (dom : A → bool)
    (l : list A) (l' : list B) :
  Forall (λ x, is_Ok (f x) → dom x = true) l →
  list_comprehension f l = Ok l' → forallb dom l = true.
Proof.
  intros Hall. revert l'.
  induction Hall as [ | x rest Hx _ IH ]; simpl; intros l' Hl; [ done | ].
  destruct (f x) as [y | e] eqn:Hf; [ | discriminate ].
  destruct (list_comprehension f rest) as [ys | e]; [ | discriminate ].
  rewrite Hx by by exists y. simpl. by eapply IH.
Qed.

Lemma decode_Ok_tagged (w : Value) :
  is_Ok (pb2_value_to_python w) → wire_tagged w = true.
Proof.
  induction w as [ | x | s | b | fields IH | values IH | ]
    using Value_nested_ind; simpl; intros [v Hv]; try done.
  - destruct (dict_comprehension pb2_value_to_python fields) as [items | e] eqn:Hd;
      [ | discriminate ].
    eapply (list_comprehension_Ok_forallb _ (λ kv, wire_tagged kv.2)); [ | exact Hd ].
    eapply Forall_impl; [ exact IH | ].
    intros [k u] Hu [y Hy]. simpl in *. apply Hu.
    destruct (pb2_value_to_python u) as [u' | e]; [ by exists u' | discriminate ].
  - destruct (list_comprehension pb2_value_to_python values) as [elems | e] eqn:Hd;
      [ | discriminate ].
    by eapply list_comprehension_Ok_forallb.
Qed.

Lemma list_comprehension_Forall2 {A B} (f : A → result B) (l : list A) (l' : list B) :
  list_comprehension f l = Ok l' → Forall2 (λ x y, f x = Ok y) l l'.
Proof.
  revert l'. induction l as [ | x rest IH ]; simpl; intros l' Hl.
  - injection Hl as <-. constructor.
  - destruct (f x) as [y | e] eqn:Hf; [ | done ].
    destruct (list_comprehension f rest) as [ys | e]; [ | done ].
    injection Hl as <-. constructor; [ done | by apply IH ].
Qed.

(** The decoder returns representable values only. *)
Lemma decode_representable (w : Value) (v : PyValue) :
  pb2_value_to_python w = Ok v → wire_representable v = true.
Proof.
  revert v.
  induction w as [ | x | s | b | fields IH | values IH | ]
    using Value_nested_ind; simpl; intros v Hdec;
    try discriminate; try (by injection Hdec as <-).
  - destruct (dict_comprehension pb2_value_to_python fields) as [items | e] eqn:Hc;
      [ | done ].
    injection Hdec as <-. simpl.
    apply list_comprehension_Forall2 in Hc.
    induction Hc as [ | [k u] [k' u'] rest rest' Hu _ IHrest ]; [ done | ].
    apply Forall_cons in IH as [IHu IHr]. simpl in *.
    destruct (pb2_value_to_python u) as [y | e] eqn:Hy; [ | done ].
    injection Hu as <- <-. rewrite (IHu y) by done. simpl. by apply IHrest.
  - destruct (list_comprehension pb2_value_to_python values) as [elems | e] eqn:Hc;
      [ | done ].
    injection Hdec as <-. simpl.
    apply list_comprehension_Forall2 in Hc.
    induction Hc as [ | u u' rest rest' Hu _ IHrest ]; [ done | ].
    apply Forall_cons in IH as [IHu IHr]. simpl.
    rewrite (IHu u') by done. simpl. by apply IHrest.
Qed.

(** C8.  Round trip of the codec: a native value made of null, floats,
    strings, booleans, lists and structures is encoded to a wire value that
    decodes to it, and a wire value with every tag set is decoded to a
    native value that encodes to it. *)
Theorem codec_round_trip (v : PyValue) (w : Value)
    (Hv : wire_representable v = true) (Hw : wire_tagged w = true) :
  to_protobuf_value v ≫= pb2_value_to_python = Ok v
  ∧ pb2_value_to_python w ≫= to_protobuf_value = Ok w.
Proof.
  destruct (encode_then_decode v Hv) as (w' & -> & Hdec).
  destruct (decode_then_encode w Hw) as (v' & -> & Henc).
  by split.
Qed.

Definition sample_native : PyValue :=
  PyDict [("name", PyStr "model"); ("rate", PyFloat (S754_finite false 1 (-1)));
          ("tags", PyList [PyNone; PyBool true])].

Definition sample_wire : Value :=
  struct_value [("name", string_value "model");
                ("rate", number_value (S754_finite false 1 (-1)));
                ("tags", list_value [null_value; bool_value true])].

Lemma codec_round_trip_witness :
  to_protobuf_value sample_native ≫= pb2_value_to_python = Ok sample_native
  ∧ pb2_value_to_python sample_wire ≫= to_protobuf_value = Ok sample_wire.
Proof. apply (codec_round_trip sample_native sample_wire); reflexivity. Defined.

(** *** What the decoder does besides *)

Lemma list_comprehension_total {A B} (f : A → result B) (l : list A) :
  Forall (λ x, is_Ok (f x)) l → is_Ok (list_comprehension f l).
Proof.
  induction 1 as [ | x rest [y Hy] _ [ys Hys] ]; simpl.
  - by eexists.
  - rewrite Hy, Hys. by eexists.
Qed.

Lemma list_comprehension_Raise {A B} (f : A → result B) (l : list A) e :
  list_comprehension f l = Raise e → ∃ x, x ∈ l ∧ f x = Raise e.
Proof.
  induction l as [ | x rest IH ]; simpl; [ done | ].
  destruct (f x) as [y | e'] eqn:Hf.
  - destruct (list_comprehension f rest) as [ys | e'']; [ done | ].
    intros [= ->]. destruct (IH eq_refl) as (x' & Hin & Hx').
    exists x'. split; [ by apply list_elem_of_further | done ].
  - intros [= ->]. exists x. split; [ apply list_elem_of_here | done ].
Qed.

(** X1.  The decoder returns exactly on the wire values in which every
    [kind] oneof is set, at every depth of nesting. *)
Theorem decode_returns_iff_tagged (w : Value) :
  is_Ok (pb2_value_to_python w) ↔ wire_tagged w = true.
Proof.
  split; [ apply decode_Ok_tagged | ].
  induction w as [ | x | s | b | fields IH | values IH | ]
    using Value_nested_ind; simpl; intros Htag; try discriminate;
    try (by eexists).
  - destruct (list_comprehension_total
                (λ kv : string * Value,
                   match pb2_value_to_python kv.2 with
                   | Ok y => Ok (kv.1, y)
                   | Raise e => Raise e
                   end) fields) as [items Hitems].
    + rewrite forallb_forall in Htag. rewrite Forall_forall in IH.
      apply Forall_forall. intros [k u] Hu.
      destruct (IH _ Hu) as [y Hy]; [ | simpl in *; rewrite Hy; by eexists ].
      apply (Htag (k, u)). by apply list_elem_of_In.
    + unfold dict_comprehension. rewrite Hitems. by eexists.
  - destruct (list_comprehension_total pb2_value_to_python values) as [elems Helems].
    + rewrite forallb_forall in Htag. rewrite Forall_forall in IH.
      apply Forall_forall. intros u Hu. apply (IH _ Hu).
      apply Htag. by apply list_elem_of_In.
    + rewrite Helems. by eexists.
Qed.

Lemma decode_Raise (w : Value) (e : PyError) :
  pb2_value_to_python w = Raise e → e = ValueError "Unknown value type".
Proof.
  revert e.
  induction w as [ | x | s | b | fields IH | values IH | ]
    using Value_nested_ind; simpl; intros e Hraise; try discriminate.
  - destruct (dict_comprehension pb2_value_to_python fields) as [items | e'] eqn:Hc;
      [ done | ].
    injection Hraise as ->.
    apply list_comprehension_Raise in Hc as ([k u] & Hin & Hu). simpl in Hu.
    rewrite Forall_forall in IH. apply (IH _ Hin). simpl.
    destruct (pb2_value_to_python u); [ discriminate | by injection Hu as -> ].
  - destruct (list_comprehension pb2_value_to_python values) as [elems | e'] eqn:Hc;
      [ done | ].
    injection Hraise as ->.
    apply list_comprehension_Raise in Hc as (u & Hin & Hu).
    rewrite Forall_forall in IH. by apply (IH _ Hin).
  - by injection Hraise as <-.
Qed.

(** X2.  The only exception the decoder raises is the [ValueError] for an
    unknown value type, however deep the untagged value sits. *)
Theorem decode_raises_unknown_value_type_only (w : Value) (e : PyError)
    (Hraise : pb2_value_to_python w = Raise e) :
  e = ValueError "Unknown value type".
Proof. by eapply decode_Raise. Qed.

Lemma decode_raises_unknown_value_type_only_witness :
  pb2_value_to_python (list_value [null_value; struct_value [("k", kind_not_set)]])
  = Raise (ValueError "Unknown value type")
  ∧ ValueError "Unknown value type" = ValueError "Unknown value type".
Proof.
  split; [ reflexivity | ].
  apply (decode_raises_unknown_value_type_only
           (list_value [null_value; struct_value [("k", kind_not_set)]])).
  reflexivity.
Defined.

(** X3.  Decoding keeps the shape of a value: a structure decodes to a
    dictionary with the same keys in the same order and a list to a list of
    the same length, each entry being the decoding of the entry at the same
    place. *)
Theorem decode_keeps_shape (fields : list (string * Value)) (values : list Value) :
  (∀ v, pb2_value_to_python (struct_value fields) = Ok v →
        ∃ items, v = PyDict items
                 ∧ items.*1 = fields.*1
                 ∧ Forall2 (λ w u, pb2_value_to_python w = Ok u) fields.*2 items.*2)
  ∧ (∀ v, pb2_value_to_python (list_value values) = Ok v →
          ∃ elems, v = PyList elems
                   ∧ List.length elems = List.length values
                   ∧ Forall2 (λ w u, pb2_value_to_python w = Ok u) values elems).
Proof.
  split; intros v; simpl.
  - destruct (dict_comprehension pb2_value_to_python fields) as [items | e] eqn:Hc;
      [ | done ].
    intros [= <-]. exists items. split; [ done | ].
    apply list_comprehension_Forall2 in Hc.
    induction Hc as [ | [k w] [k' u] rest rest' Hwu _ [IHk IHv] ]; [ by split | ].
    simpl in *. destruct (pb2_value_to_python w) as [y | e] eqn:Hy; [ | done ].
    injection Hwu as <- <-. split; [ by f_equal | by constructor ].
  - destruct (list_comprehension pb2_value_to_python values) as [elems | e] eqn:Hc;
      [ | done ].
    intros [= <-]. exists elems. split; [ done | ].
    apply list_comprehension_Forall2 in Hc.
    split; [ symmetry; by eapply Forall2_length | done ].
Qed.

(** X4.  A decoded value holds no native [int] and no artifact at any
    depth: every number in it is a float. *)
Theorem decoded_numbers_are_floats (w : Value) (v : PyValue)
    (Hdecoded : pb2_value_to_python w = Ok v) :
  wire_representable v = true.
Proof. by eapply decode_representable. Qed.

Lemma decoded_numbers_are_floats_witness :
  wire_representable
    (PyDict [("n", PyList [PyFloat float_three; PyNone])]) = true.
Proof.
  apply (decoded_numbers_are_floats
           (struct_value [("n", list_value [number_value float_three; null_value])])).
  reflexivity.
Defined.

End Codec.

(** ** Pipeline-spec messages *)

(** [ParameterType.ParameterTypeEnum]. *)
Inductive ParameterTypeEnum : Type :=
| PARAMETER_TYPE_ENUM_UNSPECIFIED
| NUMBER_DOUBLE
| NUMBER_INTEGER
| STRING
| BOOLEAN
| LIST
| STRUCT
| TASK_FINAL_STATUS.

#[global] Instance ParameterTypeEnum_eq_dec : EqDecision ParameterTypeEnum.
Proof. solve_decision. Defined.

(** The [ParameterSpec] of a component input or output.  An absent default
    is the [Value] with no [kind] set. *)
Record ParameterSpec : Type := {
  parameter_type : ParameterTypeEnum;
  default_value : Value;
}.

Record ArtifactSpec : Type := {
  is_artifact_list : bool;
}.

(** [ComponentInputsSpec] and [ComponentOutputsSpec] have the same two
    maps. *)
Record ComponentIOSpec : Type := {
  parameters : gmap string ParameterSpec;
  artifacts : gmap string ArtifactSpec;
}.

(** Reading a protobuf map of messages at a missing key gives the default
    message, not an exception. *)
Definition default_ParameterSpec : ParameterSpec :=
  {| parameter_type := PARAMETER_TYPE_ENUM_UNSPECIFIED; default_value := kind_not_set |}.
Definition default_ArtifactSpec : ArtifactSpec :=
  {| is_artifact_list := false |}.

Definition pb_map_getitem {V} (d : V) (m : gmap string V) (key : string) : V :=
  default d (m !! key).

(** [TaskInputsSpec.InputParameterSpec]: the [kind] oneof, and inside
    [runtime_value] the [value] oneof of [ValueOrRuntimeParameter]. *)
Inductive ValueOrRuntimeParameter : Type :=
| constant (v : Value)
| runtime_parameter (name : string)
| value_not_set.

Inductive InputParameterSpec : Type :=
| task_output_parameter (producer_task output_parameter_key : string)
| runtime_value (v : ValueOrRuntimeParameter)
| component_input_parameter (name : string)
| task_final_status
| input_parameter_not_set.

(** [TaskInputsSpec.InputArtifactSpec]. *)
Inductive InputArtifactSpec : Type :=
| task_output_artifact (producer_task output_artifact_key : string)
| component_input_artifact (name : string)
| input_artifact_not_set.

Record TaskInputsSpec : Type := {
  input_parameters : gmap string InputParameterSpec;
  input_artifacts : gmap string InputArtifactSpec;
}.

(** The [iterator] oneof of a task. *)
Inductive IteratorKind : Type :=
| artifact_iterator
| parameter_iterator.

(** [PipelineTaskSpec]: [trigger_condition] is [trigger_policy.condition],
    [iterator] is [WhichOneof('iterator')]. *)
Record PipelineTaskSpec : Type := {
  component_ref_name : string;
  inputs : TaskInputsSpec;
  trigger_condition : string;
  iterator : option IteratorKind;
}.

(** [DagOutputsSpec.DagOutputParameterSpec]: the [kind] oneof. *)
Inductive DagOutputParameterSpec : Type :=
| value_from_parameter (producer_subtask output_parameter_key : string)
| value_from_oneof
| output_parameter_not_set.

(** An [ArtifactSelectorSpec] of [DagOutputsSpec.DagOutputArtifactSpec]. *)
Record ArtifactSelectorSpec : Type := {
  producer_subtask : string;
  output_artifact_key : string;
}.

Record DagOutputsSpec : Type := {
  dag_output_parameters : gmap string DagOutputParameterSpec;
  dag_output_artifacts : gmap string (list ArtifactSelectorSpec);
}.

(** [DagSpec]: the tasks in declaration order, under unique names. *)
Record DagSpec : Type := {
  tasks : list (string * PipelineTaskSpec);
  dag_outputs : DagOutputsSpec;
}.

(** The [implementation] oneof of a [ComponentSpec]. *)
Inductive Implementation : Type :=
| dag (d : DagSpec)
| executor_label (label : string)
| implementation_not_set.

Record ComponentSpec : Type := {
  input_definitions : ComponentIOSpec;
  output_definitions : ComponentIOSpec;
  implementation : Implementation;
}.

(** The [spec] oneof of a [PipelineDeploymentConfig.ExecutorSpec]. *)
Inductive ExecutorSpec : Type :=
| container (image : string) (command : list string)
| importer (artifact_uri : string)
| resolver
| custom_job
| spec_not_set.

Definition default_TaskInputsSpec : TaskInputsSpec :=
  {| input_parameters := ∅; input_artifacts := ∅ |}.
Definition default_PipelineTaskSpec : PipelineTaskSpec :=
  {| component_ref_name := ""; inputs := default_TaskInputsSpec;
     trigger_condition := ""; iterator := None |}.
Definition default_DagSpec : DagSpec :=
  {| tasks := [];
     dag_outputs := {| dag_output_parameters := ∅; dag_output_artifacts := ∅ |} |}.

(** [for key, value in m.items(): body], the body updating a state and
    possibly raising.  The items come in the order of [map_to_list]; the
    protobuf maps and dictionaries iterated here have unique keys, and no
    statement below depends on the order. *)
Definition for_items {A S} (body : string → A → S → result S)
    (m : gmap string A) (s : S) : result S :=
  foldl (λ acc kv, result_bind (body kv.1 kv.2) acc) (Ok s) (map_to_list m).

(** The loop body [d[k] = f(k, a)]. *)
Definition insert_item {A B} (f : string → A → result B) (k : string) (a : A)
    (d : gmap string B) : result (gmap string B) :=
  match f k a with
  | Ok v => Ok (<[k := v]> d)
  | Raise e => Raise e
  end.

(** A comprehension [{k: f(k, v) for k, v in m.items()}] over a map. *)
Definition gmap_comprehension {A B} (f : string → A → result B)
    (m : gmap string A) : result (gmap string B) :=
  for_items (insert_item f) m ∅.

(** A loop over the items of a map visits every item once; an invariant
    over the items visited so far holds of the final state. *)
Lemma for_items_inv {A S} (body : string → A → S → result S)
    (Inv : list (string * A) → S → Prop) (m : gmap string A) (s s' : S) :
  Inv [] s →
  (∀ visited k a st st',
     k ∉ visited.*1 → m !! k = Some a →
     (∀ k' a', (k', a') ∈ visited → m !! k' = Some a') →
     Inv visited st → body k a st = Ok st' → Inv (visited ++ [(k, a)]) st') →
  for_items body m s = Ok s' →
  Inv (map_to_list m) s'.
Proof.
  intros Hinit Hstep. unfold for_items.
  assert (Hnodup : NoDup (map_to_list m).*1) by apply NoDup_fst_map_to_list.
  assert (Hin : ∀ k a, (k, a) ∈ map_to_list m → m !! k = Some a)
    by (intros k a; apply elem_of_map_to_list).
  revert s' Hnodup Hin.
  induction (map_to_list m) as [ | [k a] visited IH ] using rev_ind;
    intros s' Hnodup Hin; simpl.
  - by intros [= <-].
  - rewrite foldl_app. simpl.
    destruct (foldl _ _ visited) as [st | e] eqn:Hfold; simpl; [ | done ].
    intros Hbody. rewrite fmap_app in Hnodup.
    apply NoDup_app in Hnodup as (Hnd & Hfresh & _).
    eapply Hstep; eauto.
    + intros Hk. eapply Hfresh; [ exact Hk | ]. simpl. apply list_elem_of_here.
    + apply Hin. apply elem_of_app. right. apply list_elem_of_here.
    + intros k' a' Hk'. apply Hin. apply elem_of_app. by left.
    + eapply IH; eauto. intros k' a' Hk'. apply Hin.
      apply elem_of_app. by left.
Qed.

(** The loop returns when its body returns on every item from every
    state. *)
Lemma for_items_total {A S} (body : string → A → S → result S)
    (m : gmap string A) (s : S) :
  (∀ k a st, m !! k = Some a → is_Ok (body k a st)) →
  is_Ok (for_items body m s).
Proof.
  intros Hbody. unfold for_items.
  assert (Hin : ∀ k a, (k, a) ∈ map_to_list m → m !! k = Some a)
    by (intros k a; apply elem_of_map_to_list).
  revert Hin.
  induction (map_to_list m) as [ | [k a] visited IH ] using rev_ind; intros Hin.
  - by exists s.
  - rewrite foldl_app. simpl.
    destruct IH as [st ->].
    + intros k' a' Hk'. apply Hin. apply elem_of_app. by left.
    + simpl. apply Hbody. apply Hin. apply elem_of_app. right.
      apply list_elem_of_here.
Qed.

Lemma for_items_insert_inv {A B} (f : string → A → result B)
    (m : gmap string A) (d0 d : gmap string B) :
  for_items (insert_item f) m d0 = Ok d →
  ∀ k, match m !! k with
       | Some a => ∃ v, f k a = Ok v ∧ d !! k = Some v
       | None => d !! k = d0 !! k
       end.
Proof.
  intros Hloop.
  pose (Inv := λ (visited : list (string * A)) (st : gmap string B),
          (∀ k a, (k, a) ∈ visited → ∃ v, f k a = Ok v ∧ st !! k = Some v)
          ∧ (∀ k, k ∉ visited.*1 → st !! k = d0 !! k)).
  assert (HInv : Inv (map_to_list m) d).
  { eapply for_items_inv; [ | | exact Hloop ].
    - split; [ | done ]. intros k a Hk. by apply elem_of_nil in Hk.
    - intros visited k a st st' Hfresh _ _ [Hseen Hrest] Hbody.
      unfold insert_item in Hbody.
      destruct (f k a) as [v | e] eqn:Hf; [ | done ]. injection Hbody as <-.
      split.
      + intros k' a' [Hold | Hnew%list_elem_of_singleton]%elem_of_app.
        * destruct (Hseen k' a' Hold) as (v' & Hv' & Hst). exists v'.
          split; [ done | ]. rewrite lookup_insert_ne; [ done | ].
          intros ->. apply Hfresh. apply list_elem_of_fmap. by exists (k', a').
        * injection Hnew as -> ->. exists v. by rewrite lookup_insert_eq.
      + intros k' Hk'. rewrite fmap_app in Hk'. rewrite lookup_insert_ne.
        * apply Hrest. intros ?. apply Hk'. apply elem_of_app. by left.
        * intros ->. apply Hk'. apply elem_of_app. right. apply list_elem_of_here. }
  destruct HInv as [Hseen Hrest]. intros k.
  destruct (m !! k) as [a | ] eqn:Hk.
  - apply Hseen. by apply elem_of_map_to_list.
  - apply Hrest. intros ((k' & a) & -> & Hin)%list_elem_of_fmap.
    apply elem_of_map_to_list in Hin. simpl in Hk. congruence.
Qed.

Lemma gmap_comprehension_inv {A B} (f : string → A → result B)
    (m : gmap string A) (d : gmap string B) :
  gmap_comprehension f m = Ok d →
  ∀ k, match m !! k with
       | Some a => ∃ v, f k a = Ok v ∧ d !! k = Some v
       | None => d !! k = None
       end.
Proof.
  intros Hcomp k. pose proof (for_items_insert_inv _ _ _ _ Hcomp k) as Hk.
  destruct (m !! k); [ done | ]. by rewrite lookup_empty in Hk.
Qed.

Lemma gmap_comprehension_total {A B} (f : string → A → result B)
    (m : gmap string A) :
  (∀ k a, m !! k = Some a → is_Ok (f k a)) → is_Ok (gmap_comprehension f m).
Proof.
  intros Hf. apply for_items_total. intros k a d Hk.
  unfold insert_item. destruct (Hf k a Hk) as [v ->]. by eexists.
Qed.

(** An exception of the loop is an exception of its body on some item. *)
Lemma for_items_Raise {A S} (body : string → A → S → result S)
    (m : gmap string A) (s : S) (e : PyError) :
  for_items body m s = Raise e →
  ∃ k a st, m !! k = Some a ∧ body k a st = Raise e.
Proof.
  unfold for_items.
  assert (Hin : ∀ k a, (k, a) ∈ map_to_list m → m !! k = Some a)
    by (intros k a; apply elem_of_map_to_list).
  revert Hin.
  induction (map_to_list m) as [ | [k a] visited IH ] using rev_ind; intros Hin.
  - done.
  - rewrite foldl_app. simpl.
    destruct (foldl _ _ visited) as [st | e'] eqn:Hfold; simpl.
    + intros Hbody. exists k, a, st. split; [ | done ].
      apply Hin. apply elem_of_app. right. apply list_elem_of_here.
    + intros [= ->]. apply IH; [ | done ].
      intros k' a' Hk'. apply Hin. apply elem_of_app. by left.
Qed.

(** The loop raises when its body raises on some item from every state. *)
Lemma for_items_fails {A S} (body : string → A → S → result S)
    (m : gmap string A) (s : S) (k : string) (a : A) :
  m !! k = Some a →
  (∀ st, ∃ e, body k a st = Raise e) →
  ∃ e, for_items body m s = Raise e.
Proof.
  intros Hk%elem_of_map_to_list Hbody. unfold for_items.
  induction (map_to_list m) as [ | [k' a'] visited IH ] using rev_ind.
  - by apply elem_of_nil in Hk.
  - rewrite foldl_app. simpl.
    destruct (foldl _ _ visited) as [st | e'] eqn:Hfold; simpl; [ | by eexists ].
    apply elem_of_app in Hk as [Hk | Hk%list_elem_of_singleton].
    + by destruct (IH Hk).
    + injection Hk as <- <-. apply Hbody.
Qed.

(** A body that changes nothing on the items of the map makes the loop
    return its initial state. *)
Lemma for_items_id {A S} (body : string → A → S → result S)
    (m : gmap string A) (s : S) :
  (∀ k a st, m !! k = Some a → body k a st = Ok st) →
  for_items body m s = Ok s.
Proof.
  intros Hbody. unfold for_items.
  assert (Hin : ∀ k a, (k, a) ∈ map_to_list m → m !! k = Some a)
    by (intros k a; apply elem_of_map_to_list).
  revert Hin.
  induction (map_to_list m) as [ | [k a] visited IH ] using rev_ind; intros Hin.
  - done.
  - rewrite foldl_app, IH; simpl.
    + apply Hbody. apply Hin. apply elem_of_app. right. apply list_elem_of_here.
    + intros k' a' Hk'. apply Hin. apply elem_of_app. by left.
Qed.

(** ** Executor-output normalisation *)

Module ExecutorOutputUtils.
Import Codec.

(** [ExecutorOutput]: [parameter_values] and [artifacts], an [ArtifactList]
    being the list of its [artifacts]. *)
Record ExecutorOutput : Type := {
  parameter_values : gmap string Value;
  output_artifacts : gmap string (list RuntimeArtifact);
}.

(** [ExecutorInput.outputs]: per output parameter its [output_file], per
    output artifact the declared [ArtifactList]. *)
Record ExecutorInput : Type := {
  outputs_parameters : gmap string string;
  outputs_artifacts : gmap string (list RuntimeArtifact);
}.

(** The local file system as the normaliser sees it. *)
Inductive FsNode : Type :=
| RegularFile (content : string)
| Directory.

(** [int(x)] on a float truncates toward zero. *)
Definition float_trunc (x : float) : result Z :=
  match x with
  | S754_zero _ => Ok 0%Z
  | S754_finite s m e =>
      let z := Z.shiftl (Z.pos m) e in Ok (if s then (- z)%Z else z)
  | S754_infinity _ => Raise OverflowError
  | S754_nan => Raise (ValueError "cannot convert float NaN to integer")
  end.

Section normalizer.

(** The builtins and the SDK functions the module calls: [json.loads],
    [int] on a [str], and [executor.create_artifact_instance] after
    [json_format.MessageToDict]. *)
Variable json_loads : string → result PyValue.
Variable int_of_str : string → result Z.
Variable create_artifact_instance : RuntimeArtifact → DslArtifact.

Variable fs : gmap string FsNode.

(** [os.path.exists] and [open(path).read()]. *)
Definition os_path_exists (path : string) : bool :=
  bool_decide (is_Some (fs !! path)).

Definition read_file (path : string) : result string :=
  match fs !! path with
  | Some (RegularFile content) => Ok content
  | Some Directory => Raise IsADirectoryError
  | None => Raise FileNotFoundError
  end.

(** The builtin [int]. *)
Definition py_int (v : PyValue) : result PyValue :=
  match v with
  | PyInt z => Ok (PyInt z)
  | PyBool b => Ok (PyInt (if b then 1 else 0))
  | PyFloat x => match float_trunc x with
                 | Ok z => Ok (PyInt z)
                 | Raise e => Raise e
                 end
  | PyStr s => match int_of_str s with
               | Ok z => Ok (PyInt z)
               | Raise e => Raise e
               end
  | PyNone | PyDict _ | PyList _ | PyArtifact _ => Raise TypeError
  end.

Definition cast_floats_as_ints_to_floats (outputs_dict : gmap string PyValue)
    (outputs_typed_int : list string) : result (gmap string PyValue) :=
  foldl (λ acc float_output_key,
           match acc with
           | Ok d =>
               match dict_getitem d float_output_key with
               | Ok v => match py_int v with
                         | Ok n => Ok (<[float_output_key := n]> d)
                         | Raise e => Raise e
                         end
               | Raise e => Raise e
               end
           | Raise e => Raise e
           end)
        (Ok outputs_dict) outputs_typed_int.

Definition special_dsl_outputpath_read (output_file : string) (is_string : bool)
    : result PyValue :=
  match read_file output_file with
  | Ok parameter_value =>
      if is_string then Ok (PyStr parameter_value) else json_loads parameter_value
  | Raise e => Raise e
  end.

(** The declared type of an output parameter, and the [is_string] test of
    the merge. *)
Definition declared_type (component_spec : ComponentSpec) (parameter_key : string)
    : ParameterTypeEnum :=
  parameter_type (pb_map_getitem default_ParameterSpec
                    (parameters (output_definitions component_spec)) parameter_key).

Definition merge_body (component_spec : ComponentSpec)
    (parameter_key : string) (output_file : string)
    (executor_output : ExecutorOutput) : result ExecutorOutput :=
  if os_path_exists output_file then
    let is_string := bool_decide (declared_type component_spec parameter_key = STRING) in
    match special_dsl_outputpath_read output_file is_string with
    | Ok parameter_value =>
        match to_protobuf_value parameter_value with
        | Ok wire =>
            Ok {| parameter_values :=
                    <[parameter_key := wire]> (parameter_values executor_output);
                  output_artifacts := output_artifacts executor_output |}
        | Raise e => Raise e
        end
    | Raise e => Raise e
    end
  else Ok executor_output.

Definition merge_dsl_output_file_parameters_to_executor_output
    (executor_input : ExecutorInput) (executor_output : ExecutorOutput)
    (component_spec : ComponentSpec) : result ExecutorOutput :=
  for_items (merge_body component_spec)
    (outputs_parameters executor_input) executor_output.

Definition runtime_artifact_to_dsl_artifact (runtime_artifact : RuntimeArtifact)
    : DslArtifact :=
  create_artifact_instance runtime_artifact.

Definition artifact_list_to_dsl_artifact (artifact_list : list RuntimeArtifact)
    (is_artifact_list : bool) : result PyValue :=
  let dsl_artifacts := runtime_artifact_to_dsl_artifact <$> artifact_list in
  if is_artifact_list then Ok (PyList (PyArtifact <$> dsl_artifacts))
  else match dsl_artifacts with
       | a :: _ => Ok (PyArtifact a)
       | [] => Raise IndexError
       end.

(** [artifact.type.CopyFrom(...)] for every artifact of one output; the
    declared list is indexed only when there is an artifact to retype. *)
Definition add_type_body (executor_input : ExecutorInput) (key : string)
    (artifact_list : list RuntimeArtifact)
    (acc : gmap string (list RuntimeArtifact))
    : result (gmap string (list RuntimeArtifact)) :=
  match artifact_list with
  | [] => Ok acc
  | _ =>
      match pb_map_getitem [] (outputs_artifacts executor_input) key with
      | declared :: _ =>
          Ok (<[key := (λ artifact,
                          {| artifact_name := artifact_name artifact;
                             artifact_type := artifact_type declared;
                             artifact_uri := artifact_uri artifact;
                             artifact_metadata := artifact_metadata artifact |})
                       <$> artifact_list]> acc)
      | [] => Raise IndexError
      end
  end.

Definition add_type_to_executor_output (executor_input : ExecutorInput)
    (executor_output : ExecutorOutput) : result ExecutorOutput :=
  match for_items (add_type_body executor_input)
          (output_artifacts executor_output) (output_artifacts executor_output) with
  | Ok arts => Ok {| parameter_values := parameter_values executor_output;
                     output_artifacts := arts |}
  | Raise e => Raise e
  end.

Definition get_outputs_from_executor_output (executor_output : ExecutorOutput)
    (executor_input : ExecutorInput) (component_spec : ComponentSpec)
    : result (gmap string PyValue) :=
  executor_output ← add_type_to_executor_output executor_input executor_output;
  executor_output ← merge_dsl_output_file_parameters_to_executor_output
                      executor_input executor_output component_spec;
  output_parameters ←
    gmap_comprehension (λ param_name value, pb2_value_to_python value)
      (parameter_values executor_output);
  let output_artifact_definitions := artifacts (output_definitions component_spec) in
  output_artifacts ←
    gmap_comprehension
      (λ artifact_name artifact_list,
         artifact_list_to_dsl_artifact artifact_list
           (is_artifact_list
              (pb_map_getitem default_ArtifactSpec
                 output_artifact_definitions artifact_name)))
      (output_artifacts executor_output);
  let outputs_dict : gmap string PyValue := output_artifacts ∪ output_parameters in
  let outputs_typed_int :=
    (filter (λ kv, parameter_type kv.2 = NUMBER_INTEGER)
       (map_to_list (parameters (output_definitions component_spec)))).*1 in
  cast_floats_as_ints_to_floats outputs_dict outputs_typed_int.

(** *** The merge of output files *)

(** What the merge leaves at one key of the parameter map. *)
Definition merged_at (component_spec : ComponentSpec)
    (executor_output : ExecutorOutput) (parameter_key output_file : string)
    (merged : ExecutorOutput) : Prop :=
  if os_path_exists output_file then
    ∃ v wire,
      special_dsl_outputpath_read output_file
        (bool_decide (declared_type component_spec parameter_key = STRING)) = Ok v
      ∧ to_protobuf_value v = Ok wire
      ∧ parameter_values merged !! parameter_key = Some wire
  else parameter_values merged !! parameter_key
       = parameter_values executor_output !! parameter_key.

Lemma merge_inv executor_input executor_output component_spec merged :
  merge_dsl_output_file_parameters_to_executor_output
    executor_input executor_output component_spec = Ok merged →
  output_artifacts merged = output_artifacts executor_output
  ∧ (∀ k file, outputs_parameters executor_input !! k = Some file →
               merged_at component_spec executor_output k file merged)
  ∧ (∀ k, outputs_parameters executor_input !! k = None →
          parameter_values merged !! k = parameter_values executor_output !! k).
Proof.
  intros Hmerge.
  pose (Inv := λ (visited : list (string * string)) (st : ExecutorOutput),
          output_artifacts st = output_artifacts executor_output
          ∧ (∀ k file, (k, file) ∈ visited →
                       merged_at component_spec executor_output k file st)
          ∧ (∀ k, k ∉ visited.*1 →
                  parameter_values st !! k = parameter_values executor_output !! k)).
  assert (HInv : Inv (map_to_list (outputs_parameters executor_input)) merged).
  { eapply for_items_inv; [ | | exact Hmerge ].
    - split; [ done | split; [ | done ] ].
      intros k file Hk. by apply elem_of_nil in Hk.
    - intros visited k file st st' Hfresh _ _ (Harts & Hseen & Hrest) Hbody.
      unfold merge_body in Hbody.
      destruct (os_path_exists file) eqn:Hex.
      + destruct (special_dsl_outputpath_read _ _) as [v | e] eqn:Hread; [ | done ].
        destruct (to_protobuf_value v) as [wire | e] eqn:Henc; [ | done ].
        injection Hbody as <-. split; [ | split ]; simpl.
        * exact Harts.
        * intros k' file' [Hold | Hnew%list_elem_of_singleton]%elem_of_app.
          -- assert (k ≠ k').
             { intros ->. apply Hfresh. apply list_elem_of_fmap.
               by exists (k', file'). }
             specialize (Hseen k' file' Hold). unfold merged_at in *.
             destruct (os_path_exists file'); simpl.
             ++ destruct Hseen as (v' & w' & ? & ? & ?). exists v', w'.
                by rewrite lookup_insert_ne.
             ++ by rewrite lookup_insert_ne.
          -- injection Hnew as -> ->. unfold merged_at. rewrite Hex.
             exists v, wire. simpl. by rewrite lookup_insert_eq.
        * intros k' Hk'. rewrite fmap_app in Hk'.
          rewrite lookup_insert_ne.
          -- apply Hrest. intros ?. apply Hk'. apply elem_of_app. by left.
          -- intros ->. apply Hk'. apply elem_of_app. right. simpl.
             apply list_elem_of_here.
      + injection Hbody as <-. split; [ | split ].
        * exact Harts.
        * intros k' file' [Hold | Hnew%list_elem_of_singleton]%elem_of_app.
          -- by apply Hseen.
          -- injection Hnew as -> ->. unfold merged_at. rewrite Hex.
             apply Hrest, Hfresh.
        * intros k' Hk'. apply Hrest. intros ?. apply Hk'.
          rewrite fmap_app. apply elem_of_app. by left. }
  destruct HInv as (Harts & Hseen & Hrest). split; [ | split ].
  - exact Harts.
  - intros k file Hk. apply Hseen. by apply elem_of_map_to_list.
  - intros k Hk. apply Hrest. intros ((k' & file) & -> & Hin)%list_elem_of_fmap.
    apply elem_of_map_to_list in Hin. simpl in Hk. congruence.
Qed.

Lemma merge_total executor_input executor_output component_spec :
  (∀ k file, outputs_parameters executor_input !! k = Some file →
             os_path_exists file = true →
             ∃ v, special_dsl_outputpath_read file
                    (bool_decide (declared_type component_spec k = STRING)) = Ok v
                  ∧ is_Ok (to_protobuf_value v)) →
  is_Ok (merge_dsl_output_file_parameters_to_executor_output
           executor_input executor_output component_spec).
Proof.
  intros Hfiles. apply for_items_total. intros k file st Hk.
  unfold merge_body. destruct (os_path_exists file) eqn:Hex; [ | by eexists ].
  destruct (Hfiles k file Hk Hex) as (v & -> & wire & ->). by eexists.
Qed.

(** The file content replaces whatever the parameter map held. *)
Lemma merged_at_exists component_spec executor_output k file merged :
  os_path_exists file = true →
  merged_at component_spec executor_output k file merged →
  ∃ text v wire,
    read_file file = Ok text
    ∧ (if bool_decide (declared_type component_spec k = STRING)
       then v = PyStr text else json_loads text = Ok v)
    ∧ to_protobuf_value v = Ok wire
    ∧ parameter_values merged !! k = Some wire.
Proof.
  intros Hex Hat. unfold merged_at in Hat. rewrite Hex in Hat.
  destruct Hat as (v & wire & Hread & Henc & Hlook).
  unfold special_dsl_outputpath_read in Hread.
  destruct (read_file file) as [text | e]; [ | done ].
  exists text, v, wire. repeat split; try done.
  destruct (bool_decide _); congruence.
Qed.

(** *** The integer cast *)

Lemma py_int_Ok v n : py_int v = Ok n → ∃ z, n = PyInt z.
Proof.
  destruct v as [ | x | z | s | b | items | elems | a ]; simpl; try done.
  - destruct (float_trunc x); intros [= <-]; eauto.
  - intros [= <-]; eauto.
  - destruct (int_of_str s); intros [= <-]; eauto.
  - intros [= <-]; eauto.
Qed.

Lemma py_int_idem v n : py_int v = Ok n → py_int n = Ok n.
Proof. intros Hn. destruct (py_int_Ok _ _ Hn) as [z ->]. done. Qed.

Lemma cast_inv outputs_dict outputs_typed_int d' :
  cast_floats_as_ints_to_floats outputs_dict outputs_typed_int = Ok d' →
  (∀ k, k ∈ outputs_typed_int →
        ∃ v n, outputs_dict !! k = Some v ∧ py_int v = Ok n ∧ d' !! k = Some n)
  ∧ (∀ k, k ∉ outputs_typed_int → d' !! k = outputs_dict !! k).
Proof.
  unfold cast_floats_as_ints_to_floats. revert d'.
  induction outputs_typed_int as [ | key keys IH ] using rev_ind; intros d'.
  - simpl. intros [= <-]. split; [ | done ]. intros k Hk. by apply elem_of_nil in Hk.
  - rewrite foldl_app. simpl.
    destruct (foldl _ _ keys) as [d | e] eqn:Hfold; [ | done ].
    destruct (IH d eq_refl) as [Hseen Hrest].
    unfold dict_getitem. destruct (d !! key) as [v | ] eqn:Hkey; [ | done ].
    destruct (py_int v) as [n | e] eqn:Hint; [ | done ]. intros [= <-].
    split.
    + intros k [Hold | ->%list_elem_of_singleton]%elem_of_app.
      * destruct (Hseen k Hold) as (v' & n' & Hv' & Hn' & Hd).
        exists v', n'. split; [ done | split; [ done | ] ].
        destruct (decide (key = k)) as [-> | Hne].
        -- rewrite lookup_insert_eq. rewrite Hd in Hkey. injection Hkey as <-.
           apply py_int_idem in Hn'. congruence.
        -- by rewrite lookup_insert_ne.
      * destruct (decide (key ∈ keys)) as [Hin | Hnotin].
        -- destruct (Hseen key Hin) as (v' & n' & Hv' & Hn' & Hd).
           exists v', n'. split; [ done | split; [ done | ] ].
           rewrite lookup_insert_eq. rewrite Hd in Hkey. injection Hkey as <-.
           apply py_int_idem in Hn'. congruence.
        -- exists v, n. rewrite <- (Hrest key Hnotin).
           by rewrite lookup_insert_eq.
    + intros k Hk. rewrite lookup_insert_ne.
      * apply Hrest. intros ?. apply Hk. apply elem_of_app. by left.
      * intros ->. apply Hk. apply elem_of_app. right. apply list_elem_of_here.
Qed.

Lemma add_type_inv executor_input executor_output typed :
  add_type_to_executor_output executor_input executor_output = Ok typed →
  parameter_values typed = parameter_values executor_output
  ∧ (∀ k, output_artifacts executor_output !! k = None →
          output_artifacts typed !! k = None).
Proof.
  unfold add_type_to_executor_output.
  destruct (for_items _ _ _) as [arts | e] eqn:Hloop; [ | done ].
  intros [= <-]. simpl. split; [ done | ].
  pose (Inv := λ (_ : list (string * list RuntimeArtifact))
                 (st : gmap string (list RuntimeArtifact)),
          ∀ k, output_artifacts executor_output !! k = None → st !! k = None).
  change (Inv (map_to_list (output_artifacts executor_output)) arts).
  eapply for_items_inv; [ | | exact Hloop ].
  - by intros k Hk.
  - intros visited k a st st' _ Hk _ HInv Hbody k' Hk'.
    unfold add_type_body in Hbody.
    destruct a as [ | a0 a ]; [ injection Hbody as <-; by apply HInv | ].
    destruct (pb_map_getitem _ _ _) as [ | declared ? ]; [ done | ].
    injection Hbody as <-. rewrite lookup_insert_ne; [ by apply HInv | ].
    intros ->. congruence.
Qed.

(** *** Claims about the normaliser *)

(** C2.  Every output parameter declared NUMBER_INTEGER is a native [int]
    in the outputs that [get_outputs_from_executor_output] returns; when the
    message carries it inline as the wire number [x] (no output file, no
    artifact of that name), the integer is [int(x)], the truncation of [x]:
    the wire number 3.0 comes out as the integer 3. *)
Theorem integer_outputs_are_native_ints
    executor_output executor_input component_spec outs k spec
    (Hrun : get_outputs_from_executor_output
              executor_output executor_input component_spec = Ok outs)
    (Hdecl : parameters (output_definitions component_spec) !! k = Some spec)
    (Hint : parameter_type spec = NUMBER_INTEGER) :
  ∃ z, outs !! k = Some (PyInt z)
       ∧ ∀ x, parameter_values executor_output !! k = Some (number_value x) →
              (∀ file, outputs_parameters executor_input !! k = Some file →
                       os_path_exists file = false) →
              output_artifacts executor_output !! k = None →
              float_trunc x = Ok z.
Proof.
  unfold get_outputs_from_executor_output in Hrun.
  unfold mbind, result_mbind, result_bind in Hrun.
  destruct (add_type_to_executor_output _ _) as [typed | e] eqn:Htyped; [ | done ].
  destruct (merge_dsl_output_file_parameters_to_executor_output _ _ _)
    as [merged | e] eqn:Hmerged; [ | done ].
  destruct (gmap_comprehension _ (parameter_values merged))
    as [output_parameters | e] eqn:Hparams; [ | done ].
  destruct (gmap_comprehension _ (output_artifacts merged))
    as [out_artifacts | e] eqn:Harts; [ | done ].
  apply cast_inv in Hrun as [Hcast _].
  destruct (Hcast k) as (v & n & Hv & Hn & Hout).
  { apply list_elem_of_fmap. exists (k, spec). split; [ done | ].
    apply list_elem_of_filter. split; [ done | ]. by apply elem_of_map_to_list. }
  destruct (py_int_Ok _ _ Hn) as [z ->]. exists z. split; [ done | ].
  intros x Hinline Hnofile Hnoart.
  apply add_type_inv in Htyped as [Hpv Hnone].
  apply merge_inv in Hmerged as (Hsame & Hseen & Hrest).
  assert (Hmk : parameter_values merged !! k = Some (number_value x)).
  { rewrite <- Hinline, <- Hpv.
    destruct (outputs_parameters executor_input !! k) as [file | ] eqn:Hfile.
    - specialize (Hseen k file Hfile). unfold merged_at in Hseen.
      by rewrite (Hnofile file eq_refl) in Hseen.
    - by apply Hrest. }
  pose proof (gmap_comprehension_inv _ _ _ Hparams k) as Hpk.
  rewrite Hmk in Hpk. destruct Hpk as (v' & [= <-] & Hpk).
  pose proof (gmap_comprehension_inv _ _ _ Harts k) as Hak.
  rewrite Hsame, (Hnone k Hnoart) in Hak.
  rewrite lookup_union_r in Hv by done. rewrite Hpk in Hv. injection Hv as <-.
  simpl in Hn. destruct (float_trunc x); congruence.
Qed.

(** With [is_artifact_list] false the conversion raises on the empty list
    and returns the first artifact of any other. *)
Lemma single_artifact_is_first (artifact_list : list RuntimeArtifact) :
  (artifact_list = []
   ∧ artifact_list_to_dsl_artifact artifact_list false = Raise IndexError)
  ∨ (∃ first rest,
       artifact_list = first :: rest
       ∧ artifact_list_to_dsl_artifact artifact_list false
         = Ok (PyArtifact (runtime_artifact_to_dsl_artifact first))).
Proof.
  destruct artifact_list as [ | first rest ]; [ by left | right ].
  by exists first, rest.
Qed.

(** C7.  When every existing output file can be read and decoded, the merge
    returns, and for every output parameter whose output file exists the
    parameter map then holds the wire form of the file: of the raw text
    itself when the declared type is STRING, of [json.loads] of the text
    otherwise. *)
Theorem merge_decodes_output_files executor_input executor_output component_spec
    (Hfiles : ∀ k file,
        outputs_parameters executor_input !! k = Some file →
        os_path_exists file = true →
        ∃ v, special_dsl_outputpath_read file
               (bool_decide (declared_type component_spec k = STRING)) = Ok v
             ∧ is_Ok (to_protobuf_value v)) :
  ∃ merged,
    merge_dsl_output_file_parameters_to_executor_output
      executor_input executor_output component_spec = Ok merged
    ∧ ∀ k file,
        outputs_parameters executor_input !! k = Some file →
        os_path_exists file = true →
        ∃ text v wire,
          read_file file = Ok text
          ∧ (if bool_decide (declared_type component_spec k = STRING)
             then v = PyStr text else json_loads text = Ok v)
          ∧ to_protobuf_value v = Ok wire
          ∧ parameter_values merged !! k = Some wire.
Proof.
  destruct (merge_total _ executor_output _ Hfiles) as [merged Hmerged].
  exists merged. split; [ done | ]. intros k file Hk Hex.
  apply merge_inv in Hmerged as (_ & Hseen & _).
  eapply merged_at_exists; eauto.
Qed.

(** C9.  In the message the merge returns, a parameter whose output file
    exists holds the value read from the file, whatever inline value the
    message had for it; a parameter without an existing output file keeps
    what the message had. *)
Theorem merge_file_replaces_inline
    executor_input executor_output component_spec merged
    (Hmerge : merge_dsl_output_file_parameters_to_executor_output
                executor_input executor_output component_spec = Ok merged) :
  (∀ k file inline,
     outputs_parameters executor_input !! k = Some file →
     os_path_exists file = true →
     parameter_values executor_output !! k = Some inline →
     ∃ v wire,
       special_dsl_outputpath_read file
         (bool_decide (declared_type component_spec k = STRING)) = Ok v
       ∧ to_protobuf_value v = Ok wire
       ∧ parameter_values merged !! k = Some wire)
  ∧ (∀ k,
       (∀ file, outputs_parameters executor_input !! k = Some file →
                os_path_exists file = false) →
       parameter_values merged !! k = parameter_values executor_output !! k).
Proof.
  apply merge_inv in Hmerge as (_ & Hseen & Hrest). split.
  - intros k file inline Hk Hex _. specialize (Hseen k file Hk).
    unfold merged_at in Hseen. by rewrite Hex in Hseen.
  - intros k Hnofile.
    destruct (outputs_parameters executor_input !! k) as [file | ] eqn:Hk.
    + specialize (Hseen k file Hk). unfold merged_at in Hseen.
      by rewrite (Hnofile file eq_refl) in Hseen.
    + by apply Hrest.
Qed.

(** The cast returns when every listed output can be converted. *)
Lemma cast_total outputs_dict outputs_typed_int :
  (∀ k, k ∈ outputs_typed_int →
        ∃ v, outputs_dict !! k = Some v ∧ is_Ok (py_int v)) →
  is_Ok (cast_floats_as_ints_to_floats outputs_dict outputs_typed_int).
Proof.
  induction outputs_typed_int as [ | key keys IH ] using rev_ind; intros Hkeys.
  - by exists outputs_dict.
  - destruct IH as [d Hd].
    { intros k Hk. apply Hkeys. apply elem_of_app. by left. }
    unfold cast_floats_as_ints_to_floats in *. rewrite foldl_app, Hd. simpl.
    apply cast_inv in Hd as [Hseen Hrest].
    destruct (Hkeys key) as (v & Hv & n & Hn);
      [ apply elem_of_app; right; apply list_elem_of_here | ].
    unfold dict_getitem.
    destruct (decide (key ∈ keys)) as [Hin | Hnotin].
    + destruct (Hseen key Hin) as (v' & n' & Hv' & Hn' & ->).
      rewrite (py_int_idem _ _ Hn'). by eexists.
    + rewrite (Hrest key Hnotin), Hv, Hn. by eexists.
Qed.

(** X26.  The normaliser returns on a message whose artifacts can be
    retyped and whose output files decode, when every parameter is tagged,
    every single-artifact output has an artifact, and every NUMBER_INTEGER
    output is a parameter holding a finite number. *)
Lemma get_outputs_returns executor_output executor_input component_spec typed merged :
  add_type_to_executor_output executor_input executor_output = Ok typed →
  merge_dsl_output_file_parameters_to_executor_output
    executor_input typed component_spec = Ok merged →
  (∀ k wire, parameter_values merged !! k = Some wire → wire_tagged wire = true) →
  (∀ k artifact_list,
     output_artifacts merged !! k = Some artifact_list →
     is_artifact_list (pb_map_getitem default_ArtifactSpec
                         (artifacts (output_definitions component_spec)) k) = false →
     artifact_list ≠ []) →
  (∀ k spec,
     parameters (output_definitions component_spec) !! k = Some spec →
     parameter_type spec = NUMBER_INTEGER →
     output_artifacts merged !! k = None
     ∧ ∃ x, parameter_values merged !! k = Some (number_value x)
            ∧ is_Ok (float_trunc x)) →
  is_Ok (get_outputs_from_executor_output executor_output executor_input component_spec).
Proof.
  intros Htyped Hmerged Htagged Hsingle Hints.
  unfold get_outputs_from_executor_output, mbind, result_mbind, result_bind.
  rewrite Htyped, Hmerged.
  destruct (gmap_comprehension_total (λ _ value, pb2_value_to_python value)
              (parameter_values merged)) as [output_parameters Hparams].
  { intros k wire Hk. destruct (decode_then_encode wire (Htagged k wire Hk))
      as (v & -> & _). by eexists. }
  rewrite Hparams.
  destruct (gmap_comprehension_total
              (λ artifact_name artifact_list,
                 artifact_list_to_dsl_artifact artifact_list
                   (is_artifact_list
                      (pb_map_getitem default_ArtifactSpec
                         (artifacts (output_definitions component_spec)) artifact_name)))
              (output_artifacts merged)) as [out_artifacts Harts].
  { intros k artifact_list Hk. unfold artifact_list_to_dsl_artifact.
    destruct (is_artifact_list _) eqn:Hlist; [ by eexists | ].
    specialize (Hsingle k artifact_list Hk Hlist).
    destruct artifact_list; [ done | by eexists ]. }
  rewrite Harts. apply cast_total.
  intros k ((k' & spec) & -> & [Hint Hk]%list_elem_of_filter)%list_elem_of_fmap.
  apply elem_of_map_to_list in Hk. simpl in *.
  destruct (Hints k' spec Hk Hint) as (Hnoart & x & Hx & z & Hz).
  pose proof (gmap_comprehension_inv _ _ _ Hparams k') as Hpk.
  rewrite Hx in Hpk. destruct Hpk as (v & [= <-] & Hpk).
  pose proof (gmap_comprehension_inv _ _ _ Harts k') as Hak.
  rewrite Hnoart in Hak.
  exists (PyFloat x). rewrite lookup_union_r by done. split; [ done | ].
  exists (PyInt z). simpl. by rewrite Hz.
Qed.

Lemma py_int_finite s m e :
  py_int (PyFloat (S754_finite s m e))
  = Ok (PyInt (if s then - Z.shiftl (Z.pos m) e else Z.shiftl (Z.pos m) e)).
Proof. reflexivity. Qed.

(** *** More on the integer cast *)

Lemma cast_fixed outputs_dict outputs_typed_int :
  (∀ k, k ∈ outputs_typed_int → ∃ z, outputs_dict !! k = Some (PyInt z)) →
  cast_floats_as_ints_to_floats outputs_dict outputs_typed_int = Ok outputs_dict.
Proof.
  unfold cast_floats_as_ints_to_floats.
  induction outputs_typed_int as [ | key keys IH ] using rev_ind; intros Hints.
  - done.
  - rewrite foldl_app, IH; simpl.
    + destruct (Hints key) as [z Hz];
        [ apply elem_of_app; right; apply list_elem_of_here | ].
      unfold dict_getitem. rewrite Hz. simpl. by rewrite insert_id.
    + intros k Hk. apply Hints. apply elem_of_app. by left.
Qed.

(** X5.  The cast is idempotent: casting the dictionary it returned, for
    the same keys, returns that dictionary again. *)
Theorem cast_is_idempotent outputs_dict outputs_typed_int d'
    (Hcast : cast_floats_as_ints_to_floats outputs_dict outputs_typed_int = Ok d') :
  cast_floats_as_ints_to_floats d' outputs_typed_int = Ok d'.
Proof.
  apply cast_fixed. intros k Hk.
  apply cast_inv in Hcast as [Hseen _].
  destruct (Hseen k Hk) as (v & n & _ & Hn & Hd).
  destruct (py_int_Ok _ _ Hn) as [z ->]. by exists z.
Qed.

(** X6.  The cast changes the listed keys only: every other key keeps its
    value, and the dictionary has the same keys before and after. *)
Theorem cast_changes_listed_keys_only outputs_dict outputs_typed_int d'
    (Hcast : cast_floats_as_ints_to_floats outputs_dict outputs_typed_int = Ok d') :
  (∀ k, k ∉ outputs_typed_int → d' !! k = outputs_dict !! k)
  ∧ (∀ k, is_Some (d' !! k) ↔ is_Some (outputs_dict !! k)).
Proof.
  apply cast_inv in Hcast as [Hseen Hrest]. split; [ done | ].
  intros k. destruct (decide (k ∈ outputs_typed_int)) as [Hk | Hk].
  - destruct (Hseen k Hk) as (v & n & -> & _ & ->). split; by eexists.
  - by rewrite (Hrest k Hk).
Qed.

(** X7.  A listed key that the dictionary does not have makes the cast
    raise: nothing is returned, not even the keys that could be cast. *)
Theorem cast_missing_key_raises outputs_dict outputs_typed_int k
    (Hlisted : k ∈ outputs_typed_int) (Hmissing : outputs_dict !! k = None) :
  ∃ e, cast_floats_as_ints_to_floats outputs_dict outputs_typed_int = Raise e.
Proof.
  destruct (cast_floats_as_ints_to_floats _ _) as [d' | e] eqn:Hcast; [ | by eexists ].
  apply cast_inv in Hcast as [Hseen _].
  destruct (Hseen k Hlisted) as (v & n & Hv & _). congruence.
Qed.

(** *** More on the merge of output files *)

(** X8.  When none of the designated output files exists, the merge returns
    the message unchanged. *)
Theorem merge_without_files_is_identity executor_input executor_output component_spec
    (Hnofile : ∀ k file, outputs_parameters executor_input !! k = Some file →
                         os_path_exists file = false) :
  merge_dsl_output_file_parameters_to_executor_output
    executor_input executor_output component_spec = Ok executor_output.
Proof.
  apply for_items_id. intros k file st Hk. unfold merge_body.
  by rewrite (Hnofile k file Hk).
Qed.

(** X9.  One output file that exists but cannot be read or decoded (a
    directory, or text that is not JSON for an output that is not a string)
    makes the whole merge raise. *)
Theorem merge_unreadable_file_raises
    executor_input executor_output component_spec k file e0
    (Hfile : outputs_parameters executor_input !! k = Some file)
    (Hexists : os_path_exists file = true)
    (Hread : special_dsl_outputpath_read file
               (bool_decide (declared_type component_spec k = STRING)) = Raise e0) :
  ∃ e, merge_dsl_output_file_parameters_to_executor_output
         executor_input executor_output component_spec = Raise e.
Proof.
  eapply for_items_fails; [ exact Hfile | ].
  intros st. unfold merge_body. rewrite Hexists, Hread. by eexists.
Qed.

(** X10.  The merge leaves the artifacts of the message alone, and the keys
    of the parameter map it returns are the keys the message had together
    with the parameters whose output file exists. *)
Theorem merge_keeps_artifacts_and_adds_file_keys
    executor_input executor_output component_spec merged
    (Hmerge : merge_dsl_output_file_parameters_to_executor_output
                executor_input executor_output component_spec = Ok merged) :
  output_artifacts merged = output_artifacts executor_output
  ∧ ∀ k, is_Some (parameter_values merged !! k)
         ↔ is_Some (parameter_values executor_output !! k)
           ∨ ∃ file, outputs_parameters executor_input !! k = Some file
                     ∧ os_path_exists file = true.
Proof.
  apply merge_inv in Hmerge as (Harts & Hseen & Hrest). split; [ done | ].
  intros k. destruct (outputs_parameters executor_input !! k) as [file | ] eqn:Hk.
  - specialize (Hseen k file Hk). unfold merged_at in Hseen.
    destruct (os_path_exists file) eqn:Hex.
    + destruct Hseen as (v & wire & _ & _ & ->). split; [ | by eexists ].
      intros _. right. by exists file.
    + rewrite Hseen. split; [ by left | ].
      intros [ ? | (file' & [= <-] & ?) ]; [ done | congruence ].
  - rewrite (Hrest k Hk). split; [ by left | ].
    by intros [ ? | (file' & [= ] & ?) ].
Qed.

(** *** The artifact types *)

(** An artifact with the type of the declared one. *)
Definition retyped (declared artifact : RuntimeArtifact) : RuntimeArtifact :=
  {| artifact_name := artifact_name artifact;
     artifact_type := artifact_type declared;
     artifact_uri := artifact_uri artifact;
     artifact_metadata := artifact_metadata artifact |}.

Lemma add_type_lookup executor_input executor_output typed :
  add_type_to_executor_output executor_input executor_output = Ok typed →
  ∀ k, output_artifacts typed !! k
       = match output_artifacts executor_output !! k with
         | Some (a :: l) =>
             match pb_map_getitem [] (outputs_artifacts executor_input) k with
             | declared :: _ => Some (retyped declared <$> a :: l)
             | [] => None
             end
         | found => found
         end.
Proof.
  unfold add_type_to_executor_output.
  destruct (for_items _ _ _) as [arts | e] eqn:Hloop; [ | done ].
  intros [= <-]. simpl.
  pose (Inv := λ (visited : list (string * list RuntimeArtifact))
                 (st : gmap string (list RuntimeArtifact)),
          (∀ k l, (k, l) ∈ visited →
                  st !! k = match l with
                            | a :: l' =>
                                match pb_map_getitem []
                                        (outputs_artifacts executor_input) k with
                                | declared :: _ => Some (retyped declared <$> a :: l')
                                | [] => None
                                end
                            | [] => Some []
                            end)
          ∧ (∀ k, k ∉ visited.*1 → st !! k = output_artifacts executor_output !! k)).
  assert (HInv : Inv (map_to_list (output_artifacts executor_output)) arts).
  { eapply for_items_inv; [ | | exact Hloop ].
    - split; [ | done ]. intros k l Hk. by apply elem_of_nil in Hk.
    - intros visited k l st st' Hfresh Hk _ [Hseen Hrest] Hbody.
      assert (Hother : ∀ k' l', (k', l') ∈ visited → k ≠ k').
      { intros k' l' Hin ->. apply Hfresh. apply list_elem_of_fmap.
        by exists (k', l'). }
      unfold add_type_body in Hbody. split.
      + intros k' l' [Hold | Hnew%list_elem_of_singleton]%elem_of_app.
        * rewrite <- (Hseen k' l' Hold). specialize (Hother k' l' Hold).
          destruct l as [ | a l ]; [ by injection Hbody as <- | ].
          destruct (pb_map_getitem _ _ k) as [ | declared ? ]; [ done | ].
          injection Hbody as <-. by rewrite lookup_insert_ne.
        * injection Hnew as -> ->.
          destruct l as [ | a l ].
          -- injection Hbody as <-. by rewrite (Hrest k Hfresh).
          -- destruct (pb_map_getitem _ _ k) as [ | declared ? ]; [ done | ].
             injection Hbody as <-. by rewrite lookup_insert_eq.
      + intros k' Hk'. rewrite fmap_app in Hk'.
        assert (k ≠ k').
        { intros ->. apply Hk'. apply elem_of_app. right. apply list_elem_of_here. }
        assert (st !! k' = output_artifacts executor_output !! k') as <-.
        { apply Hrest. intros ?. apply Hk'. apply elem_of_app. by left. }
        destruct l as [ | a l ]; [ by injection Hbody as <- | ].
        destruct (pb_map_getitem _ _ k) as [ | declared ? ]; [ done | ].
        injection Hbody as <-. by rewrite lookup_insert_ne. }
  destruct HInv as [Hseen Hrest]. intros k.
  destruct (output_artifacts executor_output !! k) as [l | ] eqn:Hk.
  - rewrite (Hseen k l) by by apply elem_of_map_to_list. by destruct l.
  - rewrite <- Hk. apply Hrest. intros ((k' & l) & -> & Hin)%list_elem_of_fmap.
    apply elem_of_map_to_list in Hin. simpl in Hk. congruence.
Qed.

Lemma add_type_Ok_declared executor_input executor_output typed k a l :
  add_type_to_executor_output executor_input executor_output = Ok typed →
  output_artifacts executor_output !! k = Some (a :: l) →
  pb_map_getitem [] (outputs_artifacts executor_input) k ≠ [].
Proof.
  intros Htyped Hk Hdeclared.
  destruct (for_items_fails (add_type_body executor_input)
              (output_artifacts executor_output) (output_artifacts executor_output)
              k (a :: l) Hk) as [e He].
  { intros st. unfold add_type_body. rewrite Hdeclared. by eexists. }
  unfold add_type_to_executor_output in Htyped. by rewrite He in Htyped.
Qed.

(** X11.  After [add_type_to_executor_output] the parameters are as they
    were, and under every output key there are as many artifacts as before,
    each with its own name, URI and metadata and with the type of the first
    artifact declared for that key in the executor input. *)
Theorem add_type_retypes_every_artifact executor_input executor_output typed
    (Htyped : add_type_to_executor_output executor_input executor_output = Ok typed) :
  parameter_values typed = parameter_values executor_output
  ∧ ∀ k l, output_artifacts executor_output !! k = Some l →
      ∃ l', output_artifacts typed !! k = Some l'
            ∧ List.length l' = List.length l
            ∧ ∀ i a, l !! i = Some a →
                ∃ a' declared,
                  l' !! i = Some a'
                  ∧ head (pb_map_getitem [] (outputs_artifacts executor_input) k)
                    = Some declared
                  ∧ artifact_type a' = artifact_type declared
                  ∧ artifact_name a' = artifact_name a
                  ∧ artifact_uri a' = artifact_uri a
                  ∧ artifact_metadata a' = artifact_metadata a.
Proof.
  split; [ by apply add_type_inv in Htyped as [? _] | ].
  intros k l Hk. pose proof (add_type_lookup _ _ _ Htyped k) as Hlook.
  rewrite Hk in Hlook. destruct l as [ | a0 l ].
  - exists []. split; [ done | ]. split; [ done | ]. by intros i a Hi.
  - destruct (pb_map_getitem [] (outputs_artifacts executor_input) k)
      as [ | declared rest ] eqn:Hdeclared.
    + exfalso. by eapply add_type_Ok_declared.
    + exists (retyped declared <$> a0 :: l). split; [ done | ].
      split; [ by rewrite length_fmap | ].
      intros i a Hi. exists (retyped declared a), declared.
      rewrite list_lookup_fmap, Hi. by repeat split.
Qed.

(** X12.  [add_type_to_executor_output] raises exactly when the message
    holds an artifact under a key for which the executor input declares no
    artifact, and the exception is then an [IndexError]. *)
Theorem add_type_raises_iff_undeclared executor_input executor_output e :
  add_type_to_executor_output executor_input executor_output = Raise e
  ↔ e = IndexError
    ∧ ∃ k a l, output_artifacts executor_output !! k = Some (a :: l)
               ∧ pb_map_getitem [] (outputs_artifacts executor_input) k = [].
Proof.
  assert (Hraise : ∀ e', add_type_to_executor_output executor_input executor_output
                         = Raise e' →
                         e' = IndexError
                         ∧ ∃ k a l, output_artifacts executor_output !! k = Some (a :: l)
                                    ∧ pb_map_getitem []
                                        (outputs_artifacts executor_input) k = []).
  { intros e'. unfold add_type_to_executor_output.
    destruct (for_items _ _ _) as [arts | e''] eqn:Hloop; [ done | ].
    intros [= ->]. apply for_items_Raise in Hloop as (k & l & st & Hk & Hbody).
    unfold add_type_body in Hbody. destruct l as [ | a l ]; [ done | ].
    destruct (pb_map_getitem _ _ k) eqn:Hdeclared; [ | done ].
    injection Hbody as <-. split; [ done | ]. by exists k, a, l. }
  split; [ apply Hraise | ].
  intros [-> (k & a & l & Hk & Hdeclared)].
  destruct (for_items_fails (add_type_body executor_input)
              (output_artifacts executor_output) (output_artifacts executor_output)
              k (a :: l) Hk) as [e' He'].
  { intros st. unfold add_type_body. rewrite Hdeclared. by eexists. }
  assert (Hadd : add_type_to_executor_output executor_input executor_output = Raise e').
  { unfold add_type_to_executor_output. by rewrite He'. }
  destruct (Hraise e' Hadd) as [-> _]. exact Hadd.
Qed.

(** *** The output map *)

(** The stages of [get_outputs_from_executor_output] before the cast. *)
Lemma get_outputs_stages executor_output executor_input component_spec outs :
  get_outputs_from_executor_output executor_output executor_input component_spec
  = Ok outs →
  ∃ typed merged output_parameters out_artifacts,
    add_type_to_executor_output executor_input executor_output = Ok typed
    ∧ merge_dsl_output_file_parameters_to_executor_output
        executor_input typed component_spec = Ok merged
    ∧ gmap_comprehension (λ _ value, pb2_value_to_python value)
        (parameter_values merged) = Ok output_parameters
    ∧ gmap_comprehension
        (λ artifact_name artifact_list,
           artifact_list_to_dsl_artifact artifact_list
             (is_artifact_list
                (pb_map_getitem default_ArtifactSpec
                   (artifacts (output_definitions component_spec)) artifact_name)))
        (output_artifacts merged) = Ok out_artifacts
    ∧ cast_floats_as_ints_to_floats (out_artifacts ∪ output_parameters)
        (filter (λ kv, parameter_type kv.2 = NUMBER_INTEGER)
           (map_to_list (parameters (output_definitions component_spec)))).*1
      = Ok outs.
Proof.
  unfold get_outputs_from_executor_output, mbind, result_mbind, result_bind.
  destruct (add_type_to_executor_output _ _) as [typed | e]; [ | done ].
  destruct (merge_dsl_output_file_parameters_to_executor_output _ _ _)
    as [merged | e] eqn:Hmerged; [ | done ].
  destruct (gmap_comprehension _ (parameter_values merged))
    as [output_parameters | e] eqn:Hparams; [ | done ].
  destruct (gmap_comprehension _ (output_artifacts merged))
    as [out_artifacts | e] eqn:Harts; [ | done ].
  intros Hcast. exists typed, merged, output_parameters, out_artifacts.
  by rewrite Hmerged.
Qed.

Lemma typed_int_keys component_spec k :
  k ∈ (filter (λ kv, parameter_type kv.2 = NUMBER_INTEGER)
         (map_to_list (parameters (output_definitions component_spec)))).*1
  ↔ ∃ spec, parameters (output_definitions component_spec) !! k = Some spec
            ∧ parameter_type spec = NUMBER_INTEGER.
Proof.
  rewrite list_elem_of_fmap. split.
  - intros ((k' & spec) & -> & [Hint Hk]%list_elem_of_filter).
    apply elem_of_map_to_list in Hk. by exists spec.
  - intros (spec & Hk & Hint). exists (k, spec). split; [ done | ].
    apply list_elem_of_filter. split; [ done | by apply elem_of_map_to_list ].
Qed.

(** X13.  For an output that is not declared NUMBER_INTEGER, the returned
    map holds the artifact (or artifact list) of that name when the message
    has one, even if it also has a parameter of that name; otherwise the
    decoded parameter; and nothing when the merged message has neither. *)
Theorem outputs_are_artifacts_then_parameters
    executor_output executor_input component_spec typed merged outs k
    (Htyped : add_type_to_executor_output executor_input executor_output = Ok typed)
    (Hmerged : merge_dsl_output_file_parameters_to_executor_output
                 executor_input typed component_spec = Ok merged)
    (Houts : get_outputs_from_executor_output
               executor_output executor_input component_spec = Ok outs)
    (Hnotint : declared_type component_spec k ≠ NUMBER_INTEGER) :
  match output_artifacts merged !! k with
  | Some artifact_list =>
      ∃ v, artifact_list_to_dsl_artifact artifact_list
             (is_artifact_list
                (pb_map_getitem default_ArtifactSpec
                   (artifacts (output_definitions component_spec)) k)) = Ok v
           ∧ outs !! k = Some v
  | None =>
      match parameter_values merged !! k with
      | Some wire => ∃ v, pb2_value_to_python wire = Ok v ∧ outs !! k = Some v
      | None => outs !! k = None
      end
  end.
Proof.
  apply get_outputs_stages in Houts
    as (typed' & merged' & output_parameters & out_artifacts
        & Htyped' & Hmerged' & Hparams & Harts & Hcast).
  rewrite Htyped in Htyped'. injection Htyped' as <-.
  rewrite Hmerged in Hmerged'. injection Hmerged' as <-.
  apply cast_inv in Hcast as [_ Hrest]. rewrite Hrest.
  - pose proof (gmap_comprehension_inv _ _ _ Harts k) as Hak.
    pose proof (gmap_comprehension_inv _ _ _ Hparams k) as Hpk.
    destruct (output_artifacts merged !! k) as [artifact_list | ].
    + destruct Hak as (v & Hv & Hak). exists v. split; [ done | ].
      by apply lookup_union_Some_l.
    + rewrite lookup_union_r by done.
      destruct (parameter_values merged !! k) as [wire | ]; [ | done ].
      destruct Hpk as (u & Hu & Hpk). by exists u.
  - intros (spec & Hk & Hint)%typed_int_keys. apply Hnotint.
    unfold declared_type, pb_map_getitem. by rewrite Hk.
Qed.

(** C6 as the code has it.  For an output that is not declared an artifact
    list and has an entry in the raw message: when the entry holds no
    artifact the normaliser raises; when it holds one artifact or more, the
    output the normaliser returns is the first of them, with the declared
    type, which is the single artifact when there is exactly one. *)
Theorem single_artifact_output_is_first_of_message
    executor_output executor_input component_spec k artifact_list
    (Hmessage : output_artifacts executor_output !! k = Some artifact_list)
    (Hsingle : is_artifact_list
                 (pb_map_getitem default_ArtifactSpec
                    (artifacts (output_definitions component_spec)) k) = false) :
  match artifact_list with
  | [] =>
      ∃ e, get_outputs_from_executor_output
             executor_output executor_input component_spec = Raise e
  | first :: _ =>
      ∀ outs,
        get_outputs_from_executor_output
          executor_output executor_input component_spec = Ok outs →
        ∃ declared,
          head (pb_map_getitem [] (outputs_artifacts executor_input) k) = Some declared
          ∧ outs !! k
            = Some (PyArtifact (runtime_artifact_to_dsl_artifact (retyped declared first)))
  end.
Proof.
  assert (Hstage : ∀ outs,
            get_outputs_from_executor_output
              executor_output executor_input component_spec = Ok outs →
            ∃ typed_list out_artifacts output_parameters v,
              typed_list
              = match artifact_list with
                | a :: l =>
                    match pb_map_getitem [] (outputs_artifacts executor_input) k with
                    | declared :: _ => Some (retyped declared <$> a :: l)
                    | [] => None
                    end
                | [] => Some []
                end
              ∧ (∀ l, typed_list = Some l →
                      artifact_list_to_dsl_artifact l false = Ok v
                      ∧ out_artifacts !! k = Some v)
              ∧ cast_floats_as_ints_to_floats (out_artifacts ∪ output_parameters)
                  (filter (λ kv, parameter_type kv.2 = NUMBER_INTEGER)
                     (map_to_list (parameters (output_definitions component_spec)))).*1
                = Ok outs
              ∧ is_Some typed_list).
  { intros outs Houts. apply get_outputs_stages in Houts
      as (typed & merged & output_parameters & out_artifacts
          & Htyped & Hmerged & Hparams & Harts & Hcast).
    pose proof (add_type_lookup _ _ _ Htyped k) as Hlook. rewrite Hmessage in Hlook.
    apply merge_inv in Hmerged as (Hsame & _ & _).
    pose proof (gmap_comprehension_inv _ _ _ Harts k) as Hak.
    rewrite Hsame in Hak.
    assert (Hsome : is_Some (output_artifacts typed !! k)).
    { destruct artifact_list as [ | a l ]; [ rewrite Hlook; by eexists | ].
      destruct (pb_map_getitem [] (outputs_artifacts executor_input) k) eqn:Hdeclared;
        [ | rewrite Hlook; by eexists ].
      by destruct (add_type_Ok_declared _ _ _ _ _ _ Htyped Hmessage). }
    destruct Hsome as [l Hl]. rewrite Hl, Hsingle in Hak.
    destruct Hak as (v & Hv & Hak).
    exists (Some l), out_artifacts, output_parameters, v.
    split; [ rewrite <- Hl, Hlook; by destruct artifact_list | ].
    split; [ by intros l' [= <-] | ]. split; [ done | by eexists ]. }
  destruct artifact_list as [ | first rest ].
  - destruct (get_outputs_from_executor_output _ _ _) as [outs | e] eqn:Houts;
      [ exfalso | by eexists ].
    destruct (Hstage outs eq_refl) as (typed_list & ? & ? & v & -> & Hv & _ & _).
    by destruct (Hv [] eq_refl).
  - intros outs Houts.
    destruct (Hstage outs Houts)
      as (typed_list & out_artifacts & output_parameters & v & -> & Hv & Hcast & Hsome).
    destruct (pb_map_getitem [] (outputs_artifacts executor_input) k)
      as [ | declared others ]; [ by destruct Hsome | ].
    exists declared. split; [ done | ].
    destruct (Hv _ eq_refl) as [Hconv Hout]. simpl in Hconv. injection Hconv as <-.
    apply cast_inv in Hcast as [Hseen Hrest].
    destruct (decide (k ∈ (filter (λ kv, parameter_type kv.2 = NUMBER_INTEGER)
                             (map_to_list
                                (parameters (output_definitions component_spec)))).*1))
      as [Hk | Hk].
    + destruct (Hseen k Hk) as (v' & n & Hv' & Hn & _).
      rewrite (lookup_union_Some_l _ _ _ _ Hout) in Hv'. by injection Hv' as <-.
    + rewrite (Hrest k Hk). by apply lookup_union_Some_l.
Qed.

(** X14.  An output declared NUMBER_INTEGER that the step did not produce
    (no parameter and no artifact of that name in the message, no output
    file) makes the normaliser raise instead of returning the other
    outputs. *)
Theorem missing_integer_output_raises
    executor_output executor_input component_spec k spec
    (Hdecl : parameters (output_definitions component_spec) !! k = Some spec)
    (Hint : parameter_type spec = NUMBER_INTEGER)
    (Hnoparam : parameter_values executor_output !! k = None)
    (Hnoart : output_artifacts executor_output !! k = None)
    (Hnofile : ∀ file, outputs_parameters executor_input !! k = Some file →
                       os_path_exists file = false) :
  ∃ e, get_outputs_from_executor_output
         executor_output executor_input component_spec = Raise e.
Proof.
  destruct (get_outputs_from_executor_output _ _ _) as [outs | e] eqn:Houts;
    [ exfalso | by eexists ].
  apply get_outputs_stages in Houts
    as (typed & merged & output_parameters & out_artifacts
        & Htyped & Hmerged & Hparams & Harts & Hcast).
  apply cast_inv in Hcast as [Hseen _].
  destruct (Hseen k) as (v & n & Hv & _); [ apply typed_int_keys; eauto | ].
  apply add_type_inv in Htyped as [Hpv Hnone].
  apply merge_inv in Hmerged as (Hsame & Hfiles & Hrest).
  pose proof (gmap_comprehension_inv _ _ _ Harts k) as Hak.
  rewrite Hsame, (Hnone k Hnoart) in Hak.
  pose proof (gmap_comprehension_inv _ _ _ Hparams k) as Hpk.
  assert (Hmk : parameter_values merged !! k = None).
  { rewrite <- Hnoparam, <- Hpv.
    destruct (outputs_parameters executor_input !! k) as [file | ] eqn:Hfile.
    - specialize (Hfiles k file Hfile). unfold merged_at in Hfiles.
      by rewrite (Hnofile file eq_refl) in Hfiles.
    - by apply Hrest. }
  rewrite Hmk in Hpk. rewrite lookup_union_r, Hpk in Hv by done. done.
Qed.

End normalizer.

(** *** Sample runs *)

(** Stand-ins for the builtins, enough for the sample files below. *)
Definition sample_json_loads (text : string) : result PyValue :=
  if decide (text = "3") then Ok (PyInt 3)
  else if decide (text = "true") then Ok (PyBool true)
  else Raise (ValueError "Expecting value").

Definition sample_int_of_str (text : string) : result Z :=
  if decide (text = "3") then Ok 3%Z
  else Raise (ValueError "invalid literal for int() with base 10").

Definition sample_create_artifact_instance (a : RuntimeArtifact) : DslArtifact :=
  {| dsl_schema_title := artifact_type a;
     dsl_name := artifact_name a;
     dsl_uri := artifact_uri a;
     dsl_metadata := artifact_metadata a |}.

Definition sample_int_component : ComponentSpec :=
  {| input_definitions := {| parameters := ∅; artifacts := ∅ |};
     output_definitions :=
       {| parameters := {[ "n" := {| parameter_type := NUMBER_INTEGER;
                                     default_value := kind_not_set |} ]};
          artifacts := ∅ |};
     implementation := executor_label "exec-count" |}.

Definition sample_int_input : ExecutorInput :=
  {| outputs_parameters := {[ "n" := "/out/n" ]}; outputs_artifacts := ∅ |}.

Definition sample_int_output : ExecutorOutput :=
  {| parameter_values := {[ "n" := number_value float_three ]};
     output_artifacts := ∅ |}.

Example wire_three_normalizes_to_int_three :
  get_outputs_from_executor_output sample_json_loads sample_int_of_str
    sample_create_artifact_instance ∅
    sample_int_output sample_int_input sample_int_component
  = Ok {[ "n" := PyInt 3 ]}.
Proof. vm_compute. reflexivity. Qed.

Lemma integer_outputs_are_native_ints_witness :
  parameter_type {| parameter_type := NUMBER_INTEGER; default_value := kind_not_set |}
  = NUMBER_INTEGER
  ∧ ∃ z, ({[ "n" := PyInt 3 ]} : gmap string PyValue) !! "n" = Some (PyInt z)
       ∧ ∀ x, parameter_values sample_int_output !! "n" = Some (number_value x) →
              (∀ file, outputs_parameters sample_int_input !! "n" = Some file →
                       os_path_exists ∅ file = false) →
              output_artifacts sample_int_output !! "n" = None →
              float_trunc x = Ok z.
Proof.
  split; [ reflexivity | ].
  apply (integer_outputs_are_native_ints sample_json_loads sample_int_of_str
           sample_create_artifact_instance ∅
           sample_int_output sample_int_input sample_int_component
           {[ "n" := PyInt 3 ]} "n"
           {| parameter_type := NUMBER_INTEGER; default_value := kind_not_set |}).
  - vm_compute. reflexivity.
  - vm_compute. reflexivity.
  - reflexivity.
Defined.

(** Two artifacts under a declared single-artifact output: the conversion
    returns the first and raises nothing. *)
Definition sample_artifact (name : string) : RuntimeArtifact :=
  {| artifact_name := name; artifact_type := "system.Dataset";
     artifact_uri := "/out/" +:+ name; artifact_metadata := [] |}.

Lemma single_artifact_two_artifacts_no_error :
  length [sample_artifact "a"; sample_artifact "b"] = 2
  ∧ artifact_list_to_dsl_artifact sample_create_artifact_instance
      [sample_artifact "a"; sample_artifact "b"] false
    = Ok (PyArtifact (sample_create_artifact_instance (sample_artifact "a"))).
Proof. split; reflexivity. Qed.

(** A step that wrote the string output [msg] and the integer output [cnt]
    to their files, and returned [msg] inline as well. *)
Definition sample_fs : gmap string FsNode :=
  {[ "/out/msg" := RegularFile "3"; "/out/cnt" := RegularFile "3" ]}.

Definition sample_file_component : ComponentSpec :=
  {| input_definitions := {| parameters := ∅; artifacts := ∅ |};
     implementation := executor_label "exec-report";
     output_definitions :=
       {| parameters :=
            {[ "msg" := {| parameter_type := STRING; default_value := kind_not_set |};
               "cnt" := {| parameter_type := NUMBER_INTEGER;
                           default_value := kind_not_set |};
               "flag" := {| parameter_type := BOOLEAN;
                            default_value := kind_not_set |} ]};
          artifacts := ∅ |} |}.

Definition sample_file_input : ExecutorInput :=
  {| outputs_parameters :=
       {[ "msg" := "/out/msg"; "cnt" := "/out/cnt"; "flag" := "/out/flag" ]};
     outputs_artifacts := ∅ |}.

Definition sample_file_output : ExecutorOutput :=
  {| parameter_values :=
       {[ "msg" := string_value "inline"; "flag" := bool_value true ]};
     output_artifacts := ∅ |}.

Definition sample_file_merged : ExecutorOutput :=
  {| parameter_values :=
       {[ "msg" := string_value "3"; "cnt" := number_value float_three;
          "flag" := bool_value true ]};
     output_artifacts := ∅ |}.

Example sample_file_merge :
  merge_dsl_output_file_parameters_to_executor_output sample_json_loads sample_fs
    sample_file_input sample_file_output sample_file_component
  = Ok sample_file_merged.
Proof. vm_compute. reflexivity. Qed.

Lemma sample_files_decode k file :
  outputs_parameters sample_file_input !! k = Some file →
  os_path_exists sample_fs file = true →
  ∃ v, special_dsl_outputpath_read sample_json_loads sample_fs file
         (bool_decide (declared_type sample_file_component k = STRING)) = Ok v
       ∧ is_Ok (to_protobuf_value v).
Proof.
  unfold sample_file_input. simpl.
  intros [[<- <-] | [_ [[<- <-] | [_ [<- <-]%lookup_singleton_Some]]%lookup_insert_Some]]%lookup_insert_Some.
  - intros _. exists (PyStr "3"). split; [ reflexivity | by eexists ].
  - intros _. exists (PyInt 3). split; [ reflexivity | ].
    exists (number_value float_three). reflexivity.
  - intros Hex. vm_compute in Hex. discriminate.
Qed.

Lemma merge_decodes_output_files_witness :
  ∃ merged,
    merge_dsl_output_file_parameters_to_executor_output sample_json_loads sample_fs
      sample_file_input sample_file_output sample_file_component = Ok merged
    ∧ ∀ k file,
        outputs_parameters sample_file_input !! k = Some file →
        os_path_exists sample_fs file = true →
        ∃ text v wire,
          read_file sample_fs file = Ok text
          ∧ (if bool_decide (declared_type sample_file_component k = STRING)
             then v = PyStr text else sample_json_loads text = Ok v)
          ∧ to_protobuf_value v = Ok wire
          ∧ parameter_values merged !! k = Some wire.
Proof.
  apply (merge_decodes_output_files sample_json_loads sample_fs
           sample_file_input sample_file_output sample_file_component).
  exact sample_files_decode.
Defined.

Lemma merge_file_replaces_inline_witness :
  (∀ k file inline,
     outputs_parameters sample_file_input !! k = Some file →
     os_path_exists sample_fs file = true →
     parameter_values sample_file_output !! k = Some inline →
     ∃ v wire,
       special_dsl_outputpath_read sample_json_loads sample_fs file
         (bool_decide (declared_type sample_file_component k = STRING)) = Ok v
       ∧ to_protobuf_value v = Ok wire
       ∧ parameter_values sample_file_merged !! k = Some wire)
  ∧ (∀ k,
       (∀ file, outputs_parameters sample_file_input !! k = Some file →
                os_path_exists sample_fs file = false) →
       parameter_values sample_file_merged !! k
       = parameter_values sample_file_output !! k).
Proof.
  apply (merge_file_replaces_inline sample_json_loads sample_fs
           sample_file_input sample_file_output sample_file_component
           sample_file_merged).
  vm_compute. reflexivity.
Defined.

(** *** More sample runs *)

Definition sample_mixed_dict : gmap string PyValue :=
  {[ "n" := PyFloat float_three; "s" := PyStr "3"; "name" := PyStr "model" ]}.

Definition sample_cast_dict : gmap string PyValue :=
  {[ "n" := PyInt 3; "s" := PyInt 3; "name" := PyStr "model" ]}.

Example sample_cast :
  cast_floats_as_ints_to_floats sample_int_of_str sample_mixed_dict ["n"; "s"]
  = Ok sample_cast_dict.
Proof. vm_compute. reflexivity. Qed.

Lemma cast_is_idempotent_witness :
  cast_floats_as_ints_to_floats sample_int_of_str sample_cast_dict ["n"; "s"]
  = Ok sample_cast_dict.
Proof.
  apply (cast_is_idempotent sample_int_of_str sample_mixed_dict ["n"; "s"]
           sample_cast_dict).
  vm_compute. reflexivity.
Defined.

Lemma cast_changes_listed_keys_only_witness :
  (∀ k, k ∉ ["n"; "s"] → sample_cast_dict !! k = sample_mixed_dict !! k)
  ∧ (∀ k, is_Some (sample_cast_dict !! k) ↔ is_Some (sample_mixed_dict !! k)).
Proof.
  apply (cast_changes_listed_keys_only sample_int_of_str sample_mixed_dict
           ["n"; "s"] sample_cast_dict).
  vm_compute. reflexivity.
Defined.

Lemma cast_missing_key_raises_witness :
  ∃ e, cast_floats_as_ints_to_floats sample_int_of_str sample_mixed_dict
         ["n"; "count"] = Raise e.
Proof.
  apply (cast_missing_key_raises sample_int_of_str sample_mixed_dict
           ["n"; "count"] "count").
  - apply list_elem_of_further, list_elem_of_here.
  - vm_compute. reflexivity.
Defined.

Lemma merge_without_files_is_identity_witness :
  merge_dsl_output_file_parameters_to_executor_output sample_json_loads ∅
    sample_file_input sample_file_output sample_file_component
  = Ok sample_file_output.
Proof.
  apply (merge_without_files_is_identity sample_json_loads ∅
           sample_file_input sample_file_output sample_file_component).
  intros k file _. unfold os_path_exists. rewrite lookup_empty. reflexivity.
Defined.

(** The output path of [cnt] is a directory. *)
Definition sample_fs_directory : gmap string FsNode :=
  {[ "/out/msg" := RegularFile "3"; "/out/cnt" := Directory ]}.

Lemma merge_unreadable_file_raises_witness :
  ∃ e, merge_dsl_output_file_parameters_to_executor_output sample_json_loads
         sample_fs_directory
         sample_file_input sample_file_output sample_file_component = Raise e.
Proof.
  apply (merge_unreadable_file_raises sample_json_loads sample_fs_directory
           sample_file_input sample_file_output sample_file_component
           "cnt" "/out/cnt" IsADirectoryError).
  - vm_compute. reflexivity.
  - vm_compute. reflexivity.
  - vm_compute. reflexivity.
Defined.

Lemma merge_keeps_artifacts_and_adds_file_keys_witness :
  output_artifacts sample_file_merged = output_artifacts sample_file_output
  ∧ ∀ k, is_Some (parameter_values sample_file_merged !! k)
         ↔ is_Some (parameter_values sample_file_output !! k)
           ∨ ∃ file, outputs_parameters sample_file_input !! k = Some file
                     ∧ os_path_exists sample_fs file = true.
Proof.
  apply (merge_keeps_artifacts_and_adds_file_keys sample_json_loads sample_fs
           sample_file_input sample_file_output sample_file_component
           sample_file_merged).
  vm_compute. reflexivity.
Defined.

(** A step that returned the artifact [model], without its type, and the
    parameters [model] and [msg]; the executor input declares [model] as a
    [system.Model]. *)
Definition sample_model : RuntimeArtifact :=
  {| artifact_name := "model"; artifact_type := "";
     artifact_uri := "/out/model"; artifact_metadata := [] |}.

Definition sample_model_declared : RuntimeArtifact :=
  {| artifact_name := ""; artifact_type := "system.Model";
     artifact_uri := "/out/model"; artifact_metadata := [] |}.

Definition sample_model_input : ExecutorInput :=
  {| outputs_parameters := ∅;
     outputs_artifacts := {[ "model" := [sample_model_declared] ]} |}.

Definition sample_model_output : ExecutorOutput :=
  {| parameter_values :=
       {[ "model" := string_value "shadowed"; "msg" := string_value "done" ]};
     output_artifacts := {[ "model" := [sample_model] ]} |}.

Definition sample_model_typed : ExecutorOutput :=
  {| parameter_values := parameter_values sample_model_output;
     output_artifacts := {[ "model" := [retyped sample_model_declared sample_model] ]} |}.

Definition sample_model_component : ComponentSpec :=
  {| input_definitions := {| parameters := ∅; artifacts := ∅ |};
     output_definitions :=
       {| parameters := {[ "msg" := {| parameter_type := STRING;
                                       default_value := kind_not_set |} ]};
          artifacts := {[ "model" := {| is_artifact_list := false |} ]} |};
     implementation := executor_label "exec-train" |}.

Definition sample_model_outs : gmap string PyValue :=
  {[ "model" := PyArtifact (sample_create_artifact_instance
                              (retyped sample_model_declared sample_model));
     "msg" := PyStr "done" ]}.

Example sample_model_run :
  get_outputs_from_executor_output sample_json_loads sample_int_of_str
    sample_create_artifact_instance ∅
    sample_model_output sample_model_input sample_model_component
  = Ok sample_model_outs.
Proof. vm_compute. reflexivity. Qed.

(** The same step returning two artifacts, or none, under [model]. *)
Definition sample_second_model : RuntimeArtifact :=
  {| artifact_name := "model-2"; artifact_type := "";
     artifact_uri := "/out/model-2"; artifact_metadata := [] |}.

Definition sample_two_models_output : ExecutorOutput :=
  {| parameter_values := {[ "msg" := string_value "done" ]};
     output_artifacts := {[ "model" := [sample_model; sample_second_model] ]} |}.

Definition sample_no_model_output : ExecutorOutput :=
  {| parameter_values := {[ "msg" := string_value "done" ]};
     output_artifacts := {[ "model" := [] ]} |}.

Example sample_no_model_run :
  get_outputs_from_executor_output sample_json_loads sample_int_of_str
    sample_create_artifact_instance ∅
    sample_no_model_output sample_model_input sample_model_component
  = Raise IndexError.
Proof. vm_compute. reflexivity. Qed.

Lemma single_artifact_output_is_first_of_message_witness :
  get_outputs_from_executor_output sample_json_loads sample_int_of_str
    sample_create_artifact_instance ∅
    sample_two_models_output sample_model_input sample_model_component
  = Ok sample_model_outs
  ∧ ∀ outs,
      get_outputs_from_executor_output sample_json_loads sample_int_of_str
        sample_create_artifact_instance ∅
        sample_two_models_output sample_model_input sample_model_component
      = Ok outs →
      ∃ declared,
        head (pb_map_getitem [] (outputs_artifacts sample_model_input) "model")
        = Some declared
        ∧ outs !! "model"
          = Some (PyArtifact
                    (runtime_artifact_to_dsl_artifact sample_create_artifact_instance
                       (retyped declared sample_model))).
Proof.
  split; [ vm_compute; reflexivity | ].
  apply (single_artifact_output_is_first_of_message sample_json_loads sample_int_of_str
           sample_create_artifact_instance ∅
           sample_two_models_output sample_model_input sample_model_component
           "model" [sample_model; sample_second_model]).
  - vm_compute. reflexivity.
  - vm_compute. reflexivity.
Defined.

Lemma add_type_retypes_every_artifact_witness :
  parameter_values sample_model_typed = parameter_values sample_model_output
  ∧ ∀ k l, output_artifacts sample_model_output !! k = Some l →
      ∃ l', output_artifacts sample_model_typed !! k = Some l'
            ∧ List.length l' = List.length l
            ∧ ∀ i a, l !! i = Some a →
                ∃ a' declared,
                  l' !! i = Some a'
                  ∧ head (pb_map_getitem [] (outputs_artifacts sample_model_input) k)
                    = Some declared
                  ∧ artifact_type a' = artifact_type declared
                  ∧ artifact_name a' = artifact_name a
                  ∧ artifact_uri a' = artifact_uri a
                  ∧ artifact_metadata a' = artifact_metadata a.
Proof.
  apply (add_type_retypes_every_artifact sample_model_input sample_model_output
           sample_model_typed).
  vm_compute. reflexivity.
Defined.

Lemma outputs_are_artifacts_then_parameters_witness :
  match output_artifacts sample_model_typed !! "model" with
  | Some artifact_list =>
      ∃ v, artifact_list_to_dsl_artifact sample_create_artifact_instance artifact_list
             (is_artifact_list
                (pb_map_getitem default_ArtifactSpec
                   (artifacts (output_definitions sample_model_component)) "model"))
           = Ok v
           ∧ sample_model_outs !! "model" = Some v
  | None =>
      match parameter_values sample_model_typed !! "model" with
      | Some wire =>
          ∃ v, pb2_value_to_python wire = Ok v ∧ sample_model_outs !! "model" = Some v
      | None => sample_model_outs !! "model" = None
      end
  end.
Proof.
  apply (outputs_are_artifacts_then_parameters sample_json_loads sample_int_of_str
           sample_create_artifact_instance ∅
           sample_model_output sample_model_input sample_model_component
           sample_model_typed sample_model_typed sample_model_outs "model").
  - vm_compute. reflexivity.
  - vm_compute. reflexivity.
  - vm_compute. reflexivity.
  - vm_compute. discriminate.
Defined.

Lemma get_outputs_returns_witness :
  is_Ok (get_outputs_from_executor_output sample_json_loads sample_int_of_str
           sample_create_artifact_instance ∅
           sample_int_output sample_int_input sample_int_component).
Proof.
  apply (get_outputs_returns sample_json_loads sample_int_of_str
           sample_create_artifact_instance ∅
           sample_int_output sample_int_input sample_int_component
           sample_int_output sample_int_output).
  - vm_compute. reflexivity.
  - vm_compute. reflexivity.
  - intros k wire Hk. simpl in Hk.
    apply lookup_singleton_Some in Hk as [<- <-]. reflexivity.
  - intros k artifact_list Hk. simpl in Hk. by rewrite lookup_empty in Hk.
  - intros k spec Hk _. simpl in Hk.
    apply lookup_singleton_Some in Hk as [<- <-]. split; [ reflexivity | ].
    exists float_three. split; [ reflexivity | ]. exists 3%Z. reflexivity.
Defined.

Lemma missing_integer_output_raises_witness :
  ∃ e, get_outputs_from_executor_output sample_json_loads sample_int_of_str
         sample_create_artifact_instance ∅
         {| parameter_values := ∅; output_artifacts := ∅ |}
         sample_int_input sample_int_component = Raise e.
Proof.
  apply (missing_integer_output_raises sample_json_loads sample_int_of_str
           sample_create_artifact_instance ∅
           {| parameter_values := ∅; output_artifacts := ∅ |}
           sample_int_input sample_int_component "n"
           {| parameter_type := NUMBER_INTEGER; default_value := kind_not_set |}).
  - vm_compute. reflexivity.
  - reflexivity.
  - reflexivity.
  - reflexivity.
  - intros file _. unfold os_path_exists. rewrite lookup_empty. reflexivity.
Defined.

End ExecutorOutputUtils.

(** ** The topological task sequencer *)

Module GraphUtils.

(** The producer task an input is wired to, if any. *)
Definition parameter_producer (input_spec : InputParameterSpec) : option string :=
  match input_spec with
  | task_output_parameter producer_task _ => Some producer_task
  | _ => None
  end.

Definition artifact_producer (input_spec : InputArtifactSpec) : option string :=
  match input_spec with
  | task_output_artifact producer_task _ => Some producer_task
  | _ => None
  end.

(** The tasks whose outputs the input wiring of a task references. *)
Definition producers (task_spec : PipelineTaskSpec) : list string :=
  omap parameter_producer (map_to_list (input_parameters (inputs task_spec))).*2
  ++ omap artifact_producer (map_to_list (input_artifacts (inputs task_spec))).*2.

(** A task can run once none of the tasks still to run is one of its
    producers. *)
Definition ready (remaining : list (string * PipelineTaskSpec))
    (task : string * PipelineTaskSpec) : Prop :=
  Forall (λ name, name ∉ producers task.2) remaining.*1.

#[global] Instance ready_dec remaining task : Decision (ready remaining task).
Proof. unfold ready. apply _. Defined.

Definition remove_task (name : string) (remaining : list (string * PipelineTaskSpec))
    : list (string * PipelineTaskSpec) :=
  filter (λ task, task.1 ≠ name) remaining.

(** Modelled from the spec: [graph_utils.topological_sort_tasks] is not
    among the sources.  Section 4.3 asks for the standard topological
    ordering over the edges from a producer to each task whose input wiring
    references it, ties broken by declaration order, and a malformed-graph
    error on a cycle: the first task in declaration order that is ready
    runs next. *)
Fixpoint sequence_tasks (fuel : nat) (remaining : list (string * PipelineTaskSpec))
    : result (list string) :=
  match remaining, fuel with
  | [], _ => Ok []
  | _, O => Raise (ValueError "The task graph has a cycle.")
  | _, S fuel' =>
      match list_find (ready remaining) remaining with
      | Some (_, (name, _)) =>
          match sequence_tasks fuel' (remove_task name remaining) with
          | Ok order => Ok (name :: order)
          | Raise e => Raise e
          end
      | None => Raise (ValueError "The task graph has a cycle.")
      end
  end.

(** Modelled from the spec: the sequence is a stack to pop from, so the
    task to run first is its last element. *)
Definition topological_sort_tasks (tasks : list (string * PipelineTaskSpec))
    : result (list string) :=
  match sequence_tasks (List.length tasks) tasks with
  | Ok order => Ok (rev order)
  | Raise e => Raise e
  end.

(** The dependency edge from task [a] to task [b] of one graph level. *)
Definition edge (tasks : list (string * PipelineTaskSpec)) (a b : string) : Prop :=
  a ∈ tasks.*1 ∧ ∃ task_spec, (b, task_spec) ∈ tasks ∧ a ∈ producers task_spec.

Definition acyclic (tasks : list (string * PipelineTaskSpec)) : Prop :=
  ∀ name, ¬ tc (edge tasks) name name.

Lemma NoDup_fst_functional {A B} (l : list (A * B)) x y1 y2 :
  NoDup l.*1 → (x, y1) ∈ l → (x, y2) ∈ l → y1 = y2.
Proof.
  induction l as [ | [x0 y0] l IH ]; simpl; intros Hnodup H1 H2.
  - by apply elem_of_nil in H1.
  - apply NoDup_cons in Hnodup as [Hfresh Hnodup].
    apply elem_of_cons in H1 as [H1 | H1];
      apply elem_of_cons in H2 as [H2 | H2].
    + congruence.
    + injection H1 as -> ->. exfalso. apply Hfresh.
      apply list_elem_of_fmap. by exists (x0, y2).
    + injection H2 as -> ->. exfalso. apply Hfresh.
      apply list_elem_of_fmap. by exists (x0, y1).
    + by apply IH.
Qed.

(** *** Every finite graph without a source has a cycle *)

Lemma tc_subrel {A} (R R' : relation A) :
  (∀ x y, R' x y → tc R x y) → ∀ x y, tc R' x y → tc R x y.
Proof.
  intros Hsub x y Hxy. induction Hxy as [x y Hxy | x y z Hxy _ IH].
  - by apply Hsub.
  - etrans; [ by apply Hsub | exact IH ].
Qed.

Lemma no_source_cycle {A} `{EqDecision A} (l : list A) :
  ∀ R : relation A,
    l ≠ [] →
    (∀ x, x ∈ l → ∃ y, y ∈ l ∧ R y x) →
    ∃ z, tc R z z.
Proof.
  induction l as [ | x l IH ]; intros R Hne Hpred; [ done | ].
  destruct (Hpred x) as (q & Hq & Hqx); [ apply list_elem_of_here | ].
  destruct (decide (q = x)) as [-> | Hqne]; [ exists x; by apply tc_once | ].
  apply elem_of_cons in Hq as [? | Hq]; [ done | ].
  destruct (IH (λ y z, R y z ∨ (R y x ∧ R x z))) as [z Hz].
  - intros ->. by apply elem_of_nil in Hq.
  - intros z Hz. destruct (Hpred z) as (p & Hp & Hpz); [ by apply list_elem_of_further | ].
    apply elem_of_cons in Hp as [-> | Hp].
    + exists q. split; [ done | ]. right. by split.
    + exists p. split; [ done | ]. by left.
  - exists z. revert Hz. apply tc_subrel. intros a b [Hab | [Hax Hxb]].
    + by apply tc_once.
    + eapply tc_l; [ exact Hax | by apply tc_once ].
Qed.

(** *** The sequencer on an acyclic task set *)

Lemma sequence_tasks_step fuel remaining :
  remaining ≠ [] →
  sequence_tasks (S fuel) remaining
  = match list_find (ready remaining) remaining with
    | Some (_, (name, _)) =>
        match sequence_tasks fuel (remove_task name remaining) with
        | Ok order => Ok (name :: order)
        | Raise e => Raise e
        end
    | None => Raise (ValueError "The task graph has a cycle.")
    end.
Proof. by destruct remaining. Qed.

Section sequencer.

Variable tasks : list (string * PipelineTaskSpec).
Hypothesis tasks_acyclic : acyclic tasks.

(** Among tasks still to run, one is ready. *)
Lemma some_task_ready (remaining : list (string * PipelineTaskSpec)) :
  remaining ≠ [] →
  (∀ task, task ∈ remaining → task ∈ tasks) →
  is_Some (list_find (ready remaining) remaining).
Proof.
  intros Hne Hsub.
  destruct (list_find (ready remaining) remaining) as [found | ] eqn:Hfind;
    [ by eexists | exfalso ].
  apply list_find_None in Hfind. rewrite Forall_forall in Hfind.
  destruct (no_source_cycle remaining.*1 (edge tasks)) as [z Hz].
  - destruct remaining; [ done | by simpl ].
  - intros b ((b' & task_spec) & -> & Hb)%list_elem_of_fmap. simpl.
    specialize (Hfind _ Hb). unfold ready in Hfind.
    apply not_Forall_Exists in Hfind; [ | apply _ ].
    apply Exists_exists in Hfind as (a & Ha & Hprod). simpl in Hprod.
    exists a. split; [ done | ]. split.
    + apply list_elem_of_fmap in Ha as (task_a & -> & Hta).
      apply list_elem_of_fmap. exists task_a. split; [ done | by apply Hsub ].
    + exists task_spec. split; [ by apply Hsub | ].
      by destruct (decide (a ∈ producers task_spec)).
  - by apply (tasks_acyclic z).
Qed.

(** In [order], no task consumes an output of itself or of a later task. *)
Definition producers_first (remaining : list (string * PipelineTaskSpec))
    (order : list string) : Prop :=
  ∀ before b after task_spec a,
    order = before ++ b :: after →
    (b, task_spec) ∈ remaining →
    a ∈ b :: after →
    a ∉ producers task_spec.

Lemma sequence_tasks_ok (fuel : nat) :
  ∀ remaining,
    (∀ task, task ∈ remaining → task ∈ tasks) →
    NoDup remaining.*1 →
    List.length remaining ≤ fuel →
    ∃ order, sequence_tasks fuel remaining = Ok order
             ∧ order ≡ₚ remaining.*1
             ∧ producers_first remaining order.
Proof.
  induction fuel as [ | fuel IH ]; intros remaining Hsub Hnodup Hlen.
  - destruct remaining; [ | simpl in Hlen; lia ].
    exists []. split; [ done | ]. split; [ done | ].
    intros [ | ? ? ] ? ? ? ? ?; done.
  - destruct remaining as [ | first rest ] eqn:Hrem.
    { exists []. split; [ done | ]. split; [ done | ].
      intros [ | ? ? ] ? ? ? ? ?; done. }
    rewrite <- Hrem in *. assert (Hne : remaining ≠ []) by by rewrite Hrem.
    destruct (some_task_ready remaining Hne Hsub) as [[i [name task_spec]] Hfind].
    assert (Hseq : sequence_tasks (S fuel) remaining
                   = match sequence_tasks fuel (remove_task name remaining) with
                     | Ok order => Ok (name :: order)
                     | Raise e => Raise e
                     end).
    { rewrite sequence_tasks_step by done. by rewrite Hfind. }
    apply list_find_Some in Hfind as (Hi & Hready & _).
    apply list_elem_of_lookup_2 in Hi.
    destruct (IH (remove_task name remaining)) as (order & Horder & Hperm & Hfirst).
    + intros task [_ Htask]%list_elem_of_filter. by apply Hsub.
    + eapply sublist_NoDup; [ exact Hnodup | ].
      apply fmap_sublist, sublist_filter.
    + assert (List.length (remove_task name remaining) < List.length remaining); [ | lia ].
      apply (length_filter_lt _ _ (name, task_spec)); [ done | ]. simpl. by intros ?.
    + assert (Hrest : ∀ b, b ∈ (remove_task name remaining).*1
                           ↔ b ∈ remaining.*1 ∧ b ≠ name).
      { intros b. rewrite !list_elem_of_fmap. split.
        - intros (task & -> & [Hb Htask]%list_elem_of_filter). split; [ | done ].
          by exists task.
        - intros [(task & -> & Htask) Hb]. exists task. split; [ done | ].
          by apply list_elem_of_filter. }
      exists (name :: order). rewrite Hseq, Horder. split; [ done | ]. split.
      * apply NoDup_Permutation; [ | done | ].
        -- constructor.
           ++ rewrite Hperm, Hrest. by intros [_ ?].
           ++ rewrite Hperm. eapply sublist_NoDup; [ exact Hnodup | ].
              apply fmap_sublist, sublist_filter.
        -- intros b. rewrite elem_of_cons, Hperm, Hrest.
           split; [ | destruct (decide (b = name)); tauto ].
           intros [-> | [? _]]; [ | done ].
           apply list_elem_of_fmap. by exists (name, task_spec).
      * intros before b after task_spec_b a Hsplit Hb Ha.
        destruct before as [ | b0 before ]; simpl in Hsplit.
        -- injection Hsplit as <- <-.
           assert (task_spec_b = task_spec) as ->.
           { by eapply (NoDup_fst_functional remaining name). }
           unfold ready in Hready. rewrite Forall_forall in Hready.
           apply (Hready a).
           apply elem_of_cons in Ha as [-> | Ha].
           ++ apply list_elem_of_fmap. by exists (name, task_spec).
           ++ rewrite Hperm in Ha. by apply Hrest in Ha as [? _].
        -- injection Hsplit as <- ->.
           eapply Hfirst; [ done | | exact Ha ].
           apply list_elem_of_filter. split; [ | done ]. simpl.
           assert (b ∈ (remove_task name remaining).*1) as [_ ?]%Hrest; [ | done ].
           rewrite <- Hperm. apply elem_of_app. right. apply list_elem_of_here.
Qed.

End sequencer.

(** C3.  On a task set with unique names and no dependency cycle the
    sequencer returns a stack; popped from its end it yields every task
    once, and for every dependency edge from [a] to [b] the task [a] is
    popped before [b]. *)
Theorem sequencer_respects_dependencies (tasks : list (string * PipelineTaskSpec))
    (Hnames : NoDup tasks.*1) (Hacyclic : acyclic tasks) :
  ∃ sorted_tasks,
    topological_sort_tasks tasks = Ok sorted_tasks
    ∧ rev sorted_tasks ≡ₚ tasks.*1
    ∧ ∀ a b i j,
        edge tasks a b →
        rev sorted_tasks !! i = Some a →
        rev sorted_tasks !! j = Some b →
        i < j.
Proof.
  destruct (sequence_tasks_ok tasks Hacyclic (List.length tasks) tasks)
    as (order & Horder & Hperm & Hfirst); [ done | done | done | ].
  exists (rev order). unfold topological_sort_tasks. rewrite Horder, rev_involutive.
  split; [ done | ]. split; [ done | ].
  intros a b i j (_ & task_spec & Hb & Hprod) Hi Hj.
  destruct (decide (i < j)) as [ | Hge ]; [ done | exfalso ].
  apply (Hfirst (take j order) b (drop (S j) order) task_spec a); try done.
  - symmetry. by apply take_drop_middle.
  - rewrite <- (drop_S _ _ _ Hj).
    apply (list_elem_of_lookup_2 _ (i - j)). rewrite lookup_drop.
    by replace (j + (i - j)) with i by lia.
Qed.

(** A rank that grows along every edge rules out cycles. *)
Lemma acyclic_by_rank tasks (rank : string → nat) :
  (∀ a b, edge tasks a b → rank a < rank b) → acyclic tasks.
Proof.
  intros Hrank name Hcycle.
  assert (Hlt : ∀ a b, tc (edge tasks) a b → rank a < rank b).
  { intros a b Hab. induction Hab as [a b Hab | a b c Hab _ IH].
    - by apply Hrank.
    - specialize (Hrank a b Hab). lia. }
  specialize (Hlt name name Hcycle). lia.
Qed.

(** *** A sample graph level *)

(** A task of component [component] whose parameter [x] is the output [y]
    of the task [upstream], if any. *)
Definition sample_task (component : string) (upstream : option string)
    : PipelineTaskSpec :=
  {| component_ref_name := component;
     inputs :=
       {| input_parameters :=
            match upstream with
            | Some producer_task => {[ "x" := task_output_parameter producer_task "y" ]}
            | None => ∅
            end;
          input_artifacts := ∅ |};
     trigger_condition := "";
     iterator := None |}.

(** Declared out of dependency order: [C] consumes [B], [B] consumes [A]. *)
Definition sample_tasks : list (string * PipelineTaskSpec) :=
  [("C", sample_task "comp-ok" (Some "B"));
   ("A", sample_task "comp-ok" None);
   ("B", sample_task "comp-ok" (Some "A"))].

Example sample_tasks_sorted :
  topological_sort_tasks sample_tasks = Ok ["C"; "B"; "A"].
Proof. vm_compute. reflexivity. Qed.

Definition sample_rank (name : string) : nat :=
  if decide (name = "A") then 0 else if decide (name = "B") then 1 else 2.

Lemma sample_tasks_acyclic : acyclic sample_tasks.
Proof.
  apply (acyclic_by_rank _ sample_rank).
  intros a b (_ & task_spec & Hb & Ha). unfold sample_tasks in Hb.
  repeat (apply elem_of_cons in Hb as [[= -> ->] | Hb]);
    [ | | | by apply elem_of_nil in Hb ];
    vm_compute in Ha.
  - apply list_elem_of_singleton in Ha as ->. vm_compute. lia.
  - by apply elem_of_nil in Ha.
  - apply list_elem_of_singleton in Ha as ->. vm_compute. lia.
Defined.

Lemma sequencer_respects_dependencies_witness :
  ∃ sorted_tasks,
    topological_sort_tasks sample_tasks = Ok sorted_tasks
    ∧ rev sorted_tasks ≡ₚ sample_tasks.*1
    ∧ ∀ a b i j,
        edge sample_tasks a b →
        rev sorted_tasks !! i = Some a →
        rev sorted_tasks !! j = Some b →
        i < j.
Proof.
  apply (sequencer_respects_dependencies sample_tasks).
  - apply (bool_decide_unpack _). by vm_compute.
  - exact sample_tasks_acyclic.
Defined.

End GraphUtils.

(** ** The DAG runner *)

Module DagOrchestrator.
Import Codec.

(** [status.Status]. *)
Inductive Status : Type :=
| SUCCESS
| FAILURE.

(** Modelled from the spec: [kfp.local.io.IOStore] is not among the
    sources.  Section 4.2 gives it two partitions, the parent inputs by name
    and the task outputs by task name and output key, written in memory and
    read with a loud failure when the entry is missing. *)
Record IOStore : Type := {
  parent_input_data : gmap string PyValue;
  task_output_data : gmap (string * string) PyValue;
}.

Definition new_IOStore : IOStore :=
  {| parent_input_data := ∅; task_output_data := ∅ |}.

Definition put_parent_input (key : string) (value : PyValue) (io_store : IOStore)
    : IOStore :=
  {| parent_input_data := <[key := value]> (parent_input_data io_store);
     task_output_data := task_output_data io_store |}.

Definition get_parent_input (key : string) (io_store : IOStore) : result PyValue :=
  match parent_input_data io_store !! key with
  | Some v => Ok v
  | None => Raise (ValueError "Parent pipeline input argument not found.")
  end.

Definition put_task_output (task_name key : string) (value : PyValue)
    (io_store : IOStore) : IOStore :=
  {| parent_input_data := parent_input_data io_store;
     task_output_data := <[(task_name, key) := value]> (task_output_data io_store) |}.

Definition get_task_output (task_name key : string) (io_store : IOStore)
    : result PyValue :=
  match task_output_data io_store !! (task_name, key) with
  | Some v => Ok v
  | None => Raise (ValueError "Tried to get a task output that was not found.")
  end.

(** [tasks[task_name]] on the protobuf map of tasks. *)
Fixpoint tasks_getitem (tasks : list (string * PipelineTaskSpec)) (task_name : string)
    : PipelineTaskSpec :=
  match tasks with
  | [] => default_PipelineTaskSpec
  | (name, task_spec) :: rest =>
      if decide (name = task_name) then task_spec else tasks_getitem rest task_name
  end.

(** [component_spec.dag]: the default message when the implementation is
    not a DAG. *)
Definition component_dag (component_spec : ComponentSpec) : DagSpec :=
  match implementation component_spec with
  | dag d => d
  | _ => default_DagSpec
  end.

Definition bind_defaults_to_dag_arguments (dag_arguments : gmap string PyValue)
    (dag_inputs_spec : ComponentIOSpec) : result (gmap string PyValue) :=
  for_items
    (insert_item
       (λ input_name input_spec,
          match dag_arguments !! input_name with
          | None => pb2_value_to_python (default_value input_spec)
          | Some v => Ok v
          end))
    (parameters dag_inputs_spec) ∅.

(** The loop [for k, v in dag_arguments_with_defaults.items():
    io_store.put_parent_input(k, v)]. *)
Definition put_parent_inputs (arguments : gmap string PyValue) (io_store : IOStore)
    : IOStore :=
  foldl (λ s kv, put_parent_input kv.1 kv.2 s) io_store (map_to_list arguments).

(** The loop that records the outputs of a task. *)
Definition put_task_outputs (task_name : string) (outputs : gmap string PyValue)
    (io_store : IOStore) : IOStore :=
  foldl (λ s kv, put_task_output task_name kv.1 kv.2 s) io_store (map_to_list outputs).

Definition parameter_argument (io_store : IOStore) (input_spec : InputParameterSpec)
    : result PyValue :=
  match input_spec with
  | task_output_parameter producer_task output_parameter_key =>
      get_task_output producer_task output_parameter_key io_store
  | runtime_value (constant c) => pb2_value_to_python c
  | runtime_value _ => Raise (ValueError "Expected constant.")
  | component_input_parameter name => get_parent_input name io_store
  | task_final_status =>
      Raise (ValueError "'dsl.ExitHandler' is not yet support for local execution.")
  | input_parameter_not_set => Raise (ValueError "Invalid or missing input")
  end.

Definition artifact_argument (io_store : IOStore) (input_spec : InputArtifactSpec)
    : result PyValue :=
  match input_spec with
  | task_output_artifact producer_task output_artifact_key =>
      get_task_output producer_task output_artifact_key io_store
  | component_input_artifact name => get_parent_input name io_store
  | input_artifact_not_set => Raise (ValueError "Invalid or missing input")
  end.

(** The loop body [task_arguments[input_name] = ...]. *)
Definition set_argument {A} (argument : A → result PyValue)
    : string → A → gmap string PyValue → result (gmap string PyValue) :=
  insert_item (λ _ input_spec, argument input_spec).

Definition make_task_arguments (task_inputs_spec : TaskInputsSpec) (io_store : IOStore)
    : result (gmap string PyValue) :=
  match for_items (set_argument (parameter_argument io_store))
          (input_parameters task_inputs_spec) ∅ with
  | Ok task_arguments =>
      for_items (set_argument (artifact_argument io_store))
        (input_artifacts task_inputs_spec) task_arguments
  | Raise e => Raise e
  end.

Definition get_dag_output_parameters (dag_outputs_spec : DagOutputsSpec)
    (io_store : IOStore) : result (gmap string PyValue) :=
  gmap_comprehension
    (λ root_output_key parameter_selector_spec,
       match parameter_selector_spec with
       | value_from_parameter producer_subtask output_parameter_key =>
           get_task_output producer_subtask output_parameter_key io_store
       | value_from_oneof =>
           Raise (ValueError "'dsl.OneOf' is not yet supported in local execution.")
       | output_parameter_not_set =>
           Raise (ValueError "Got unknown 'parameter_selector_spec' kind")
       end)
    (dag_output_parameters dag_outputs_spec).

Definition get_dag_output_artifacts (dag_outputs_spec : DagOutputsSpec)
    (io_store : IOStore) : result (gmap string PyValue) :=
  gmap_comprehension
    (λ root_output_key artifact_selectors,
       match artifact_selectors with
       | [artifact_selector] =>
           get_task_output (producer_subtask artifact_selector)
             (output_artifact_key artifact_selector) io_store
       | _ => Raise (ValueError "Expected 1 artifact in ArtifactSelectorSpec.")
       end)
    (dag_output_artifacts dag_outputs_spec).

Definition get_dag_outputs (dag_outputs_spec : DagOutputsSpec) (io_store : IOStore)
    : result (gmap string PyValue) :=
  match get_dag_output_parameters dag_outputs_spec io_store with
  | Ok output_params =>
      match get_dag_output_artifacts dag_outputs_spec io_store with
      | Ok output_artifacts => Ok (output_artifacts ∪ output_params)
      | Raise e => Raise e
      end
  | Raise e => Raise e
  end.

Definition validate_task_spec_not_loop_or_condition (task_spec : PipelineTaskSpec)
    : result unit :=
  if bool_decide (trigger_condition task_spec ≠ "") then
    Raise (ValueError "dsl.Condition is not supported by local pipeline execution.")
  else match iterator task_spec with
       | Some _ =>
           Raise (ValueError "dsl.ParallelFor is not supported by local pipeline execution.")
       | None => Ok ()
       end.

(** What the runner does outside: every call of a collaborator, with the
    name of the task and what the call gave. *)
Inductive Event : Type :=
| Dispatched (task_name : string) (outcome : result Status).

(** How the loop over the tasks of one graph level ends. *)
Inductive LoopExit : Type :=
| Exhausted
| Failed (fail_task_name : option string).

(** The triple a graph level returns. *)
Definition DagResult : Type := gmap string PyValue * Status * option string.

(** *** Argument binding *)

Lemma bind_defaults_inv dag_arguments dag_inputs_spec with_defaults :
  bind_defaults_to_dag_arguments dag_arguments dag_inputs_spec = Ok with_defaults →
  ∀ k, match parameters dag_inputs_spec !! k with
       | Some input_spec =>
           match dag_arguments !! k with
           | Some v => with_defaults !! k = Some v
           | None => ∃ v, pb2_value_to_python (default_value input_spec) = Ok v
                          ∧ with_defaults !! k = Some v
           end
       | None => with_defaults !! k = None
       end.
Proof.
  intros Hbind k. pose proof (for_items_insert_inv _ _ _ _ Hbind k) as Hk.
  destruct (parameters dag_inputs_spec !! k) as [input_spec | ];
    [ | by rewrite lookup_empty in Hk ].
  destruct Hk as (v & Hv & Hk). destruct (dag_arguments !! k); [ congruence | eauto ].
Qed.

Lemma put_parent_inputs_lookup arguments io_store k :
  parent_input_data (put_parent_inputs arguments io_store) !! k
  = match arguments !! k with
    | Some v => Some v
    | None => parent_input_data io_store !! k
    end.
Proof.
  unfold put_parent_inputs.
  assert (Hnodup : NoDup (map_to_list arguments).*1) by apply NoDup_fst_map_to_list.
  assert (Hin : ∀ v, (k, v) ∈ map_to_list arguments ↔ arguments !! k = Some v)
    by (intros v; apply elem_of_map_to_list).
  revert Hnodup Hin. generalize (arguments !! k) as found.
  induction (map_to_list arguments) as [ | [k' v'] items IH ] using rev_ind;
    intros found Hnodup Hin.
  - destruct found as [v | ]; [ | done ].
    exfalso. eapply elem_of_nil. by apply Hin.
  - rewrite foldl_app. simpl. rewrite fmap_app in Hnodup.
    apply NoDup_app in Hnodup as (Hnodup & Hfresh & _).
    destruct (decide (k' = k)) as [-> | Hne].
    + rewrite lookup_insert_eq.
      assert (Hhere : found = Some v').
      { apply Hin. apply elem_of_app. right. apply list_elem_of_here. }
      by rewrite Hhere.
    + rewrite lookup_insert_ne by done. apply IH; [ done | ].
      intros v. rewrite <- Hin, elem_of_app, list_elem_of_singleton.
      split; [ by left | ]. intros [? | [= ? ?]]; done.
Qed.

Lemma make_task_arguments_inv task_inputs_spec io_store task_arguments :
  make_task_arguments task_inputs_spec io_store = Ok task_arguments →
  ∀ k, match input_artifacts task_inputs_spec !! k with
       | Some input_spec =>
           ∃ v, artifact_argument io_store input_spec = Ok v
                ∧ task_arguments !! k = Some v
       | None =>
           match input_parameters task_inputs_spec !! k with
           | Some input_spec =>
               ∃ v, parameter_argument io_store input_spec = Ok v
                    ∧ task_arguments !! k = Some v
           | None => task_arguments !! k = None
           end
       end.
Proof.
  unfold make_task_arguments.
  destruct (for_items _ (input_parameters task_inputs_spec) ∅)
    as [parameter_arguments | e] eqn:Hparams; [ | done ].
  intros Harts k.
  pose proof (for_items_insert_inv _ _ _ _ Harts k) as Hk.
  destruct (input_artifacts task_inputs_spec !! k); [ done | ].
  rewrite Hk. clear Hk.
  pose proof (for_items_insert_inv _ _ _ _ Hparams k) as Hk.
  destruct (input_parameters task_inputs_spec !! k); [ done | ].
  by rewrite lookup_empty in Hk.
Qed.

(** *** More on defaults, arguments and outputs *)

(** X15.  The arguments with defaults have exactly the declared parameters
    as keys, and a supplied argument of a declared parameter is kept in
    preference to the default. *)
Theorem bind_defaults_binds_declared_parameters
    dag_arguments dag_inputs_spec with_defaults
    (Hbind : bind_defaults_to_dag_arguments dag_arguments dag_inputs_spec
             = Ok with_defaults) :
  (∀ k, is_Some (with_defaults !! k) ↔ is_Some (parameters dag_inputs_spec !! k))
  ∧ (∀ k v, is_Some (parameters dag_inputs_spec !! k) →
            dag_arguments !! k = Some v → with_defaults !! k = Some v).
Proof.
  split.
  - intros k. pose proof (bind_defaults_inv _ _ _ Hbind k) as Hk.
    destruct (parameters dag_inputs_spec !! k) as [input_spec | ].
    + split; [ by eexists | intros _ ].
      destruct (dag_arguments !! k); [ by eexists | ].
      destruct Hk as (v & _ & ->). by eexists.
    + rewrite Hk. split; by intros [? ?].
  - intros k v [input_spec Hspec] Hv.
    pose proof (bind_defaults_inv _ _ _ Hbind k) as Hk.
    by rewrite Hspec, Hv in Hk.
Qed.

(** A graph level with the integer parameters [rate] and [steps], both
    with the default 3.0, called with [rate] and an undeclared [extra]. *)
Definition sample_declared : ComponentIOSpec :=
  {| parameters :=
       {[ "rate" := {| parameter_type := NUMBER_INTEGER;
                       default_value := number_value float_three |};
          "steps" := {| parameter_type := NUMBER_INTEGER;
                        default_value := number_value float_three |} ]};
     artifacts := ∅ |}.

Definition sample_supplied : gmap string PyValue :=
  {[ "rate" := PyInt 7; "extra" := PyNone ]}.

Definition sample_bound : gmap string PyValue :=
  {[ "rate" := PyInt 7; "steps" := PyFloat float_three ]}.

Lemma bind_defaults_binds_declared_parameters_witness :
  (∀ k, is_Some (sample_bound !! k) ↔ is_Some (parameters sample_declared !! k))
  ∧ (∀ k v, is_Some (parameters sample_declared !! k) →
            sample_supplied !! k = Some v → sample_bound !! k = Some v).
Proof.
  apply (bind_defaults_binds_declared_parameters
           sample_supplied sample_declared sample_bound).
  vm_compute. reflexivity.
Defined.

(** X16.  A declared parameter with no argument and no decodable default
    makes the binding raise the decoder's [ValueError]. *)
Theorem bind_defaults_missing_default_raises
    dag_arguments dag_inputs_spec k input_spec e0
    (Hdeclared : parameters dag_inputs_spec !! k = Some input_spec)
    (Hmissing : dag_arguments !! k = None)
    (Hdefault : pb2_value_to_python (default_value input_spec) = Raise e0) :
  bind_defaults_to_dag_arguments dag_arguments dag_inputs_spec
  = Raise (ValueError "Unknown value type").
Proof.
  destruct (for_items_fails
              (insert_item
                 (λ input_name input_spec,
                    match dag_arguments !! input_name with
                    | None => pb2_value_to_python (default_value input_spec)
                    | Some v => Ok v
                    end))
              (parameters dag_inputs_spec) ∅ k input_spec Hdeclared) as [e He].
  { intros st. unfold insert_item. rewrite Hmissing, Hdefault. by eexists. }
  unfold bind_defaults_to_dag_arguments. rewrite He. f_equal.
  apply for_items_Raise in He as (k' & spec' & st & _ & Hbody).
  unfold insert_item in Hbody.
  destruct (dag_arguments !! k'); [ done | ].
  destruct (pb2_value_to_python (default_value spec')) eqn:Hdec; [ done | ].
  injection Hbody as <-. by eapply decode_Raise.
Qed.

Definition sample_no_default : ComponentIOSpec :=
  {| parameters :=
       {[ "rate" := {| parameter_type := NUMBER_INTEGER;
                       default_value := kind_not_set |};
          "steps" := {| parameter_type := NUMBER_INTEGER;
                        default_value := kind_not_set |} ]};
     artifacts := ∅ |}.

Lemma bind_defaults_missing_default_raises_witness :
  bind_defaults_to_dag_arguments sample_supplied sample_no_default
  = Raise (ValueError "Unknown value type").
Proof.
  apply (bind_defaults_missing_default_raises sample_supplied sample_no_default
           "steps"
           {| parameter_type := NUMBER_INTEGER; default_value := kind_not_set |}
           (ValueError "Unknown value type")).
  - vm_compute. reflexivity.
  - vm_compute. reflexivity.
  - reflexivity.
Defined.

(** X17.  Binding defaults is idempotent: binding again, with the
    arguments it returned, returns them unchanged. *)
Theorem bind_defaults_idempotent dag_arguments dag_inputs_spec with_defaults
    (Hbind : bind_defaults_to_dag_arguments dag_arguments dag_inputs_spec
             = Ok with_defaults) :
  bind_defaults_to_dag_arguments with_defaults dag_inputs_spec = Ok with_defaults.
Proof.
  assert (Hkeys : ∀ k input_spec, parameters dag_inputs_spec !! k = Some input_spec →
                                  is_Some (with_defaults !! k)).
  { intros k input_spec Hk. pose proof (bind_defaults_inv _ _ _ Hbind k) as Hd.
    rewrite Hk in Hd. destruct (dag_arguments !! k); [ by eexists | ].
    destruct Hd as (v & _ & ->). by eexists. }
  destruct (for_items_total
              (insert_item
                 (λ input_name input_spec,
                    match with_defaults !! input_name with
                    | None => pb2_value_to_python (default_value input_spec)
                    | Some v => Ok v
                    end))
              (parameters dag_inputs_spec) ∅) as [again Hagain].
  { intros k input_spec st Hk. unfold insert_item.
    destruct (Hkeys k input_spec Hk) as [v ->]. by eexists. }
  unfold bind_defaults_to_dag_arguments at 1. rewrite Hagain. f_equal.
  apply map_eq. intros k.
  pose proof (bind_defaults_inv with_defaults dag_inputs_spec again Hagain k) as Ha.
  pose proof (bind_defaults_inv _ _ _ Hbind k) as Hd.
  destruct (parameters dag_inputs_spec !! k) as [input_spec | ] eqn:Hk;
    [ | congruence ].
  destruct (Hkeys k input_spec Hk) as [v Hv]. rewrite Hv in Ha. congruence.
Qed.

Lemma bind_defaults_idempotent_witness :
  bind_defaults_to_dag_arguments sample_bound sample_declared = Ok sample_bound.
Proof.
  apply (bind_defaults_idempotent sample_supplied sample_declared sample_bound).
  vm_compute. reflexivity.
Defined.

(** [make_task_arguments] returns exactly when the body of each of its two
    loops returns on every input. *)
Lemma make_task_arguments_Ok_iff task_inputs_spec io_store :
  is_Ok (make_task_arguments task_inputs_spec io_store)
  ↔ (∀ k input_spec, input_parameters task_inputs_spec !! k = Some input_spec →
                     is_Ok (parameter_argument io_store input_spec))
    ∧ (∀ k input_spec, input_artifacts task_inputs_spec !! k = Some input_spec →
                       is_Ok (artifact_argument io_store input_spec)).
Proof.
  unfold make_task_arguments. split.
  - destruct (for_items _ (input_parameters task_inputs_spec) ∅)
      as [parameter_arguments | e] eqn:Hparams; [ | by intros [? ?] ].
    intros [task_arguments Harts]. split.
    + intros k input_spec Hk.
      pose proof (for_items_insert_inv _ _ _ _ Hparams k) as Hinv.
      rewrite Hk in Hinv. destruct Hinv as (v & -> & _). by eexists.
    + intros k input_spec Hk.
      pose proof (for_items_insert_inv _ _ _ _ Harts k) as Hinv.
      rewrite Hk in Hinv. destruct Hinv as (v & -> & _). by eexists.
  - intros [Hparams Harts].
    destruct (for_items_total (set_argument (parameter_argument io_store))
                (input_parameters task_inputs_spec) ∅) as [parameter_arguments ->].
    { intros k input_spec st Hk. unfold set_argument, insert_item.
      destruct (Hparams k input_spec Hk) as [v ->]. by eexists. }
    apply for_items_total. intros k input_spec st Hk.
    unfold set_argument, insert_item.
    destruct (Harts k input_spec Hk) as [v ->]. by eexists.
Qed.

(** The bindings of a parameter input that resolve. *)
Lemma parameter_argument_Ok_iff io_store input_spec :
  is_Ok (parameter_argument io_store input_spec)
  ↔ match input_spec with
    | task_output_parameter producer_task output_parameter_key =>
        is_Some (task_output_data io_store !! (producer_task, output_parameter_key))
    | runtime_value (constant c) => wire_tagged c = true
    | component_input_parameter name => is_Some (parent_input_data io_store !! name)
    | runtime_value _ | task_final_status | input_parameter_not_set => False
    end.
Proof.
  destruct input_spec as [producer_task key | [c | name | ] | name | | ]; simpl;
    unfold get_task_output, get_parent_input.
  - destruct (task_output_data io_store !! _) as [v | ].
    + split; intros _; by eexists.
    + split; [ by intros [? ?] | by intros [? ?] ].
  - split; [ apply decode_Ok_tagged | ].
    intros Htag. destruct (decode_then_encode c Htag) as (v & Hv & _). by exists v.
  - split; [ by intros [? ?] | done ].
  - split; [ by intros [? ?] | done ].
  - destruct (parent_input_data io_store !! _) as [v | ].
    + split; intros _; by eexists.
    + split; [ by intros [? ?] | by intros [? ?] ].
  - split; [ by intros [? ?] | done ].
  - split; [ by intros [? ?] | done ].
Qed.

(** The bindings of an artifact input that resolve. *)
Lemma artifact_argument_Ok_iff io_store input_spec :
  is_Ok (artifact_argument io_store input_spec)
  ↔ match input_spec with
    | task_output_artifact producer_task output_artifact_key =>
        is_Some (task_output_data io_store !! (producer_task, output_artifact_key))
    | component_input_artifact name => is_Some (parent_input_data io_store !! name)
    | input_artifact_not_set => False
    end.
Proof.
  destruct input_spec as [producer_task key | name | ]; simpl;
    unfold get_task_output, get_parent_input.
  - destruct (task_output_data io_store !! _) as [v | ].
    + split; intros _; by eexists.
    + split; [ by intros [? ?] | by intros [? ?] ].
  - destruct (parent_input_data io_store !! _) as [v | ].
    + split; intros _; by eexists.
    + split; [ by intros [? ?] | by intros [? ?] ].
  - split; [ by intros [? ?] | done ].
Qed.

(** X18.  [make_task_arguments] returns exactly when every parameter input
    is bound to a task output the store holds, to a constant in which every
    [kind] is set, or to a parent input the store holds, and every artifact
    input is bound to a task output or a parent input the store holds.  An
    input bound to a final status, an input with no binding, a runtime
    value that is not a constant, or a reference to an output or parent
    input the store does not hold makes the whole call raise. *)
Theorem make_task_arguments_returns_iff task_inputs_spec io_store :
  is_Ok (make_task_arguments task_inputs_spec io_store)
  ↔ (∀ k input_spec,
       input_parameters task_inputs_spec !! k = Some input_spec →
       match input_spec with
       | task_output_parameter producer_task output_parameter_key =>
           is_Some (task_output_data io_store !! (producer_task, output_parameter_key))
       | runtime_value (constant c) => wire_tagged c = true
       | component_input_parameter name =>
           is_Some (parent_input_data io_store !! name)
       | runtime_value _ | task_final_status | input_parameter_not_set => False
       end)
    ∧ (∀ k input_spec,
         input_artifacts task_inputs_spec !! k = Some input_spec →
         match input_spec with
         | task_output_artifact producer_task output_artifact_key =>
             is_Some (task_output_data io_store !! (producer_task, output_artifact_key))
         | component_input_artifact name =>
             is_Some (parent_input_data io_store !! name)
         | input_artifact_not_set => False
         end).
Proof.
  rewrite make_task_arguments_Ok_iff. split.
  - intros [Hparams Harts]. split.
    + intros k input_spec Hk. by apply parameter_argument_Ok_iff, (Hparams k).
    + intros k input_spec Hk. by apply artifact_argument_Ok_iff, (Harts k).
  - intros [Hparams Harts]. split.
    + intros k input_spec Hk. by apply parameter_argument_Ok_iff, (Hparams k).
    + intros k input_spec Hk. by apply artifact_argument_Ok_iff, (Harts k).
Qed.

(** X19.  The arguments [make_task_arguments] returns have the names of
    the parameter inputs and of the artifact inputs as keys, and under a
    name that is both, the artifact is the argument. *)
Theorem task_arguments_keys_and_precedence task_inputs_spec io_store task_arguments
    (Hargs : make_task_arguments task_inputs_spec io_store = Ok task_arguments) :
  (∀ k, is_Some (task_arguments !! k)
        ↔ is_Some (input_parameters task_inputs_spec !! k)
          ∨ is_Some (input_artifacts task_inputs_spec !! k))
  ∧ (∀ k input_spec, input_artifacts task_inputs_spec !! k = Some input_spec →
       ∃ v, artifact_argument io_store input_spec = Ok v
            ∧ task_arguments !! k = Some v).
Proof.
  split.
  - intros k. pose proof (make_task_arguments_inv _ _ _ Hargs k) as Hk.
    destruct (input_artifacts task_inputs_spec !! k) as [a | ].
    + destruct Hk as (v & _ & ->). split; [ intros _; right | ]; by eexists.
    + destruct (input_parameters task_inputs_spec !! k) as [p | ].
      * destruct Hk as (v & _ & ->). split; [ intros _; left | ]; by eexists.
      * rewrite Hk. split; [ by intros [? ?] | by intros [[? ?] | [? ?]] ].
  - intros k input_spec Hk. pose proof (make_task_arguments_inv _ _ _ Hargs k) as Hinv.
    by rewrite Hk in Hinv.
Qed.

(** A task whose name [data] is both a parameter input and an artifact
    input. *)
Definition sample_clash_inputs : TaskInputsSpec :=
  {| input_parameters := {[ "data" := component_input_parameter "p" ]};
     input_artifacts := {[ "data" := component_input_artifact "a" ]} |}.

Definition sample_clash_store : IOStore :=
  {| parent_input_data := {[ "p" := PyStr "parameter"; "a" := PyStr "artifact" ]};
     task_output_data := ∅ |}.

Definition sample_clash_arguments : gmap string PyValue :=
  {[ "data" := PyStr "artifact" ]}.

Lemma task_arguments_keys_and_precedence_witness :
  (∀ k, is_Some (sample_clash_arguments !! k)
        ↔ is_Some (input_parameters sample_clash_inputs !! k)
          ∨ is_Some (input_artifacts sample_clash_inputs !! k))
  ∧ (∀ k input_spec, input_artifacts sample_clash_inputs !! k = Some input_spec →
       ∃ v, artifact_argument sample_clash_store input_spec = Ok v
            ∧ sample_clash_arguments !! k = Some v).
Proof.
  apply (task_arguments_keys_and_precedence sample_clash_inputs sample_clash_store
           sample_clash_arguments).
  vm_compute. reflexivity.
Defined.

Lemma put_task_outputs_lookup task_name outputs io_store t k :
  task_output_data (put_task_outputs task_name outputs io_store) !! (t, k)
  = if decide (t = task_name)
    then match outputs !! k with
         | Some v => Some v
         | None => task_output_data io_store !! (t, k)
         end
    else task_output_data io_store !! (t, k).
Proof.
  unfold put_task_outputs.
  assert (Hnodup : NoDup (map_to_list outputs).*1) by apply NoDup_fst_map_to_list.
  assert (Hin : ∀ v, (k, v) ∈ map_to_list outputs ↔ outputs !! k = Some v)
    by (intros v; apply elem_of_map_to_list).
  revert Hnodup Hin. generalize (outputs !! k) as found.
  induction (map_to_list outputs) as [ | [k' v'] items IH ] using rev_ind;
    intros found Hnodup Hin.
  - simpl. destruct found as [v | ]; [ | by destruct (decide _) ].
    exfalso. eapply elem_of_nil. by apply Hin.
  - rewrite foldl_app. simpl. rewrite fmap_app in Hnodup.
    apply NoDup_app in Hnodup as (Hnodup & Hfresh & _).
    destruct (decide ((task_name, k') = (t, k))) as [[= -> ->] | Hne].
    + rewrite lookup_insert_eq, decide_True by done.
      assert (Hhere : found = Some v').
      { apply Hin. apply elem_of_app. right. apply list_elem_of_here. }
      by rewrite Hhere.
    + rewrite lookup_insert_ne by done.
      destruct (decide (k' = k)) as [-> | Hk].
      * rewrite decide_False by congruence.
        specialize (IH None Hnodup). rewrite decide_False in IH by congruence.
        apply IH. intros v. split; [ | done ]. intros Hv. exfalso.
        apply (Hfresh k); [ | apply list_elem_of_here ].
        apply list_elem_of_fmap. by exists (k, v).
      * apply IH; [ done | ].
        intros v. rewrite <- Hin, elem_of_app, list_elem_of_singleton.
        split; [ by left | ]. intros [? | [= ? ?]]; done.
Qed.

Lemma put_task_outputs_parent_inputs task_name outputs io_store :
  parent_input_data (put_task_outputs task_name outputs io_store)
  = parent_input_data io_store.
Proof.
  unfold put_task_outputs.
  induction (map_to_list outputs) as [ | [k v] items IH ] using rev_ind; [ done | ].
  by rewrite foldl_app.
Qed.

(** X20.  Once the outputs of a task are recorded, each of them is read
    back under the name of the task and its key; the outputs recorded for
    other tasks and the parent inputs read as before. *)
Theorem recorded_outputs_are_read_back task_name outputs io_store :
  (∀ k, get_task_output task_name k (put_task_outputs task_name outputs io_store)
        = match outputs !! k with
          | Some v => Ok v
          | None => get_task_output task_name k io_store
          end)
  ∧ (∀ t k, t ≠ task_name →
            get_task_output t k (put_task_outputs task_name outputs io_store)
            = get_task_output t k io_store)
  ∧ (∀ name, get_parent_input name (put_task_outputs task_name outputs io_store)
             = get_parent_input name io_store).
Proof.
  split; [ | split ].
  - intros k. unfold get_task_output.
    rewrite put_task_outputs_lookup, decide_True by done.
    by destruct (outputs !! k).
  - intros t k Hne. unfold get_task_output.
    by rewrite put_task_outputs_lookup, decide_False.
  - intros name. unfold get_parent_input.
    by rewrite put_task_outputs_parent_inputs.
Qed.

(** X21.  The outputs of a graph level are read from the task outputs of
    the store: an output declared as an artifact is the output its single
    selector names, any other declared output is the task output its
    parameter selector names, and there is no further key. *)
Theorem dag_outputs_projection dag_outputs_spec io_store outs k
    (Houts : get_dag_outputs dag_outputs_spec io_store = Ok outs) :
  match dag_output_artifacts dag_outputs_spec !! k with
  | Some artifact_selectors =>
      ∃ artifact_selector,
        artifact_selectors = [artifact_selector]
        ∧ is_Some (outs !! k)
        ∧ outs !! k = task_output_data io_store
                        !! (producer_subtask artifact_selector,
                            output_artifact_key artifact_selector)
  | None =>
      match dag_output_parameters dag_outputs_spec !! k with
      | Some parameter_selector_spec =>
          ∃ producer_subtask output_parameter_key,
            parameter_selector_spec
            = value_from_parameter producer_subtask output_parameter_key
            ∧ is_Some (outs !! k)
            ∧ outs !! k = task_output_data io_store
                            !! (producer_subtask, output_parameter_key)
      | None => outs !! k = None
      end
  end.
Proof.
  unfold get_dag_outputs in Houts.
  destruct (get_dag_output_parameters _ _) as [output_params | e] eqn:Hparams;
    [ | done ].
  destruct (get_dag_output_artifacts _ _) as [output_artifacts | e] eqn:Harts;
    [ | done ].
  injection Houts as <-.
  pose proof (gmap_comprehension_inv _ _ _ Harts k) as Hak.
  pose proof (gmap_comprehension_inv _ _ _ Hparams k) as Hpk.
  destruct (dag_output_artifacts dag_outputs_spec !! k) as [selectors | ].
  - destruct Hak as (v & Hv & Hak).
    destruct selectors as [ | selector [ | ? ? ] ]; try done.
    exists selector. rewrite (lookup_union_Some_l _ _ _ _ Hak).
    unfold get_task_output in Hv.
    destruct (task_output_data io_store !! _); [ | done ].
    injection Hv as <-. split; [ done | ]. split; [ by eexists | done ].
  - rewrite lookup_union_r by done.
    destruct (dag_output_parameters dag_outputs_spec !! k) as [selector | ];
      [ | done ].
    destruct Hpk as (v & Hv & ->). destruct selector as [ t key | | ]; try done.
    exists t, key. unfold get_task_output in Hv.
    destruct (task_output_data io_store !! _); [ | done ].
    injection Hv as <-. split; [ done | ]. split; [ by eexists | done ].
Qed.

(** The graph with the single task [t1] whose output [y] is the graph
    output [result]. *)
Definition sample_result_outputs : DagOutputsSpec :=
  {| dag_output_parameters := {[ "result" := value_from_parameter "t1" "y" ]};
     dag_output_artifacts := ∅ |}.

Definition sample_result_store : IOStore :=
  {| parent_input_data := ∅; task_output_data := {[ ("t1", "y") := PyInt 5 ]} |}.

Lemma dag_outputs_projection_witness :
  match dag_output_artifacts sample_result_outputs !! "result" with
  | Some artifact_selectors =>
      ∃ artifact_selector,
        artifact_selectors = [artifact_selector]
        ∧ is_Some (({[ "result" := PyInt 5 ]} : gmap string PyValue) !! "result")
        ∧ ({[ "result" := PyInt 5 ]} : gmap string PyValue) !! "result"
          = task_output_data sample_result_store
              !! (producer_subtask artifact_selector,
                  output_artifact_key artifact_selector)
  | None =>
      match dag_output_parameters sample_result_outputs !! "result" with
      | Some parameter_selector_spec =>
          ∃ producer_subtask output_parameter_key,
            parameter_selector_spec
            = value_from_parameter producer_subtask output_parameter_key
            ∧ is_Some (({[ "result" := PyInt 5 ]} : gmap string PyValue) !! "result")
            ∧ ({[ "result" := PyInt 5 ]} : gmap string PyValue) !! "result"
              = task_output_data sample_result_store
                  !! (producer_subtask, output_parameter_key)
      | None => ({[ "result" := PyInt 5 ]} : gmap string PyValue) !! "result" = None
      end
  end.
Proof.
  apply (dag_outputs_projection sample_result_outputs sample_result_store
           {[ "result" := PyInt 5 ]} "result").
  vm_compute. reflexivity.
Defined.

(** X22.  [get_dag_outputs] returns exactly when every declared parameter
    output selects the recorded output of one task ([dsl.OneOf] and an
    unset selector raise) and every declared artifact output has exactly
    one selector, of a recorded output. *)
Theorem dag_outputs_returns_iff dag_outputs_spec io_store :
  is_Ok (get_dag_outputs dag_outputs_spec io_store)
  ↔ (∀ k parameter_selector_spec,
       dag_output_parameters dag_outputs_spec !! k = Some parameter_selector_spec →
       ∃ producer_subtask output_parameter_key,
         parameter_selector_spec
         = value_from_parameter producer_subtask output_parameter_key
         ∧ is_Some (task_output_data io_store
                      !! (producer_subtask, output_parameter_key)))
    ∧ (∀ k artifact_selectors,
         dag_output_artifacts dag_outputs_spec !! k = Some artifact_selectors →
         ∃ artifact_selector,
           artifact_selectors = [artifact_selector]
           ∧ is_Some (task_output_data io_store
                        !! (producer_subtask artifact_selector,
                            output_artifact_key artifact_selector))).
Proof.
  unfold get_dag_outputs. split.
  - destruct (get_dag_output_parameters _ _) as [output_params | e] eqn:Hparams;
      [ | by intros [? ?] ].
    destruct (get_dag_output_artifacts _ _) as [output_artifacts | e] eqn:Harts;
      [ | by intros [? ?] ].
    intros _. split.
    + intros k selector Hk. pose proof (gmap_comprehension_inv _ _ _ Hparams k) as Hinv.
      rewrite Hk in Hinv. destruct Hinv as (v & Hv & _).
      destruct selector as [ t key | | ]; try done. exists t, key.
      split; [ done | ]. unfold get_task_output in Hv.
      destruct (task_output_data io_store !! _); [ by eexists | done ].
    + intros k selectors Hk. pose proof (gmap_comprehension_inv _ _ _ Harts k) as Hinv.
      rewrite Hk in Hinv. destruct Hinv as (v & Hv & _).
      destruct selectors as [ | selector [ | ? ? ] ]; try done. exists selector.
      split; [ done | ]. unfold get_task_output in Hv.
      destruct (task_output_data io_store !! _); [ by eexists | done ].
  - intros [Hparams Harts].
    destruct (gmap_comprehension_total
                (λ (_ : string) parameter_selector_spec,
                   match parameter_selector_spec with
                   | value_from_parameter producer_subtask output_parameter_key =>
                       get_task_output producer_subtask output_parameter_key io_store
                   | value_from_oneof =>
                       Raise (ValueError "'dsl.OneOf' is not yet supported in local execution.")
                   | output_parameter_not_set =>
                       Raise (ValueError "Got unknown 'parameter_selector_spec' kind")
                   end)
                (dag_output_parameters dag_outputs_spec)) as [output_params Hp].
    { intros k selector Hk. destruct (Hparams k selector Hk) as (t & key & -> & [v Hv]).
      unfold get_task_output. rewrite Hv. by eexists. }
    unfold get_dag_output_parameters. rewrite Hp.
    destruct (gmap_comprehension_total
                (λ (_ : string) artifact_selectors,
                   match artifact_selectors with
                   | [artifact_selector] =>
                       get_task_output (producer_subtask artifact_selector)
                         (output_artifact_key artifact_selector) io_store
                   | _ => Raise (ValueError "Expected 1 artifact in ArtifactSelectorSpec.")
                   end)
                (dag_output_artifacts dag_outputs_spec)) as [output_artifacts Ha].
    { intros k selectors Hk. destruct (Harts k selectors Hk) as (selector & -> & [v Hv]).
      unfold get_task_output. rewrite Hv. by eexists. }
    unfold get_dag_output_artifacts. rewrite Ha. by eexists.
Qed.

Section runner.

(** The outside world (processes, containers, files) and the constant
    context of a run: resource name, pipeline root, runner, unique id. *)
Variable World : Type.
Variable Context : Type.

(** The collaborators: [graph_utils.topological_sort_tasks],
    [importer_handler.run_importer] and
    [task_dispatcher.run_single_task_implementation], the last one called
    with [raise_on_error=False]. *)
Variable topological_sort_tasks :
  list (string * PipelineTaskSpec) → result (list string).
Variable run_importer :
  Context → string → ComponentSpec → ExecutorSpec → gmap string PyValue →
  World → World * result (gmap string PyValue * Status).
Variable run_single_task_implementation :
  Context → string → ComponentSpec → ExecutorSpec → gmap string PyValue →
  World → World * result (gmap string PyValue * Status).

Variable context : Context.
Variable executors : gmap string ExecutorSpec.
Variable components : gmap string ComponentSpec.

(** The bookkeeping after a collaborator returned: the event, and
    [fail_task_name = task_name if task_status == FAILURE else None]. *)
Definition dispatched (task_name : string)
    (call : World * result (gmap string PyValue * Status))
    : World * list Event * result DagResult :=
  match call with
  | (w, Ok (outputs, task_status)) =>
      (w, [Dispatched task_name (Ok task_status)],
       Ok (outputs, task_status,
           match task_status with FAILURE => Some task_name | SUCCESS => None end))
  | (w, Raise e) => (w, [Dispatched task_name (Raise e)], Raise e)
  end.

(** One iteration of the loop of [run_dag], up to the status test;
    [run_sub_dag] is the recursive call on a fresh store. *)
Definition run_task
    (run_sub_dag : ComponentSpec → gmap string PyValue → World →
                   World * list Event * result DagResult)
    (dag_spec : DagSpec) (task_name : string) (io_store : IOStore) (w : World)
    : World * list Event * result DagResult :=
  let task_spec := tasks_getitem (tasks dag_spec) task_name in
  match validate_task_spec_not_loop_or_condition task_spec with
  | Raise e => (w, [], Raise e)
  | Ok _ =>
      let component_name := component_ref_name task_spec in
      match dict_getitem components component_name with
      | Raise e => (w, [], Raise e)
      | Ok component_spec =>
          match implementation component_spec with
          | dag _ =>
              match make_task_arguments (inputs task_spec) io_store with
              | Raise e => (w, [], Raise e)
              | Ok dag_arguments => run_sub_dag component_spec dag_arguments w
              end
          | executor_label executor_key =>
              match dict_getitem executors executor_key with
              | Raise e => (w, [], Raise e)
              | Ok executor_spec =>
                  match make_task_arguments (inputs task_spec) io_store with
                  | Raise e => (w, [], Raise e)
                  | Ok task_arguments =>
                      match executor_spec with
                      | importer _ =>
                          dispatched task_name
                            (run_importer context component_name component_spec
                               executor_spec task_arguments w)
                      | container _ _ =>
                          dispatched task_name
                            (run_single_task_implementation context component_name
                               component_spec executor_spec task_arguments w)
                      | _ =>
                          (w, [], Raise (ValueError "Got unknown spec in ExecutorSpec. Only dsl.component, dsl.container_component, and dsl.importer are supported in local pipeline execution."))
                      end
                  end
              end
          | implementation_not_set =>
              (w, [], Raise (ValueError "Got unknown component implementation"))
          end
      end
  end.

(** The loop [while sorted_tasks: task_name = sorted_tasks.pop() ...] over
    the tasks in the order they are popped. *)
Fixpoint run_tasks
    (run_sub_dag : ComponentSpec → gmap string PyValue → World →
                   World * list Event * result DagResult)
    (dag_spec : DagSpec) (popped : list string) (io_store : IOStore) (w : World)
    : World * IOStore * list Event * result LoopExit :=
  match popped with
  | [] => (w, io_store, [], Ok Exhausted)
  | task_name :: rest =>
      match run_task run_sub_dag dag_spec task_name io_store w with
      | (w1, events1, Raise e) => (w1, io_store, events1, Raise e)
      | (w1, events1, Ok (_, FAILURE, fail_task_name)) =>
          (w1, io_store, events1, Ok (Failed fail_task_name))
      | (w1, events1, Ok (outputs, SUCCESS, _)) =>
          match run_tasks run_sub_dag dag_spec rest
                  (put_task_outputs task_name outputs io_store) w1 with
          | (w2, io_store2, events2, exit) =>
              (w2, io_store2, events1 ++ events2, exit)
          end
      end
  end.

(** The caller of a nested graph drops the store of the nested run. *)
Definition forget_store (run : World * IOStore * list Event * result DagResult)
    : World * list Event * result DagResult :=
  match run with
  | (w, _, events, r) => (w, events, r)
  end.

(** [run_dag]; [depth] bounds the nesting of the calls, as the recursion
    limit of the interpreter does. *)
Fixpoint run_dag (depth : nat) (dag_component_spec : ComponentSpec)
    (dag_arguments : gmap string PyValue) (io_store : IOStore) (w : World)
    : World * IOStore * list Event * result DagResult :=
  match depth with
  | O => (w, io_store, [], Raise RecursionError)
  | S depth' =>
      match bind_defaults_to_dag_arguments dag_arguments
              (input_definitions dag_component_spec) with
      | Raise e => (w, io_store, [], Raise e)
      | Ok dag_arguments_with_defaults =>
          let io_store := put_parent_inputs dag_arguments_with_defaults io_store in
          let dag_spec := component_dag dag_component_spec in
          match topological_sort_tasks (tasks dag_spec) with
          | Raise e => (w, io_store, [], Raise e)
          | Ok sorted_tasks =>
              let run_sub_dag component_spec arguments w :=
                forget_store (run_dag depth' component_spec arguments new_IOStore w) in
              match run_tasks run_sub_dag dag_spec (rev sorted_tasks) io_store w with
              | (w', io_store', events, Raise e) => (w', io_store', events, Raise e)
              | (w', io_store', events, Ok (Failed fail_task_name)) =>
                  (w', io_store', events, Ok (∅, FAILURE, fail_task_name))
              | (w', io_store', events, Ok Exhausted) =>
                  match get_dag_outputs (dag_outputs dag_spec) io_store' with
                  | Ok dag_outs => (w', io_store', events, Ok (dag_outs, SUCCESS, None))
                  | Raise e => (w', io_store', events, Raise e)
                  end
              end
          end
      end
  end.

(** *** Fail-fast *)

Definition no_failure (events : list Event) : Prop :=
  ∀ t, Dispatched t (Ok FAILURE) ∉ events.

(** Either no dispatched task failed, or exactly the last one did and its
    name is the one reported. *)
Definition fails_last (events : list Event) (failure : option (option string))
    : Prop :=
  match failure with
  | Some name =>
      ∃ pre t, events = pre ++ [Dispatched t (Ok FAILURE)]
               ∧ no_failure pre ∧ name = Some t
  | None => no_failure events
  end.

Definition failure_of (r : result DagResult) : option (option string) :=
  match r with
  | Ok (_, FAILURE, name) => Some name
  | _ => None
  end.

Definition failure_of_exit (r : result LoopExit) : option (option string) :=
  match r with
  | Ok (Failed name) => Some name
  | _ => None
  end.

Lemma no_failure_nil : no_failure [].
Proof. intros t Ht. by apply elem_of_nil in Ht. Qed.

Lemma no_failure_app events1 events2 :
  no_failure events1 → no_failure events2 → no_failure (events1 ++ events2).
Proof. intros H1 H2 t [Ht | Ht]%elem_of_app; [ by apply (H1 t) | by apply (H2 t) ]. Qed.

Lemma fails_last_app events1 events2 failure :
  no_failure events1 → fails_last events2 failure →
  fails_last (events1 ++ events2) failure.
Proof.
  intros H1. destruct failure as [name | ]; simpl.
  - intros (pre & t & -> & Hpre & ->). exists (events1 ++ pre), t.
    rewrite app_assoc. split; [ done | ]. split; [ | done ].
    by apply no_failure_app.
  - by apply no_failure_app.
Qed.

Lemma dispatched_fails_last task_name call w events r :
  dispatched task_name call = (w, events, r) → fails_last events (failure_of r).
Proof.
  destruct call as [w0 [[outputs [ | ]] | e]]; simpl; intros [= <- <- <-]; simpl.
  - intros t [Ht | Ht]%elem_of_cons; [ done | by apply elem_of_nil in Ht ].
  - exists [], task_name. split; [ done | ]. split; [ apply no_failure_nil | done ].
  - intros t [Ht | Ht]%elem_of_cons; [ done | by apply elem_of_nil in Ht ].
Qed.

Section loop.

Variable run_sub_dag :
  ComponentSpec → gmap string PyValue → World → World * list Event * result DagResult.
Hypothesis run_sub_dag_fails_last :
  ∀ component_spec arguments w w' events r,
    run_sub_dag component_spec arguments w = (w', events, r) →
    fails_last events (failure_of r).

Lemma run_task_fails_last dag_spec task_name io_store w w' events r :
  run_task run_sub_dag dag_spec task_name io_store w = (w', events, r) →
  fails_last events (failure_of r).
Proof.
  unfold run_task.
  destruct (validate_task_spec_not_loop_or_condition _);
    [ | intros [= <- <- <-]; apply no_failure_nil ].
  destruct (dict_getitem components _) as [component_spec | e];
    [ | intros [= <- <- <-]; apply no_failure_nil ].
  destruct (implementation component_spec) as [d | executor_key | ].
  - destruct (make_task_arguments _ _) as [dag_arguments | e];
      [ | intros [= <- <- <-]; apply no_failure_nil ].
    apply run_sub_dag_fails_last.
  - destruct (dict_getitem executors _) as [executor_spec | e];
      [ | intros [= <- <- <-]; apply no_failure_nil ].
    destruct (make_task_arguments _ _) as [task_arguments | e];
      [ | intros [= <- <- <-]; apply no_failure_nil ].
    destruct executor_spec;
      try (intros [= <- <- <-]; apply no_failure_nil);
      apply dispatched_fails_last.
  - intros [= <- <- <-]. apply no_failure_nil.
Qed.

Lemma run_tasks_fails_last dag_spec popped io_store w w' io_store' events exit :
  run_tasks run_sub_dag dag_spec popped io_store w = (w', io_store', events, exit) →
  fails_last events (failure_of_exit exit).
Proof.
  revert io_store w w' io_store' events exit.
  induction popped as [ | task_name rest IH ];
    intros io_store w w' io_store' events exit; simpl.
  - intros [= <- <- <- <-]. apply no_failure_nil.
  - destruct (run_task _ _ _ _ _) as [[w1 events1] r1] eqn:Htask.
    apply run_task_fails_last in Htask.
    destruct r1 as [[[outputs [ | ]] fail_task_name] | e].
    + destruct (run_tasks _ _ rest _ _) as [[[w2 io_store2] events2] exit2] eqn:Hrest.
      intros [= <- <- <- <-]. apply fails_last_app; [ exact Htask | ].
      by eapply IH.
    + by intros [= <- <- <- <-].
    + by intros [= <- <- <- <-].
Qed.

End loop.

Lemma run_dag_fails_last depth dag_component_spec dag_arguments io_store w
    w' io_store' events r :
  run_dag depth dag_component_spec dag_arguments io_store w
  = (w', io_store', events, r) →
  fails_last events (failure_of r)
  ∧ ∀ outs name, r = Ok (outs, FAILURE, name) → outs = ∅.
Proof.
  revert dag_component_spec dag_arguments io_store w w' io_store' events r.
  induction depth as [ | depth IH ];
    intros dag_component_spec dag_arguments io_store w w' io_store' events r; simpl.
  - intros [= <- <- <- <-]. split; [ apply no_failure_nil | done ].
  - destruct (bind_defaults_to_dag_arguments _ _) as [with_defaults | e];
      [ | intros [= <- <- <- <-]; split; [ apply no_failure_nil | done ] ].
    destruct (topological_sort_tasks _) as [sorted_tasks | e];
      [ | intros [= <- <- <- <-]; split; [ apply no_failure_nil | done ] ].
    destruct (run_tasks _ _ _ _ _) as [[[w1 io_store1] events1] exit] eqn:Hloop.
    apply run_tasks_fails_last in Hloop.
    + destruct exit as [[ | fail_task_name] | e].
      * destruct (get_dag_outputs _ _); intros [= <- <- <- <-]; by split.
      * intros [= <- <- <- <-]. split; [ done | ]. by intros outs name [= <- _].
      * intros [= <- <- <- <-]. by split.
    + intros component_spec arguments w0 w0' events0 r0. unfold forget_store.
      destruct (run_dag depth _ _ _ _) as [[[w2 io_store2] events2] r2] eqn:Hsub.
      intros [= <- <- <-]. by apply IH in Hsub as [? _].
Qed.

(** A FAILURE among the events of a run is the last event, and the run
    returns the empty output map, FAILURE, and the name in that event. *)
Lemma failed_event_is_last depth dag_component_spec dag_arguments io_store w
    w' io_store' events r before failed after
    (Hrun : run_dag depth dag_component_spec dag_arguments io_store w
            = (w', io_store', events, r))
    (Hfailed : events = before ++ Dispatched failed (Ok FAILURE) :: after) :
  r = Ok (∅, FAILURE, Some failed) ∧ after = [].
Proof.
  apply run_dag_fails_last in Hrun as [Hlast Hempty].
  assert (Hin : Dispatched failed (Ok FAILURE) ∈ events).
  { rewrite Hfailed. apply elem_of_app. right. apply list_elem_of_here. }
  destruct r as [[[outs [ | ]] name] | e]; simpl in Hlast;
    try (by exfalso; apply (Hlast failed)).
  destruct Hlast as (pre & t & Hevents & Hpre & ->).
  rewrite (Hempty outs (Some t) eq_refl).
  rewrite Hfailed in Hevents.
  destruct after as [ | next after' ] using rev_ind.
  - apply app_inj_tail in Hevents as [_ [= ->]]. done.
  - exfalso. clear IHafter'.
    rewrite app_comm_cons, app_assoc in Hevents.
    apply app_inj_tail in Hevents as [<- _].
    apply (Hpre failed). apply elem_of_app. right. apply list_elem_of_here.
Qed.

(** *** Validation inside the loop *)

(** The loop over [before ++ rest] is the loop over [before], followed by
    the loop over [rest] when every task of [before] succeeded. *)
Lemma run_tasks_app run_sub_dag dag_spec before rest io_store w :
  run_tasks run_sub_dag dag_spec (before ++ rest) io_store w
  = match run_tasks run_sub_dag dag_spec before io_store w with
    | (w1, io_store1, events1, Ok Exhausted) =>
        match run_tasks run_sub_dag dag_spec rest io_store1 w1 with
        | (w2, io_store2, events2, exit) => (w2, io_store2, events1 ++ events2, exit)
        end
    | stopped => stopped
    end.
Proof.
  revert io_store w. induction before as [ | task_name before IH ];
    intros io_store w; simpl.
  - by destruct (run_tasks _ _ rest _ _) as [[[w2 io_store2] events2] exit].
  - destruct (run_task _ _ _ _ _) as [[w1 events1] [[[outputs [ | ]] name] | e]];
      try done.
    rewrite IH.
    destruct (run_tasks _ _ before _ _)
      as [[[w2 io_store2] events2] [[ | name2] | e2]]; try done.
    destruct (run_tasks _ _ rest _ _) as [[[w3 io_store3] events3] exit].
    by rewrite app_assoc.
Qed.

(** A run stops at a task the check rejects: it is the run of the tasks
    popped before that task. *)
Lemma run_dag_stops_at_rejected_task
    depth dag_component_spec dag_arguments io_store w
    with_defaults sorted_tasks before task_name after e
    (Hdefaults : bind_defaults_to_dag_arguments dag_arguments
                   (input_definitions dag_component_spec) = Ok with_defaults)
    (Hsorted : topological_sort_tasks (tasks (component_dag dag_component_spec))
               = Ok sorted_tasks)
    (Hpopped : rev sorted_tasks = before ++ task_name :: after)
    (Hcheck : validate_task_spec_not_loop_or_condition
                (tasks_getitem (tasks (component_dag dag_component_spec)) task_name)
              = Raise e) :
  run_dag (S depth) dag_component_spec dag_arguments io_store w
  = match run_tasks
            (λ component_spec arguments w,
               forget_store (run_dag depth component_spec arguments new_IOStore w))
            (component_dag dag_component_spec) before
            (put_parent_inputs with_defaults io_store) w with
    | (w1, io_store1, events1, Ok Exhausted) => (w1, io_store1, events1, Raise e)
    | (w1, io_store1, events1, Ok (Failed fail_task_name)) =>
        (w1, io_store1, events1, Ok (∅, FAILURE, fail_task_name))
    | (w1, io_store1, events1, Raise e1) => (w1, io_store1, events1, Raise e1)
    end.
Proof.
  simpl. rewrite Hdefaults, Hsorted, Hpopped, run_tasks_app.
  destruct (run_tasks _ _ before _ _)
    as [[[w1 io_store1] events1] [[ | name] | e1]]; try done.
  simpl. unfold run_task. rewrite Hcheck. by rewrite app_nil_r.
Qed.

(** The check raises on a conditional trigger, and otherwise on a loop
    iterator of either kind; it returns on no other task. *)
Lemma validate_raises_iff_unsupported task_spec :
  (trigger_condition task_spec ≠ "" ∨ is_Some (iterator task_spec))
  ↔ validate_task_spec_not_loop_or_condition task_spec
    = Raise (ValueError
               (if bool_decide (trigger_condition task_spec ≠ "")
                then "dsl.Condition is not supported by local pipeline execution."
                else "dsl.ParallelFor is not supported by local pipeline execution.")).
Proof.
  unfold validate_task_spec_not_loop_or_condition.
  destruct (bool_decide (trigger_condition task_spec ≠ "")) eqn:Hcond.
  - apply bool_decide_eq_true in Hcond. split; [ done | by left ].
  - apply bool_decide_eq_false in Hcond.
    destruct (iterator task_spec) as [kind | ].
    + split; [ done | intros _; right; by eexists ].
    + split; [ | done ]. intros [? | [? ?]]; done.
Qed.

(** C4 as the code has it.  The check for a conditional trigger or a loop
    iterator is made on each task when it is popped.  With a task that
    carries a trigger condition or an iterator in the graph level, the run
    is the run of the tasks popped before it; when they all succeed,
    [run_dag] raises the [ValueError] of the check there (the one about
    [dsl.Condition] when there is a condition, the one about
    [dsl.ParallelFor] otherwise), and neither that task nor a task after it
    is dispatched. *)
Theorem unsupported_task_rejected_when_popped
    depth dag_component_spec dag_arguments io_store w
    with_defaults sorted_tasks before task_name after
    (Hdefaults : bind_defaults_to_dag_arguments dag_arguments
                   (input_definitions dag_component_spec) = Ok with_defaults)
    (Hsorted : topological_sort_tasks (tasks (component_dag dag_component_spec))
               = Ok sorted_tasks)
    (Hpopped : rev sorted_tasks = before ++ task_name :: after)
    (Hunsupported :
       trigger_condition
         (tasks_getitem (tasks (component_dag dag_component_spec)) task_name) ≠ ""
       ∨ is_Some (iterator
                    (tasks_getitem (tasks (component_dag dag_component_spec))
                       task_name))) :
  run_dag (S depth) dag_component_spec dag_arguments io_store w
  = match run_tasks
            (λ component_spec arguments w,
               forget_store (run_dag depth component_spec arguments new_IOStore w))
            (component_dag dag_component_spec) before
            (put_parent_inputs with_defaults io_store) w with
    | (w1, io_store1, events1, Ok Exhausted) =>
        (w1, io_store1, events1,
         Raise (ValueError
                  (if bool_decide
                        (trigger_condition
                           (tasks_getitem (tasks (component_dag dag_component_spec))
                              task_name) ≠ "")
                   then "dsl.Condition is not supported by local pipeline execution."
                   else "dsl.ParallelFor is not supported by local pipeline execution.")))
    | (w1, io_store1, events1, Ok (Failed fail_task_name)) =>
        (w1, io_store1, events1, Ok (∅, FAILURE, fail_task_name))
    | (w1, io_store1, events1, Raise e1) => (w1, io_store1, events1, Raise e1)
    end.
Proof.
  apply validate_raises_iff_unsupported in Hunsupported.
  by eapply run_dag_stops_at_rejected_task.
Qed.

(** *** The shape of a run *)

Definition all_succeeded (events : list Event) : Prop :=
  Forall (λ event, ∃ t, event = Dispatched t (Ok SUCCESS)) events.

(** How a run ends: every task succeeded, a task failed, or an exception
    was raised. *)
Inductive Ending : Type :=
| Completed
| FailedAt (fail_task_name : option string)
| Raised (e : PyError).

Definition ending_of (r : result DagResult) : Ending :=
  match r with
  | Ok (_, SUCCESS, _) => Completed
  | Ok (_, FAILURE, name) => FailedAt name
  | Raise e => Raised e
  end.

Definition ending_of_exit (r : result LoopExit) : Ending :=
  match r with
  | Ok Exhausted => Completed
  | Ok (Failed name) => FailedAt name
  | Raise e => Raised e
  end.

(** The events of a run that ends in [ending]: successes, then at most one
    last call that failed or raised. *)
Definition trace_ends (events : list Event) (ending : Ending) : Prop :=
  match ending with
  | Completed => all_succeeded events
  | FailedAt name =>
      ∃ pre t, events = pre ++ [Dispatched t (Ok FAILURE)]
               ∧ all_succeeded pre ∧ name = Some t
  | Raised e =>
      ∃ pre, all_succeeded pre
             ∧ (events = pre ∨ ∃ t, events = pre ++ [Dispatched t (Raise e)])
  end.

Lemma trace_ends_raised_silently e : trace_ends [] (Raised e).
Proof. exists []. split; [ constructor | by left ]. Qed.

Lemma trace_ends_app events1 events2 ending :
  all_succeeded events1 → trace_ends events2 ending →
  trace_ends (events1 ++ events2) ending.
Proof.
  intros H1. destruct ending as [ | name | e ]; simpl.
  - by apply Forall_app_2.
  - intros (pre & t & -> & Hpre & ->). exists (events1 ++ pre), t.
    rewrite app_assoc. split; [ done | ]. split; [ by apply Forall_app_2 | done ].
  - intros (pre & Hpre & Hlast). exists (events1 ++ pre).
    split; [ by apply Forall_app_2 | ].
    destruct Hlast as [-> | (t & ->)]; [ by left | right ].
    exists t. by rewrite app_assoc.
Qed.

Lemma dispatched_trace_ends task_name call w events r :
  dispatched task_name call = (w, events, r) → trace_ends events (ending_of r).
Proof.
  destruct call as [w0 [[outputs [ | ]] | e]]; simpl; intros [= <- <- <-]; simpl.
  - constructor; [ by eexists | constructor ].
  - exists [], task_name. split; [ done | ]. split; [ constructor | done ].
  - exists []. split; [ constructor | ]. right. by exists task_name.
Qed.

Section shape.

Variable run_sub_dag :
  ComponentSpec → gmap string PyValue → World → World * list Event * result DagResult.
Hypothesis run_sub_dag_trace_ends :
  ∀ component_spec arguments w w' events r,
    run_sub_dag component_spec arguments w = (w', events, r) →
    trace_ends events (ending_of r).

Lemma run_task_trace_ends dag_spec task_name io_store w w' events r :
  run_task run_sub_dag dag_spec task_name io_store w = (w', events, r) →
  trace_ends events (ending_of r).
Proof.
  unfold run_task.
  destruct (validate_task_spec_not_loop_or_condition _);
    [ | intros [= <- <- <-]; apply trace_ends_raised_silently ].
  destruct (dict_getitem components _) as [component_spec | e];
    [ | intros [= <- <- <-]; apply trace_ends_raised_silently ].
  destruct (implementation component_spec) as [d | executor_key | ].
  - destruct (make_task_arguments _ _) as [dag_arguments | e];
      [ | intros [= <- <- <-]; apply trace_ends_raised_silently ].
    apply run_sub_dag_trace_ends.
  - destruct (dict_getitem executors _) as [executor_spec | e];
      [ | intros [= <- <- <-]; apply trace_ends_raised_silently ].
    destruct (make_task_arguments _ _) as [task_arguments | e];
      [ | intros [= <- <- <-]; apply trace_ends_raised_silently ].
    destruct executor_spec;
      try (intros [= <- <- <-]; apply trace_ends_raised_silently);
      apply dispatched_trace_ends.
  - intros [= <- <- <-]. apply trace_ends_raised_silently.
Qed.

Lemma run_tasks_trace_ends dag_spec popped io_store w w' io_store' events exit :
  run_tasks run_sub_dag dag_spec popped io_store w = (w', io_store', events, exit) →
  trace_ends events (ending_of_exit exit).
Proof.
  revert io_store w w' io_store' events exit.
  induction popped as [ | task_name rest IH ];
    intros io_store w w' io_store' events exit; simpl.
  - intros [= <- <- <- <-]. constructor.
  - destruct (run_task _ _ _ _ _) as [[w1 events1] r1] eqn:Htask.
    apply run_task_trace_ends in Htask.
    destruct r1 as [[[outputs [ | ]] fail_task_name] | e].
    + destruct (run_tasks _ _ rest _ _) as [[[w2 io_store2] events2] exit2] eqn:Hrest.
      intros [= <- <- <- <-]. apply trace_ends_app; [ exact Htask | ].
      by eapply IH.
    + by intros [= <- <- <- <-].
    + by intros [= <- <- <- <-].
Qed.

End shape.

Lemma run_dag_trace_ends depth dag_component_spec dag_arguments io_store w
    w' io_store' events r :
  run_dag depth dag_component_spec dag_arguments io_store w
  = (w', io_store', events, r) →
  trace_ends events (ending_of r)
  ∧ ∀ outs name, r = Ok (outs, SUCCESS, name) → name = None.
Proof.
  revert dag_component_spec dag_arguments io_store w w' io_store' events r.
  induction depth as [ | depth IH ];
    intros dag_component_spec dag_arguments io_store w w' io_store' events r; simpl.
  - intros [= <- <- <- <-]. split; [ apply trace_ends_raised_silently | done ].
  - destruct (bind_defaults_to_dag_arguments _ _) as [with_defaults | e];
      [ | intros [= <- <- <- <-]; split; [ apply trace_ends_raised_silently | done ] ].
    destruct (topological_sort_tasks _) as [sorted_tasks | e];
      [ | intros [= <- <- <- <-]; split; [ apply trace_ends_raised_silently | done ] ].
    destruct (run_tasks _ _ _ _ _) as [[[w1 io_store1] events1] exit] eqn:Hloop.
    apply run_tasks_trace_ends in Hloop.
    + destruct exit as [[ | fail_task_name] | e].
      * destruct (get_dag_outputs _ _); intros [= <- <- <- <-].
        -- split; [ done | ]. by intros outs name [= _ <-].
        -- split; [ | done ]. exists events1. split; [ done | by left ].
      * intros [= <- <- <- <-]. by split.
      * intros [= <- <- <- <-]. by split.
    + intros component_spec arguments w0 w0' events0 r0. unfold forget_store.
      destruct (run_dag depth _ _ _ _) as [[[w2 io_store2] events2] r2] eqn:Hsub.
      intros [= <- <- <-]. by apply IH in Hsub as [? _].
Qed.

(** *** The store of a graph level *)

Lemma run_tasks_store run_sub_dag dag_spec popped io_store w
    w' io_store' events exit :
  run_tasks run_sub_dag dag_spec popped io_store w = (w', io_store', events, exit) →
  parent_input_data io_store' = parent_input_data io_store
  ∧ ∀ t k v, task_output_data io_store' !! (t, k) = Some v →
             t ∈ popped ∨ task_output_data io_store !! (t, k) = Some v.
Proof.
  revert io_store w w' io_store' events exit.
  induction popped as [ | task_name rest IH ];
    intros io_store w w' io_store' events exit; simpl.
  - intros [= <- <- <- <-]. split; [ done | ]. intros t k v Hv. by right.
  - destruct (run_task _ _ _ _ _) as [[w1 events1] [[[outputs [ | ]] name] | e]].
    + destruct (run_tasks _ _ rest _ _) as [[[w2 io_store2] events2] exit2] eqn:Hrest.
      intros [= <- <- <- <-]. apply IH in Hrest as [Hparent Houtputs].
      split; [ by rewrite Hparent, put_task_outputs_parent_inputs | ].
      intros t k v Hv. destruct (Houtputs t k v Hv) as [Hin | Hold].
      * left. by apply list_elem_of_further.
      * rewrite put_task_outputs_lookup in Hold.
        destruct (decide (t = task_name)) as [-> | ?];
          [ left; apply list_elem_of_here | by right ].
    + intros [= <- <- <- <-]. split; [ done | ]. intros t k v Hv. by right.
    + intros [= <- <- <- <-]. split; [ done | ]. intros t k v Hv. by right.
Qed.

(** X24.  After a run of a graph level its store holds the bound arguments
    as parent inputs over what it held, and every task output in it was
    there before or is recorded under the name of a task of this level:
    what the tasks of a nested graph produce stays in the store of the
    nested run. *)
Theorem run_dag_store_scope depth dag_component_spec dag_arguments io_store w
    w' io_store' events r with_defaults sorted_tasks
    (Hdefaults : bind_defaults_to_dag_arguments dag_arguments
                   (input_definitions dag_component_spec) = Ok with_defaults)
    (Hsorted : topological_sort_tasks (tasks (component_dag dag_component_spec))
               = Ok sorted_tasks)
    (Hrun : run_dag (S depth) dag_component_spec dag_arguments io_store w
            = (w', io_store', events, r)) :
  (∀ name, parent_input_data io_store' !! name
           = match with_defaults !! name with
             | Some v => Some v
             | None => parent_input_data io_store !! name
             end)
  ∧ ∀ t k v, task_output_data io_store' !! (t, k) = Some v →
             t ∈ sorted_tasks ∨ task_output_data io_store !! (t, k) = Some v.
Proof.
  simpl in Hrun. rewrite Hdefaults, Hsorted in Hrun.
  destruct (run_tasks _ _ _ _ _) as [[[w1 io_store1] events1] exit] eqn:Hloop.
  apply run_tasks_store in Hloop as [Hparent Houtputs].
  assert (io_store' = io_store1) as ->.
  { destruct exit as [[ | name] | e]; [ destruct (get_dag_outputs _ _) | | ];
      by injection Hrun as <- <- <- <-. }
  split.
  - intros name. by rewrite Hparent, put_parent_inputs_lookup.
  - intros t k v Hv. destruct (Houtputs t k v Hv) as [Hin | Hold].
    + left. apply list_elem_of_In, in_rev. by apply list_elem_of_In.
    + right. revert Hold. unfold put_parent_inputs.
      induction (map_to_list with_defaults) as [ | [k' v'] items IH ] using rev_ind;
        [ done | ].
      by rewrite foldl_app.
Qed.

(** *** The depth bound *)

Section deeper.

Variables run_sub_dag run_sub_dag' :
  ComponentSpec → gmap string PyValue → World → World * list Event * result DagResult.
Hypothesis run_sub_dag_stable :
  ∀ component_spec arguments w w' events r,
    run_sub_dag component_spec arguments w = (w', events, r) →
    r ≠ Raise RecursionError →
    run_sub_dag' component_spec arguments w = (w', events, r).

Lemma run_task_stable dag_spec task_name io_store w w' events r :
  run_task run_sub_dag dag_spec task_name io_store w = (w', events, r) →
  r ≠ Raise RecursionError →
  run_task run_sub_dag' dag_spec task_name io_store w = (w', events, r).
Proof.
  unfold run_task.
  destruct (validate_task_spec_not_loop_or_condition _); [ | done ].
  destruct (dict_getitem components _) as [component_spec | e]; [ | done ].
  destruct (implementation component_spec) as [d | executor_key | ]; [ | done | done ].
  destruct (make_task_arguments _ _) as [dag_arguments | e]; [ | done ].
  apply run_sub_dag_stable.
Qed.

Lemma run_tasks_stable dag_spec popped io_store w w' io_store' events exit :
  run_tasks run_sub_dag dag_spec popped io_store w = (w', io_store', events, exit) →
  exit ≠ Raise RecursionError →
  run_tasks run_sub_dag' dag_spec popped io_store w = (w', io_store', events, exit).
Proof.
  revert io_store w w' io_store' events exit.
  induction popped as [ | task_name rest IH ];
    intros io_store w w' io_store' events exit; simpl; [ done | ].
  destruct (run_task run_sub_dag _ _ _ _) as [[w1 events1] r1] eqn:Htask.
  destruct r1 as [[[outputs [ | ]] name] | e].
  - rewrite (run_task_stable _ _ _ _ _ _ _ Htask) by done.
    destruct (run_tasks run_sub_dag _ rest _ _)
      as [[[w2 io_store2] events2] exit2] eqn:Hrest.
    intros [= <- <- <- <-] Hexit. by rewrite (IH _ _ _ _ _ _ Hrest Hexit).
  - by rewrite (run_task_stable _ _ _ _ _ _ _ Htask).
  - intros [= <- <- <- <-] Hexit.
    rewrite (run_task_stable _ _ _ _ _ _ _ Htask); [ done | ].
    intros [= ->]. by apply Hexit.
Qed.

End deeper.

Lemma run_dag_S depth dag_component_spec dag_arguments io_store w :
  run_dag (S depth) dag_component_spec dag_arguments io_store w
  = match bind_defaults_to_dag_arguments dag_arguments
            (input_definitions dag_component_spec) with
    | Raise e => (w, io_store, [], Raise e)
    | Ok dag_arguments_with_defaults =>
        match topological_sort_tasks (tasks (component_dag dag_component_spec)) with
        | Raise e =>
            (w, put_parent_inputs dag_arguments_with_defaults io_store, [], Raise e)
        | Ok sorted_tasks =>
            match run_tasks
                    (λ component_spec arguments w,
                       forget_store
                         (run_dag depth component_spec arguments new_IOStore w))
                    (component_dag dag_component_spec) (rev sorted_tasks)
                    (put_parent_inputs dag_arguments_with_defaults io_store) w with
            | (w', io_store', events, Raise e) => (w', io_store', events, Raise e)
            | (w', io_store', events, Ok (Failed fail_task_name)) =>
                (w', io_store', events, Ok (∅, FAILURE, fail_task_name))
            | (w', io_store', events, Ok Exhausted) =>
                match get_dag_outputs (dag_outputs (component_dag dag_component_spec))
                        io_store' with
                | Ok dag_outs => (w', io_store', events, Ok (dag_outs, SUCCESS, None))
                | Raise e => (w', io_store', events, Raise e)
                end
            end
        end
    end.
Proof. reflexivity. Qed.

Lemma run_dag_one_deeper depth :
  ∀ dag_component_spec dag_arguments io_store w w' io_store' events r,
    run_dag depth dag_component_spec dag_arguments io_store w
    = (w', io_store', events, r) →
    r ≠ Raise RecursionError →
    run_dag (S depth) dag_component_spec dag_arguments io_store w
    = (w', io_store', events, r).
Proof.
  induction depth as [ | depth IH ];
    intros dag_component_spec dag_arguments io_store w w' io_store' events r.
  - simpl. by intros [= <- <- <- <-].
  - rewrite (run_dag_S (S depth)), (run_dag_S depth).
    destruct (bind_defaults_to_dag_arguments _ _) as [with_defaults | e]; [ | done ].
    destruct (topological_sort_tasks _) as [sorted_tasks | e]; [ | done ].
    destruct (run_tasks _ _ _ _ _) as [[[w1 io_store1] events1] exit] eqn:Hloop.
    intros Hrun Hr.
    assert (Hexit : exit ≠ Raise RecursionError).
    { intros ->. by injection Hrun as <- <- <- <-. }
    erewrite run_tasks_stable; [ exact Hrun | | exact Hloop | exact Hexit ].
    intros component_spec arguments w0 w0' events0 r0. unfold forget_store.
    destruct (run_dag depth _ _ _ _) as [[[w2 io_store2] events2] r2] eqn:Hsub.
    intros [= <- <- <-] Hr2. by rewrite (IH _ _ _ _ _ _ _ _ Hsub Hr2).
Qed.

(** X27.  A component that is not a graph is run as a graph without
    tasks: given a sequencer that returns the empty stack for no tasks,
    [run_dag] binds the arguments, dispatches nothing and returns SUCCESS
    with no outputs. *)
Theorem run_dag_of_a_leaf_dispatches_nothing
    depth dag_component_spec dag_arguments io_store w with_defaults
    (Hleaf : ∀ d, implementation dag_component_spec ≠ dag d)
    (Hdefaults : bind_defaults_to_dag_arguments dag_arguments
                   (input_definitions dag_component_spec) = Ok with_defaults)
    (Hsorted : topological_sort_tasks [] = Ok []) :
  run_dag (S depth) dag_component_spec dag_arguments io_store w
  = (w, put_parent_inputs with_defaults io_store, [], Ok (∅, SUCCESS, None)).
Proof.
  rewrite run_dag_S, Hdefaults.
  assert (component_dag dag_component_spec = default_DagSpec) as ->.
  { unfold component_dag. destruct (implementation dag_component_spec) eqn:Himpl;
      [ by destruct (Hleaf d) | done | done ]. }
  simpl. by rewrite Hsorted.
Qed.

(** X25.  A run that does not end in a [RecursionError] does not depend on
    the depth bound: with any larger bound [run_dag] ends in the same
    world, store, events and result. *)
Theorem run_dag_deeper depth depth' dag_component_spec dag_arguments io_store w
    w' io_store' events r
    (Hrun : run_dag depth dag_component_spec dag_arguments io_store w
            = (w', io_store', events, r))
    (Hcompleted : r ≠ Raise RecursionError)
    (Hdeeper : depth ≤ depth') :
  run_dag depth' dag_component_spec dag_arguments io_store w
  = (w', io_store', events, r).
Proof.
  induction Hdeeper as [ | depth' _ IH ]; [ done | ].
  by apply run_dag_one_deeper.
Qed.

End runner.

(** *** What the collaborators returned *)

(** The two collaborators that run a task: [importer_handler.run_importer]
    and [task_dispatcher.run_single_task_implementation]. *)
Inductive Collaborator : Type :=
| ImporterHandler
| TaskDispatcher.

(** One call of a collaborator: which one, for which component, with which
    arguments, and what the call itself returned or raised. *)
Record Call : Type := {
  call_collaborator : Collaborator;
  call_component : string;
  call_arguments : gmap string PyValue;
  call_outcome : result (gmap string PyValue * Status);
}.

Definition call_status (call : Call) : result Status :=
  match call_outcome call with
  | Ok (_, task_status) => Ok task_status
  | Raise e => Raise e
  end.

Definition call_succeeded (call : Call) : Prop := call_status call = Ok SUCCESS.

Section recorded.

Variable World : Type.
Variable Context : Type.
Variable topological_sort_tasks :
  list (string * PipelineTaskSpec) → result (list string).
Variable run_importer :
  Context → string → ComponentSpec → ExecutorSpec → gmap string PyValue →
  World → World * result (gmap string PyValue * Status).
Variable run_single_task_implementation :
  Context → string → ComponentSpec → ExecutorSpec → gmap string PyValue →
  World → World * result (gmap string PyValue * Status).
Variable context : Context.
Variable executors : gmap string ExecutorSpec.
Variable components : gmap string ComponentSpec.

(** The collaborator [run], writing each of its calls with what it returned
    at the end of a log kept next to the world.  The log is written by the
    collaborator, out of reach of [run_dag]. *)
Definition recording (collaborator : Collaborator)
    (run : Context → string → ComponentSpec → ExecutorSpec → gmap string PyValue →
           World → World * result (gmap string PyValue * Status))
    (context : Context) (component_name : string) (component_spec : ComponentSpec)
    (executor_spec : ExecutorSpec) (arguments : gmap string PyValue)
    (w : World * list Call)
    : (World * list Call) * result (gmap string PyValue * Status) :=
  match run context component_name component_spec executor_spec arguments w.1 with
  | (w', outcome) =>
      ((w', w.2 ++ [{| call_collaborator := collaborator;
                       call_component := component_name;
                       call_arguments := arguments;
                       call_outcome := outcome |}]),
       outcome)
  end.

(** [run_dag] over the recording collaborators, from an empty log. *)
Definition recorded_run_dag (depth : nat) (dag_component_spec : ComponentSpec)
    (dag_arguments : gmap string PyValue) (io_store : IOStore) (w : World)
    : (World * list Call) * IOStore * list Event * result DagResult :=
  run_dag (World * list Call) Context topological_sort_tasks
    (recording ImporterHandler run_importer)
    (recording TaskDispatcher run_single_task_implementation)
    context executors components
    depth dag_component_spec dag_arguments io_store (w, []).

(** The graph levels of a run of [root]: [root] itself and the components
    of the pipeline. *)
Definition known_level (root level : ComponentSpec) : Prop :=
  level = root ∨ ∃ name, components !! name = Some level.

(** [call] is the dispatch of the task [task_name]: a task of that name in
    a graph level of the run refers to the component the collaborator was
    called for, that component is implemented by an executor, and the
    collaborator is the one for that kind of executor. *)
Definition dispatch_of (root : ComponentSpec) (call : Call) (task_name : string)
    : Prop :=
  ∃ level component_spec executor_key executor_spec,
    known_level root level
    ∧ component_ref_name (tasks_getitem (tasks (component_dag level)) task_name)
      = call_component call
    ∧ components !! call_component call = Some component_spec
    ∧ implementation component_spec = executor_label executor_key
    ∧ executors !! executor_key = Some executor_spec
    ∧ match call_collaborator call with
      | ImporterHandler => ∃ artifact_uri, executor_spec = importer artifact_uri
      | TaskDispatcher =>
          ∃ image command, executor_spec = container image command
      end.

(** Event by event, the events of a run are the calls of the log: each
    event carries the status its call returned, or the exception it
    raised. *)
Definition linked (root : ComponentSpec) (events : list Event) (calls : list Call)
    : Prop :=
  Forall2 (λ event call,
             ∃ task_name, event = Dispatched task_name (call_status call)
                          ∧ dispatch_of root call task_name)
    events calls.

Lemma linked_nested root name level events calls :
  components !! name = Some level →
  linked level events calls → linked root events calls.
Proof.
  intros Hname Hlinked. eapply Forall2_impl; [ exact Hlinked | ].
  intros event call (task_name & Hevent & Hdispatch).
  exists task_name. split; [ done | ].
  destruct Hdispatch as (l & cs & key & es & Hl & Hrest).
  exists l, cs, key, es. split; [ | done ].
  right. destruct Hl as [-> | Hl]; [ by exists name | done ].
Qed.

Lemma linked_succeeded root events calls :
  linked root events calls → all_succeeded events → Forall call_succeeded calls.
Proof.
  induction 1 as [ | event call events calls (t & -> & _) _ IH ]; [ constructor | ].
  intros [(t' & [= _ Hstatus]) Hrest]%Forall_cons. constructor; [ done | by apply IH ].
Qed.

Lemma dispatched_recorded collaborator run task_name component_name component_spec
    executor_spec arguments w log w' log' events r :
  dispatched (World * list Call) task_name
    (recording collaborator run context component_name component_spec
       executor_spec arguments (w, log))
  = ((w', log'), events, r) →
  ∃ call, log' = log ++ [call]
          ∧ events = [Dispatched task_name (call_status call)]
          ∧ call_collaborator call = collaborator
          ∧ call_component call = component_name.
Proof.
  unfold recording. simpl.
  destruct (run _ _ _ _ _ _) as [w1 [[outputs task_status] | e]]; simpl;
    intros [= <- <- <- <-]; by eexists.
Qed.

Section linked_loop.

Variable root : ComponentSpec.
Variable run_sub_dag :
  ComponentSpec → gmap string PyValue → World * list Call →
  (World * list Call) * list Event * result DagResult.
Hypothesis run_sub_dag_linked :
  ∀ name component_spec arguments w log w' log' events r,
    components !! name = Some component_spec →
    run_sub_dag component_spec arguments (w, log) = ((w', log'), events, r) →
    ∃ calls, log' = log ++ calls ∧ linked root events calls.

Lemma run_task_linked level task_name io_store w log w' log' events r :
  known_level root level →
  run_task (World * list Call) Context
    (recording ImporterHandler run_importer)
    (recording TaskDispatcher run_single_task_implementation)
    context executors components
    run_sub_dag (component_dag level) task_name io_store (w, log)
  = ((w', log'), events, r) →
  ∃ calls, log' = log ++ calls ∧ linked root events calls.
Proof.
  intros Hlevel. unfold run_task.
  assert (Hsilent : ∀ e, ((w, log), [], Raise e) = ((w', log'), events, r) →
                         ∃ calls, log' = log ++ calls ∧ linked root events calls).
  { intros e [= <- <- <- <-]. exists []. split; [ by rewrite app_nil_r | constructor ]. }
  destruct (validate_task_spec_not_loop_or_condition _); [ | apply Hsilent ].
  unfold dict_getitem at 1.
  destruct (components !! _) as [component_spec | ] eqn:Hcomponent; [ | apply Hsilent ].
  destruct (implementation component_spec) as [d | executor_key | ] eqn:Himplementation;
    [ | | apply Hsilent ].
  - destruct (make_task_arguments _ _) as [dag_arguments | e]; [ | apply Hsilent ].
    by eapply run_sub_dag_linked.
  - unfold dict_getitem.
    destruct (executors !! executor_key) as [executor_spec | ] eqn:Hexecutor;
      [ | apply Hsilent ].
    destruct (make_task_arguments _ _) as [task_arguments | e]; [ | apply Hsilent ].
    destruct executor_spec as [image command | artifact_uri | | | ];
      try apply Hsilent;
      intros (call & -> & -> & Hcollaborator & Hname)%dispatched_recorded;
      exists [call]; (split; [ done | ]);
      (constructor; [ | constructor ]);
      exists task_name; (split; [ done | ]);
      eexists level, component_spec, executor_key, _;
      rewrite Hname, Hcollaborator; repeat split; eauto.
Qed.

Lemma run_tasks_linked level popped io_store w log w' log' io_store' events exit :
  known_level root level →
  run_tasks (World * list Call) Context
    (recording ImporterHandler run_importer)
    (recording TaskDispatcher run_single_task_implementation)
    context executors components
    run_sub_dag (component_dag level) popped io_store (w, log)
  = ((w', log'), io_store', events, exit) →
  ∃ calls, log' = log ++ calls ∧ linked root events calls.
Proof.
  intros Hlevel. revert io_store w log w' log' io_store' events exit.
  induction popped as [ | task_name rest IH ];
    intros io_store w log w' log' io_store' events exit; simpl.
  - intros [= <- <- <- <- <-]. exists []. split; [ by rewrite app_nil_r | constructor ].
  - destruct (run_task _ _ _ _ _ _ _ _ _ _ _ _) as [[[w1 log1] events1] r1] eqn:Htask.
    apply (run_task_linked _ _ _ _ _ _ _ _ _ Hlevel) in Htask
      as (calls1 & -> & Hlinked1).
    destruct r1 as [[[outputs [ | ]] fail_task_name] | e].
    + destruct (run_tasks _ _ _ _ _ _ _ _ _ rest _ _)
        as [[[[w2 log2] io_store2] events2] exit2] eqn:Hrest.
      intros [= <- <- <- <- <-].
      apply IH in Hrest as (calls2 & -> & Hlinked2).
      exists (calls1 ++ calls2). split; [ by rewrite app_assoc | ].
      by apply Forall2_app.
    + intros [= <- <- <- <- <-]. by exists calls1.
    + intros [= <- <- <- <- <-]. by exists calls1.
Qed.

End linked_loop.

(** The log of a run grows by the calls of the run, and the events of the
    run are these calls. *)
Lemma run_dag_linked depth dag_component_spec dag_arguments io_store w log
    w' log' io_store' events r :
  run_dag (World * list Call) Context topological_sort_tasks
    (recording ImporterHandler run_importer)
    (recording TaskDispatcher run_single_task_implementation)
    context executors components
    depth dag_component_spec dag_arguments io_store (w, log)
  = ((w', log'), io_store', events, r) →
  ∃ calls, log' = log ++ calls ∧ linked dag_component_spec events calls.
Proof.
  revert dag_component_spec dag_arguments io_store w log w' log' io_store' events r.
  induction depth as [ | depth IH ];
    intros dag_component_spec dag_arguments io_store w log w' log' io_store' events r;
    simpl.
  - intros [= <- <- <- <- <-]. exists []. split; [ by rewrite app_nil_r | constructor ].
  - assert (Hsilent : ∀ st e, ((w, log), st, [], Raise e) = ((w', log'), io_store', events, r) →
                              ∃ calls, log' = log ++ calls
                                       ∧ linked dag_component_spec events calls).
    { intros st e [= <- <- <- <- <-]. exists [].
      split; [ by rewrite app_nil_r | constructor ]. }
    destruct (bind_defaults_to_dag_arguments _ _) as [with_defaults | e];
      [ | apply Hsilent ].
    destruct (topological_sort_tasks _) as [sorted_tasks | e]; [ | apply Hsilent ].
    destruct (run_tasks _ _ _ _ _ _ _ _ _ _ _ _)
      as [[[[w1 log1] io_store1] events1] exit] eqn:Hloop.
    apply (run_tasks_linked dag_component_spec) in Hloop as (calls & -> & Hlinked);
      [ | | by left ].
    + destruct exit as [[ | fail_task_name] | e].
      * destruct (get_dag_outputs _ _); intros [= <- <- <- <- <-]; by exists calls.
      * intros [= <- <- <- <- <-]. by exists calls.
      * intros [= <- <- <- <- <-]. by exists calls.
    + intros name component_spec arguments w0 log0 w0' log0' events0 r0 Hname.
      unfold forget_store.
      destruct (run_dag _ _ _ _ _ _ _ _ depth _ _ _ _)
        as [[[[w2 log2] io_store2] events2] r2] eqn:Hsub.
      intros [= <- <- <- <-]. apply IH in Hsub as (calls & -> & Hlinked).
      exists calls. split; [ done | ]. by eapply linked_nested.
Qed.



End recorded.

(** C10 as the code has it.  The decoder gives a float for every
    number-tagged wire value, and neither [bind_defaults_to_dag_arguments]
    nor [make_task_arguments] casts: a constant that is the wire number [x]
    reaches the task as the float [x]; a parent input bound from its
    declared default [x] reaches it as the float [x], whatever the declared
    type; a parent input supplied as an argument reaches it as supplied, so
    a native [int] stays an [int]. *)
Theorem task_arguments_are_never_cast
    dag_arguments dag_inputs_spec with_defaults task_inputs_spec io_store task_arguments
    (Hbind : bind_defaults_to_dag_arguments dag_arguments dag_inputs_spec
             = Ok with_defaults)
    (Hargs : make_task_arguments task_inputs_spec
               (put_parent_inputs with_defaults io_store) = Ok task_arguments) :
  (∀ x, pb2_value_to_python (number_value x) = Ok (PyFloat x))
  ∧ (∀ input_name x,
       input_artifacts task_inputs_spec !! input_name = None →
       input_parameters task_inputs_spec !! input_name
       = Some (runtime_value (constant (number_value x))) →
       task_arguments !! input_name = Some (PyFloat x))
  ∧ (∀ input_name name declared x,
       input_artifacts task_inputs_spec !! input_name = None →
       input_parameters task_inputs_spec !! input_name
       = Some (component_input_parameter name) →
       parameters dag_inputs_spec !! name = Some declared →
       dag_arguments !! name = None →
       default_value declared = number_value x →
       task_arguments !! input_name = Some (PyFloat x))
  ∧ (∀ input_name name declared v,
       input_artifacts task_inputs_spec !! input_name = None →
       input_parameters task_inputs_spec !! input_name
       = Some (component_input_parameter name) →
       parameters dag_inputs_spec !! name = Some declared →
       dag_arguments !! name = Some v →
       task_arguments !! input_name = Some v).
Proof.
  assert (Hparent : ∀ input_name name,
            input_artifacts task_inputs_spec !! input_name = None →
            input_parameters task_inputs_spec !! input_name
            = Some (component_input_parameter name) →
            ∀ v, with_defaults !! name = Some v →
                 task_arguments !! input_name = Some v).
  { intros input_name name Hnoart Hparam v Hv.
    pose proof (make_task_arguments_inv _ _ _ Hargs input_name) as Hk.
    rewrite Hnoart, Hparam in Hk. destruct Hk as (u & Hu & ->).
    simpl in Hu. unfold get_parent_input in Hu.
    rewrite put_parent_inputs_lookup, Hv in Hu. congruence. }
  split; [ done | ]. split; [ | split ].
  - intros input_name x Hnoart Hparam.
    pose proof (make_task_arguments_inv _ _ _ Hargs input_name) as Hk.
    rewrite Hnoart, Hparam in Hk. by destruct Hk as (v & [= <-] & Hk).
  - intros input_name name declared x Hnoart Hparam Hdeclared Hmissing Hdefault.
    apply (Hparent input_name name Hnoart Hparam).
    pose proof (bind_defaults_inv _ _ _ Hbind name) as Hd.
    rewrite Hdeclared, Hmissing, Hdefault in Hd. by destruct Hd as (v & [= <-] & Hd).
  - intros input_name name declared v Hnoart Hparam Hdeclared Hsupplied.
    apply (Hparent input_name name Hnoart Hparam).
    pose proof (bind_defaults_inv _ _ _ Hbind name) as Hd.
    by rewrite Hdeclared, Hsupplied in Hd.
Qed.

(** *** Sample runs *)

Definition sample_dataset : PyValue :=
  PyArtifact {| dsl_schema_title := "system.Dataset"; dsl_name := "dataset";
                dsl_uri := "/data/train.csv"; dsl_metadata := [] |}.

(** A container step that fails for the component [comp-bad], succeeds with
    the artifact [dataset] for [comp-data] and with the output [y]
    otherwise; the world counts the steps run. *)
Definition sample_run_container (_ : unit) (component_name : string)
    (_ : ComponentSpec) (_ : ExecutorSpec) (_ : gmap string PyValue) (w : nat)
    : nat * result (gmap string PyValue * Status) :=
  (S w,
   if decide (component_name = "comp-bad")
   then Ok ({[ "y" := PyNone ]}, FAILURE)
   else if decide (component_name = "comp-data")
   then Ok ({[ "dataset" := sample_dataset ]}, SUCCESS)
   else Ok ({[ "y" := PyFloat float_three ]}, SUCCESS)).

Definition sample_run_importer (_ : unit) (_ : string)
    (_ : ComponentSpec) (_ : ExecutorSpec) (_ : gmap string PyValue) (w : nat)
    : nat * result (gmap string PyValue * Status) :=
  (S w, Ok (∅, SUCCESS)).

Definition no_io : ComponentIOSpec := {| parameters := ∅; artifacts := ∅ |}.

Definition sample_leaf (label : string) : ComponentSpec :=
  {| input_definitions := no_io; output_definitions := no_io;
     implementation := executor_label label |}.

(** The nested graph [B1 → B2 → B3], in which [B2] runs [comp-bad]. *)
Definition sample_inner : ComponentSpec :=
  {| input_definitions :=
       {| parameters := {[ "x" := {| parameter_type := NUMBER_DOUBLE;
                                     default_value := kind_not_set |} ]};
          artifacts := ∅ |};
     output_definitions := no_io;
     implementation :=
       dag {| tasks :=
                [("B1", {| component_ref_name := "comp-ok";
                           inputs := {| input_parameters :=
                                          {[ "x" := component_input_parameter "x" ]};
                                        input_artifacts := ∅ |};
                           trigger_condition := ""; iterator := None |});
                 ("B2", GraphUtils.sample_task "comp-bad" (Some "B1"));
                 ("B3", GraphUtils.sample_task "comp-ok" (Some "B2"))];
              dag_outputs :=
                {| dag_output_parameters := {[ "y" := value_from_parameter "B3" "y" ]};
                   dag_output_artifacts := ∅ |} |} |}.

(** The graph [A → B → C], [B] being the nested graph. *)
Definition sample_root : ComponentSpec :=
  {| input_definitions := no_io; output_definitions := no_io;
     implementation :=
       dag {| tasks :=
                [("A", GraphUtils.sample_task "comp-ok" None);
                 ("B", GraphUtils.sample_task "comp-inner" (Some "A"));
                 ("C", GraphUtils.sample_task "comp-ok" (Some "B"))];
              dag_outputs :=
                {| dag_output_parameters := ∅; dag_output_artifacts := ∅ |} |} |}.

(** The graph [A → B] in which [B] carries a conditional trigger. *)
Definition sample_conditional : ComponentSpec :=
  {| input_definitions := no_io; output_definitions := no_io;
     implementation :=
       dag {| tasks :=
                [("A", GraphUtils.sample_task "comp-ok" None);
                 ("B", {| component_ref_name := "comp-ok";
                          inputs := inputs (GraphUtils.sample_task "comp-ok" (Some "A"));
                          trigger_condition := "inputs.parameter_values['x'] == 3";
                          iterator := None |})];
              dag_outputs :=
                {| dag_output_parameters := ∅; dag_output_artifacts := ∅ |} |} |}.

Definition sample_artifact_inputs : ComponentIOSpec :=
  {| parameters := ∅;
     artifacts := {[ "dataset" := {| is_artifact_list := false |} ]} |}.

(** A task whose artifact input [data] is wired to [source]. *)
Definition sample_artifact_task (component : string) (source : InputArtifactSpec)
    : PipelineTaskSpec :=
  {| component_ref_name := component;
     inputs := {| input_parameters := ∅; input_artifacts := {[ "data" := source ]} |};
     trigger_condition := ""; iterator := None |}.

(** A nested graph with the artifact input [dataset], handed to its only
    task. *)
Definition sample_artifact_inner : ComponentSpec :=
  {| input_definitions := sample_artifact_inputs; output_definitions := no_io;
     implementation :=
       dag {| tasks :=
                [("T", sample_artifact_task "comp-ok"
                         (component_input_artifact "dataset"))];
              dag_outputs :=
                {| dag_output_parameters := ∅; dag_output_artifacts := ∅ |} |} |}.

(** The graph [A → B]: [A] produces the artifact [dataset], the nested
    graph [B] takes it as its input [dataset]. *)
Definition sample_artifact_root : ComponentSpec :=
  {| input_definitions := no_io; output_definitions := no_io;
     implementation :=
       dag {| tasks :=
                [("A", GraphUtils.sample_task "comp-data" None);
                 ("B", {| component_ref_name := "comp-artifact-inner";
                          inputs :=
                            {| input_parameters := ∅;
                               input_artifacts :=
                                 {[ "dataset" := task_output_artifact "A" "dataset" ]} |};
                          trigger_condition := ""; iterator := None |})];
              dag_outputs :=
                {| dag_output_parameters := ∅; dag_output_artifacts := ∅ |} |} |}.

Definition sample_components : gmap string ComponentSpec :=
  {[ "comp-ok" := sample_leaf "exec-ok"; "comp-bad" := sample_leaf "exec-bad";
     "comp-data" := sample_leaf "exec-ok";
     "comp-inner" := sample_inner; "comp-artifact-inner" := sample_artifact_inner ]}.

Definition sample_executors : gmap string ExecutorSpec :=
  {[ "exec-ok" := container "python:3.9" ["ok"];
     "exec-bad" := container "python:3.9" ["bad"] ]}.

Definition sample_run_dag (dag_component_spec : ComponentSpec)
    : nat * IOStore * list Event * result DagResult :=
  run_dag nat unit GraphUtils.topological_sort_tasks
    sample_run_importer sample_run_container tt sample_executors sample_components
    3 dag_component_spec ∅ new_IOStore 0.

Definition sample_root_store : IOStore :=
  {| parent_input_data := ∅;
     task_output_data := {[ ("A", "y") := PyFloat float_three ]} |}.

Example sample_root_run :
  sample_run_dag sample_root
  = (3, sample_root_store,
     [Dispatched "A" (Ok SUCCESS); Dispatched "B1" (Ok SUCCESS);
      Dispatched "B2" (Ok FAILURE)],
     Ok (∅, FAILURE, Some "B2")).
Proof. vm_compute. reflexivity. Qed.

(** The conditional task [B] is rejected only after [A] has run. *)
Lemma condition_rejected_after_a_dispatch :
  (∃ task_name task_spec,
     (task_name, task_spec) ∈ tasks (component_dag sample_conditional)
     ∧ trigger_condition task_spec ≠ "")
  ∧ sample_run_dag sample_conditional
    = (1, sample_root_store, [Dispatched "A" (Ok SUCCESS)],
       Raise (ValueError "dsl.Condition is not supported by local pipeline execution.")).
Proof.
  split.
  - eexists "B", _. split; [ apply list_elem_of_further, list_elem_of_here | done ].
  - vm_compute. reflexivity.
Qed.

(** The graph [A → B] in which [B] carries a parameter iterator and no
    trigger condition. *)
Definition sample_loop : ComponentSpec :=
  {| input_definitions := no_io; output_definitions := no_io;
     implementation :=
       dag {| tasks :=
                [("A", GraphUtils.sample_task "comp-ok" None);
                 ("B", {| component_ref_name := "comp-ok";
                          inputs := inputs (GraphUtils.sample_task "comp-ok" (Some "A"));
                          trigger_condition := "";
                          iterator := Some parameter_iterator |})];
              dag_outputs :=
                {| dag_output_parameters := ∅; dag_output_artifacts := ∅ |} |} |}.

Example sample_loop_run :
  sample_run_dag sample_loop
  = (1, sample_root_store, [Dispatched "A" (Ok SUCCESS)],
     Raise (ValueError "dsl.ParallelFor is not supported by local pipeline execution.")).
Proof. vm_compute. reflexivity. Qed.

Lemma unsupported_task_rejected_when_popped_witness :
  sample_run_dag sample_loop
  = match run_tasks nat unit sample_run_importer sample_run_container tt
            sample_executors sample_components
            (λ component_spec arguments w,
               forget_store nat
                 (run_dag nat unit GraphUtils.topological_sort_tasks
                    sample_run_importer sample_run_container tt
                    sample_executors sample_components
                    2 component_spec arguments new_IOStore w))
            (component_dag sample_loop) ["A"]
            (put_parent_inputs ∅ new_IOStore) 0 with
    | (w1, io_store1, events1, Ok Exhausted) =>
        (w1, io_store1, events1,
         Raise (ValueError
                  (if bool_decide
                        (trigger_condition
                           (tasks_getitem (tasks (component_dag sample_loop)) "B") ≠ "")
                   then "dsl.Condition is not supported by local pipeline execution."
                   else "dsl.ParallelFor is not supported by local pipeline execution.")))
    | (w1, io_store1, events1, Ok (Failed fail_task_name)) =>
        (w1, io_store1, events1, Ok (∅, FAILURE, fail_task_name))
    | (w1, io_store1, events1, Raise e1) => (w1, io_store1, events1, Raise e1)
    end.
Proof.
  apply (unsupported_task_rejected_when_popped nat unit
           GraphUtils.topological_sort_tasks
           sample_run_importer sample_run_container tt
           sample_executors sample_components
           2 sample_loop ∅ new_IOStore 0 ∅ ["B"; "A"] ["A"] "B" []).
  - vm_compute. reflexivity.
  - vm_compute. reflexivity.
  - reflexivity.
  - right. vm_compute. by eexists.
Defined.

(** C5 at an artifact argument.  A graph level that declares the artifact
    input [dataset] and is called with an artifact for it: the arguments
    with defaults are empty and no parent input is written, so a task wired
    to that input cannot get its argument; run under the graph [A → B], the
    nested graph [B] raises instead of running its task. *)
Theorem artifact_argument_not_written_to_store :
  bind_defaults_to_dag_arguments {[ "dataset" := sample_dataset ]}
    sample_artifact_inputs = Ok ∅
  ∧ parent_input_data (put_parent_inputs ∅ new_IOStore) !! "dataset" = None
  ∧ make_task_arguments
      (inputs (sample_artifact_task "comp-ok" (component_input_artifact "dataset")))
      (put_parent_inputs ∅ new_IOStore)
    = Raise (ValueError "Parent pipeline input argument not found.")
  ∧ sample_run_dag sample_artifact_root
    = (1,
       {| parent_input_data := ∅;
          task_output_data := {[ ("A", "dataset") := sample_dataset ]} |},
       [Dispatched "A" (Ok SUCCESS)],
       Raise (ValueError "Parent pipeline input argument not found.")).
Proof. repeat split; vm_compute; reflexivity. Qed.

(** A task with the constant 3.0 as [n], the parent input [rate] as [m]
    and the parent input [steps] as [s], in the graph level of
    [sample_declared] called with [sample_supplied]: [rate] is supplied as
    the native integer 7, [steps] is bound from its default. *)
Definition sample_constant_inputs : TaskInputsSpec :=
  {| input_parameters :=
       {[ "n" := runtime_value (constant (number_value float_three));
          "m" := component_input_parameter "rate";
          "s" := component_input_parameter "steps" ]};
     input_artifacts := ∅ |}.

Definition sample_constant_arguments : gmap string PyValue :=
  {[ "n" := PyFloat float_three; "m" := PyInt 7; "s" := PyFloat float_three ]}.

(** The parent input [rate], declared NUMBER_INTEGER and supplied as the
    native integer 7, reaches the task as the integer 7, not as a float. *)
Lemma supplied_int_parent_input_stays_int :
  parameter_type <$> parameters sample_declared !! "rate" = Some NUMBER_INTEGER
  ∧ bind_defaults_to_dag_arguments sample_supplied sample_declared = Ok sample_bound
  ∧ make_task_arguments sample_constant_inputs
      (put_parent_inputs sample_bound new_IOStore) = Ok sample_constant_arguments
  ∧ sample_constant_arguments !! "m" = Some (PyInt 7).
Proof. repeat split; vm_compute; reflexivity. Qed.

Lemma task_arguments_are_never_cast_witness :
  (∀ x, pb2_value_to_python (number_value x) = Ok (PyFloat x))
  ∧ (∀ input_name x,
       input_artifacts sample_constant_inputs !! input_name = None →
       input_parameters sample_constant_inputs !! input_name
       = Some (runtime_value (constant (number_value x))) →
       sample_constant_arguments !! input_name = Some (PyFloat x))
  ∧ (∀ input_name name declared x,
       input_artifacts sample_constant_inputs !! input_name = None →
       input_parameters sample_constant_inputs !! input_name
       = Some (component_input_parameter name) →
       parameters sample_declared !! name = Some declared →
       sample_supplied !! name = None →
       default_value declared = number_value x →
       sample_constant_arguments !! input_name = Some (PyFloat x))
  ∧ (∀ input_name name declared v,
       input_artifacts sample_constant_inputs !! input_name = None →
       input_parameters sample_constant_inputs !! input_name
       = Some (component_input_parameter name) →
       parameters sample_declared !! name = Some declared →
       sample_supplied !! name = Some v →
       sample_constant_arguments !! input_name = Some v).
Proof.
  apply (task_arguments_are_never_cast sample_supplied sample_declared sample_bound
           sample_constant_inputs new_IOStore sample_constant_arguments).
  - vm_compute. reflexivity.
  - vm_compute. reflexivity.
Defined.

(** *** More sample runs *)

Definition sample_root_events : list Event :=
  [Dispatched "A" (Ok SUCCESS); Dispatched "B1" (Ok SUCCESS);
   Dispatched "B2" (Ok FAILURE)].

(** *** Runs with an importer *)

(** An importer that returns FAILURE, and one that raises. *)
Definition sample_failing_importer (_ : unit) (_ : string)
    (_ : ComponentSpec) (_ : ExecutorSpec) (_ : gmap string PyValue) (w : nat)
    : nat * result (gmap string PyValue * Status) :=
  (S w, Ok (∅, FAILURE)).

Definition sample_raising_importer (_ : unit) (_ : string)
    (_ : ComponentSpec) (_ : ExecutorSpec) (_ : gmap string PyValue) (w : nat)
    : nat * result (gmap string PyValue * Status) :=
  (S w, Raise FileNotFoundError).

(** The nested graph [I1 → I2 → I3], in which [I2] is an importer. *)
Definition sample_import_inner : ComponentSpec :=
  {| input_definitions := no_io; output_definitions := no_io;
     implementation :=
       dag {| tasks :=
                [("I1", GraphUtils.sample_task "comp-ok" None);
                 ("I2", GraphUtils.sample_task "comp-import" (Some "I1"));
                 ("I3", GraphUtils.sample_task "comp-ok" (Some "I2"))];
              dag_outputs :=
                {| dag_output_parameters := ∅; dag_output_artifacts := ∅ |} |} |}.

(** The graph [A → B → C], [B] being the nested graph with the importer. *)
Definition sample_import_root : ComponentSpec :=
  {| input_definitions := no_io; output_definitions := no_io;
     implementation :=
       dag {| tasks :=
                [("A", GraphUtils.sample_task "comp-ok" None);
                 ("B", GraphUtils.sample_task "comp-import-inner" (Some "A"));
                 ("C", GraphUtils.sample_task "comp-ok" (Some "B"))];
              dag_outputs :=
                {| dag_output_parameters := ∅; dag_output_artifacts := ∅ |} |} |}.

Definition sample_import_components : gmap string ComponentSpec :=
  {[ "comp-ok" := sample_leaf "exec-ok";
     "comp-import" := sample_leaf "exec-import";
     "comp-import-inner" := sample_import_inner ]}.

Definition sample_import_executors : gmap string ExecutorSpec :=
  {[ "exec-ok" := container "python:3.9" ["ok"];
     "exec-import" := importer "gs://bucket/train.csv" ]}.

Definition sample_step_call : Call :=
  {| call_collaborator := TaskDispatcher; call_component := "comp-ok";
     call_arguments := ∅;
     call_outcome := Ok ({[ "y" := PyFloat float_three ]}, SUCCESS) |}.

(** The call of the importer for [I2], with the output of [I1] as its
    argument. *)
Definition sample_import_call (outcome : result (gmap string PyValue * Status))
    : Call :=
  {| call_collaborator := ImporterHandler; call_component := "comp-import";
     call_arguments := {[ "x" := PyFloat float_three ]};
     call_outcome := outcome |}.

Definition sample_import_events (outcome : result Status) : list Event :=
  [Dispatched "A" (Ok SUCCESS); Dispatched "I1" (Ok SUCCESS);
   Dispatched "I2" outcome].

(** The importer fails in the nested graph: [I3] and [C] are not run, and
    the name returned is [I2], not [B]. *)
Example sample_import_run :
  recorded_run_dag nat unit GraphUtils.topological_sort_tasks
    sample_failing_importer sample_run_container tt
    sample_import_executors sample_import_components
    3 sample_import_root ∅ new_IOStore 0
  = ((3, [sample_step_call; sample_step_call;
          sample_import_call (Ok (∅, FAILURE))]),
     sample_root_store, sample_import_events (Ok FAILURE),
     Ok (∅, FAILURE, Some "I2")).
Proof. vm_compute. reflexivity. Qed.



Lemma run_dag_store_scope_witness :
  (∀ name, parent_input_data sample_root_store !! name
           = match (∅ : gmap string PyValue) !! name with
             | Some v => Some v
             | None => parent_input_data new_IOStore !! name
             end)
  ∧ ∀ t k v, task_output_data sample_root_store !! (t, k) = Some v →
             t ∈ ["C"; "B"; "A"] ∨ task_output_data new_IOStore !! (t, k) = Some v.
Proof.
  apply (run_dag_store_scope nat unit GraphUtils.topological_sort_tasks
           sample_run_importer sample_run_container tt
           sample_executors sample_components
           2 sample_root ∅ new_IOStore 0
           3 sample_root_store sample_root_events (Ok (∅, FAILURE, Some "B2"))
           ∅ ["C"; "B"; "A"]).
  - vm_compute. reflexivity.
  - vm_compute. reflexivity.
  - vm_compute. reflexivity.
Defined.

Lemma run_dag_of_a_leaf_dispatches_nothing_witness :
  run_dag nat unit GraphUtils.topological_sort_tasks
    sample_run_importer sample_run_container tt sample_executors sample_components
    1 (sample_leaf "exec-ok") sample_supplied new_IOStore 0
  = (0, put_parent_inputs ∅ new_IOStore, [], Ok (∅, SUCCESS, None)).
Proof.
  apply (run_dag_of_a_leaf_dispatches_nothing nat unit
           GraphUtils.topological_sort_tasks
           sample_run_importer sample_run_container tt
           sample_executors sample_components
           0 (sample_leaf "exec-ok") sample_supplied new_IOStore 0 ∅).
  - discriminate.
  - vm_compute. reflexivity.
  - reflexivity.
Defined.

Lemma run_dag_deeper_witness :
  run_dag nat unit GraphUtils.topological_sort_tasks
    sample_run_importer sample_run_container tt sample_executors sample_components
    1000 sample_root ∅ new_IOStore 0
  = (3, sample_root_store, sample_root_events, Ok (∅, FAILURE, Some "B2")).
Proof.
  apply (run_dag_deeper nat unit GraphUtils.topological_sort_tasks
           sample_run_importer sample_run_container tt
           sample_executors sample_components 3 1000).
  - vm_compute. reflexivity.
  - discriminate.
  - lia.
Defined.

End DagOrchestrator.
